(** * audio-capture: process-exclusive WASAPI loopback capture

    A shallow embedding of [src/native/audio-capture.cpp] and the
    properties of its format negotiation, stream header, capture loop
    and exit codes.

    The program talks to the platform (COM, WASAPI, the C runtime) at
    every line.  The platform is modelled as a [World]: a record of the
    answers it gives, indexed by call number where a call is repeated.
    [wmain] is then a function from a world to the trace of platform
    calls it performs, in order, and the exit code. *)

From Stdlib Require Import ZArith List Bool String Ascii Lia.
Import ListNotations.
Open Scope Z_scope.

(** ** Machine integers and platform constants *)

Module Win32.

(** [UINT16], [UINT32]/[DWORD]: conversion to the type wraps. *)
Definition u16 (x : Z) : Z := x mod 2 ^ 16.
Definition u32 (x : Z) : Z := x mod 2 ^ 32.

Definition INT_MAX : Z := 2147483647.
Definition INT_MIN : Z := -2147483648.

(** [HRESULT] is a signed 32-bit value; [FAILED(hr)] is [hr < 0]. *)
Definition FAILED (hr : Z) : bool := hr <? 0.

Definition S_OK : Z := 0.
Definition E_NOTIMPL : Z := 0x80004001 - 2 ^ 32.
Definition E_FAIL : Z := 0x80004005 - 2 ^ 32.
Definition AUDCLNT_S_BUFFER_EMPTY : Z := 0x08890001.
Definition AUDCLNT_BUFFERFLAGS_SILENT : Z := 0x2.
Definition WAVE_FORMAT_EXTENSIBLE : Z := 0xFFFE.
Definition WAIT_OBJECT_0 : Z := 0.
Definition WAIT_TIMEOUT : Z := 258.

(** Lines 59-70: the activation enums defined by the program. *)
Definition AC_ACTIVATION_TYPE_PROCESS_LOOPBACK : Z := 1.
Definition PL_MODE_EXCLUDE_TARGET_PROCESS_TREE : Z := 1.

End Win32.
Import Win32.

(** ** The C runtime's [_wtoi]

    [_wtoi] skips leading white space, reads an optional sign and then
    decimal digits up to the first character that is not one; with no
    digit the result is 0, and a value outside [int] saturates. *)

Module Crt.

Definition code (c : ascii) : Z := Z.of_N (N_of_ascii c).

Definition iswspace (c : ascii) : bool :=
  ((9 <=? code c) && (code c <=? 13)) || (code c =? 32).

Definition digit (c : ascii) : option Z :=
  if (48 <=? code c) && (code c <=? 57) then Some (code c - 48) else None.

Fixpoint skip_space (s : string) : string :=
  match s with
  | String c r => if iswspace c then skip_space r else s
  | EmptyString => s
  end.

Fixpoint digits (acc : Z) (s : string) : Z :=
  match s with
  | String c r =>
      match digit c with
      | Some d => digits (10 * acc + d) r
      | None => acc
      end
  | EmptyString => acc
  end.

Definition saturate (x : Z) : Z := Z.max INT_MIN (Z.min INT_MAX x).

Definition wtoi (s : string) : Z :=
  match skip_space s with
  | String "-"%char r => saturate (- digits 0 r)
  | String "+"%char r => saturate (digits 0 r)
  | t => saturate (digits 0 t)
  end.

(** What is left once white space and one sign are skipped: the place
    where [_wtoi] expects its first digit. *)
Definition numeral (s : string) : string :=
  match skip_space s with
  | String "-"%char r => r
  | String "+"%char r => r
  | t => t
  end.

Definition starts_with_digit (s : string) : bool :=
  match s with
  | String c _ => match digit c with Some _ => true | None => false end
  | EmptyString => false
  end.

End Crt.

(** ** Wave formats and the stream header *)

Record GUID := {
  Data1 : Z;            (* unsigned long *)
  Data2 : Z;
  Data3 : Z;
  Data4 : list Z
}.

Record WAVEFORMATEX := {
  wFormatTag : Z;       (* WORD *)
  nChannels : Z;        (* WORD *)
  nSamplesPerSec : Z;   (* DWORD *)
  nAvgBytesPerSec : Z;  (* DWORD *)
  nBlockAlign : Z;      (* WORD *)
  wBitsPerSample : Z;   (* WORD *)
  cbSize : Z            (* WORD *)
}.

(** The memory [waveFormat] points to, read as the program reads it when
    the tag says "extensible": the base format followed by the three
    extension fields. *)
Record WAVEFORMATEXTENSIBLE := {
  Format : WAVEFORMATEX;
  wValidBitsPerSample : Z;  (* Samples.wValidBitsPerSample, WORD *)
  dwChannelMask : Z;        (* DWORD *)
  SubFormat : GUID
}.

Definition sizeof_WAVEFORMATEX : Z := 18.
Definition sizeof_WAVEFORMATEXTENSIBLE : Z := 40.

(** Lines 195-202: [struct AudioHeader], packed. *)
Record AudioHeader := {
  sampleRate : Z;       (* UINT32 *)
  channels : Z;         (* UINT16 *)
  bitsPerSample : Z;    (* UINT16 *)
  formatTag : Z         (* UINT32 *)
}.

Definition byte_at (i : Z) (x : Z) : Z := Z.land (Z.shiftr x (8 * i)) 255.

Definition le16 (x : Z) : list Z := [byte_at 0 x; byte_at 1 x].
Definition le32 (x : Z) : list Z :=
  [byte_at 0 x; byte_at 1 x; byte_at 2 x; byte_at 3 x].

(** The object representation of a packed [AudioHeader] on the
    little-endian targets the program is built for: what
    [_write(1, &header, sizeof(header))] hands to the data channel. *)
Definition header_bytes (h : AudioHeader) : list Z :=
  le32 (sampleRate h) ++ le16 (channels h) ++ le16 (bitsPerSample h)
    ++ le32 (formatTag h).

Definition sizeof_AudioHeader : Z := 12.

(** The consumer's reading of the first 12 bytes. *)
Definition from_le (bs : list Z) : Z :=
  fold_right (fun b acc => b + 256 * acc) 0 bs.

Definition parse_header (bs : list Z) : option AudioHeader :=
  match bs with
  | [r0; r1; r2; r3; c0; c1; b0; b1; t0; t1; t2; t3] =>
      Some {| sampleRate := from_le [r0; r1; r2; r3];
              channels := from_le [c0; c1];
              bitsPerSample := from_le [b0; b1];
              formatTag := from_le [t0; t1; t2; t3] |}
  | _ => None
  end.

(** Lines 291-304: the fallback format. *)
Definition KSDATAFORMAT_SUBTYPE_IEEE_FLOAT_LOCAL : GUID :=
  {| Data1 := 0x00000003; Data2 := 0x0000; Data3 := 0x0010;
     Data4 := [0x80; 0x00; 0x00; 0xAA; 0x00; 0x38; 0x9B; 0x71] |}.

Definition fallbackFmt : WAVEFORMATEXTENSIBLE :=
  let nBlockAlign := u16 (2 * (32 / 8)) in
  {| Format :=
       {| wFormatTag := WAVE_FORMAT_EXTENSIBLE;
          nChannels := 2;
          nSamplesPerSec := 48000;
          nAvgBytesPerSec := u32 (48000 * nBlockAlign);
          nBlockAlign := nBlockAlign;
          wBitsPerSample := 32;
          cbSize := u16 (sizeof_WAVEFORMATEXTENSIBLE - sizeof_WAVEFORMATEX) |};
     wValidBitsPerSample := 32;
     dwChannelMask := 3;
     SubFormat := KSDATAFORMAT_SUBTYPE_IEEE_FLOAT_LOCAL |}.

(** Lines 310-320: the four header fields read from the format, with the
    extensible wrapper undone. *)
Definition describe (waveFormat : WAVEFORMATEXTENSIBLE) : AudioHeader :=
  let sampleRate := nSamplesPerSec (Format waveFormat) in
  let channels := nChannels (Format waveFormat) in
  let bitsPerSample := wBitsPerSample (Format waveFormat) in
  let formatTag := wFormatTag (Format waveFormat) in
  if formatTag =? WAVE_FORMAT_EXTENSIBLE then
    {| sampleRate := sampleRate;
       channels := channels;
       bitsPerSample := wValidBitsPerSample waveFormat;
       formatTag := Data1 (SubFormat waveFormat) |}
  else
    {| sampleRate := sampleRate;
       channels := channels;
       bitsPerSample := bitsPerSample;
       formatTag := formatTag |}.

(** Line 322: [UINT32 frameSize = channels * (bitsPerSample / 8)]. *)
Definition frameSize_of (h : AudioHeader) : Z :=
  u32 (channels h * (bitsPerSample h / 8)).

(** Line 424: [UINT32 byteCount = numFrames * frameSize]. *)
Definition byteCount_of (numFrames frameSize : Z) : Z :=
  u32 (numFrames * frameSize).

(** ** The platform *)

(** One answer of [IAudioCaptureClient::GetBuffer]: the status and the
    three out-parameters the program reads. [pk_data i] is the byte at
    [data + i]. *)
Record Packet := {
  pk_hr : Z;
  pk_data : nat -> Z;
  pk_numFrames : Z;   (* UINT32 *)
  pk_flags : Z        (* DWORD *)
}.

Record World := {
  argv : list string;
  hrCoInitializeEx : Z;
  hrActivateAsync : Z;       (* ActivateAudioInterfaceAsync *)
  asyncOp : bool;            (* the operation handle is not null *)
  m_hrActivate : Z;          (* GetActivateResult, in the callback *)
  m_pActivated : bool;       (* the activated interface is not null *)
  hrQI : Z;                  (* QueryInterface(IAudioClient) *)
  qiClient : bool;           (* the client pointer is not null *)
  hrGetMixFormat : Z;
  mixFormat : WAVEFORMATEXTENSIBLE;
  hrInitialize : Z;
  hrSetEventHandle : Z;
  hrGetService : Z;
  hrStart : Z;
  (** [write_ret k n]: what the [k]-th call of [_write] returns when
      asked for [n] bytes. *)
  write_ret : nat -> Z -> Z;
  (** [ctrl_c k]: the console control handler ran since the previous
      read of [g_running] (since program start for [k = 0]). *)
  ctrl_c : nat -> bool;
  wait_ret : nat -> Z;       (* WaitForSingleObject(captureEvent, 100) *)
  packet : nat -> Packet     (* GetBuffer *)
}.

Inductive Diag :=
| DUsage
| DExcluding (pid : Z)
| DCoInitializeExFailed (hr : Z)
| DActivateFailed (hr : Z)
| DActivateResult (hr : Z) (pUnk : bool)
| DQueryInterface (hr : Z) (ptr : bool)
| DNoAudioClient (hr : Z)
| DMixFormatFallback (hr : Z)
| DFormat (h : AudioHeader) (usingFallback : bool)
| DInitializeFailed (hr : Z)
| DSetEventHandleFailed (hr : Z)
| DGetServiceFailed (hr : Z)
| DHeaderFailed
| DStartFailed (hr : Z)
| DStarted (pid : Z)
| DStopping.

(** What the process does that can be seen from outside, one event per
    call. Reads and writes of the volatile [g_running] are events too. *)
Inductive Event :=
| EvStderr (d : Diag)
| EvSetMode
| EvSetConsoleCtrlHandler
| EvCoInitializeEx (hr : Z)
| EvNewHandler
| EvActivateAsync (activationType targetPid mode : Z) (hr : Z)
| EvHandlerWait
| EvQueryInterface (hr : Z)
| EvHandlerRelease
| EvAsyncOpRelease
| EvGetMixFormat (hr : Z)
| EvInitialize (fmt : WAVEFORMATEXTENSIBLE) (hr : Z)
| EvCoTaskMemFree
| EvCreateEvent
| EvSetEventHandle (hr : Z)
| EvGetService (hr : Z)
| EvWrite (buf : list Z) (ret : Z)
| EvStart (hr : Z)
| EvLoadRunning (v : bool)
| EvStoreRunning (v : bool)
| EvWaitCapture (res : Z)
| EvGetBuffer (hr numFrames flags : Z)
| EvReleaseBuffer (numFrames : Z)
| EvStop
| EvCaptureClientRelease
| EvAudioClientRelease
| EvCloseHandle
| EvCoUninitialize.

(** The state the program carries between platform calls: the global
    [g_running] (line 183), how many times each repeated call has been
    made, and the log of events so far, oldest first. *)
Record Machine := {
  g_running : bool;
  loads : nat;
  writes : nat;
  gets : nat;
  waits : nat;
  trace : list Event
}.

Definition boot : Machine :=
  {| g_running := true; loads := 0; writes := 0; gets := 0; waits := 0;
     trace := [] |}.

Definition emit (e : Event) (m : Machine) : Machine :=
  {| g_running := g_running m; loads := loads m; writes := writes m;
     gets := gets m; waits := waits m; trace := trace m ++ [e] |}.

Definition set_running (v : bool) (m : Machine) : Machine :=
  {| g_running := v; loads := loads m; writes := writes m;
     gets := gets m; waits := waits m; trace := trace m |}.

Definition tick_load (m : Machine) : Machine :=
  {| g_running := g_running m; loads := S (loads m); writes := writes m;
     gets := gets m; waits := waits m; trace := trace m |}.

Definition tick_write (m : Machine) : Machine :=
  {| g_running := g_running m; loads := loads m; writes := S (writes m);
     gets := gets m; waits := waits m; trace := trace m |}.

Definition tick_get (m : Machine) : Machine :=
  {| g_running := g_running m; loads := loads m; writes := writes m;
     gets := S (gets m); waits := waits m; trace := trace m |}.

Definition tick_wait (m : Machine) : Machine :=
  {| g_running := g_running m; loads := loads m; writes := writes m;
     gets := gets m; waits := S (waits m); trace := trace m |}.

Inductive Outcome :=
| Exit (code : Z)
| StillRunning.

(** ** A monad for [wmain]: state, and [return] out of the middle *)

Inductive Step (A : Type) :=
| Next (a : A)
| Return (code : Z).
Arguments Next {A} a.
Arguments Return {A} code.

Definition Proc (A : Type) : Type := Machine -> Machine * Step A.

Definition ret {A} (a : A) : Proc A := fun m => (m, Next a).

Definition exit {A} (code : Z) : Proc A := fun m => (m, Return code).

Definition bind {A B} (p : Proc A) (k : A -> Proc B) : Proc B :=
  fun m =>
    match p m with
    | (m1, Next a) => k a m1
    | (m1, Return c) => (m1, Return c)
    end.

Declare Scope proc_scope.
Delimit Scope proc_scope with proc.
Notation "x <- p ;; k" := (bind p (fun x => k))
  (at level 61, p at next level, right associativity) : proc_scope.
Notation "p ;; k" := (bind p (fun _ => k))
  (at level 61, right associativity) : proc_scope.
Open Scope proc_scope.

Definition call (e : Event) : Proc unit := fun m => (emit e m, Next tt).

Definition fprintf (d : Diag) : Proc unit := call (EvStderr d).

Inductive Phase :=
| Running      (* at line 407, about to test [g_running] *)
| Draining     (* at line 413, about to ask for the next packet *)
| Stopped.     (* past the loop, at line 451 *)

Definition sizeof_zeros : Z := 8192.

Definition zeros (n : Z) : list Z := repeat 0 (Z.to_nat n).

Definition buffer_bytes (data : nat -> Z) (n : Z) : list Z :=
  map data (seq 0 (Z.to_nat n)).

Section Program.

Variable w : World.

Definition argc : Z := Z.of_nat (List.length (argv w)).

(** [g_running] read: the handler of line 185 may have run since the
    last read, and it only ever stores [FALSE]. *)
Definition load_running : Proc bool := fun m =>
  let v := g_running m && negb (ctrl_c w (loads m)) in
  (emit (EvLoadRunning v) (tick_load (set_running v m)), Next v).

Definition store_running (v : bool) : Proc unit := fun m =>
  (emit (EvStoreRunning v) (set_running v m), Next tt).

(** [_write(1, buf, count)] *)
Definition _write (buf : list Z) : Proc Z := fun m =>
  let r := write_ret w (writes m) (Z.of_nat (List.length buf)) in
  (emit (EvWrite buf r) (tick_write m), Next r).

Definition WaitForSingleObject : Proc Z := fun m =>
  let r := wait_ret w (waits m) in
  (emit (EvWaitCapture r) (tick_wait m), Next r).

Definition GetBuffer : Proc Packet := fun m =>
  let p := packet w (gets m) in
  (emit (EvGetBuffer (pk_hr p) (pk_numFrames p) (pk_flags p)) (tick_get m),
   Next p).

Definition ReleaseBuffer (numFrames : Z) : Proc unit :=
  call (EvReleaseBuffer numFrames).

(** Lines 164-176: [CompletionHandler::Wait]. The result is the status
    and whether [*ppClient] was set. The wait on the activation event
    has no timeout; the model covers the runs in which the platform
    completes the activation. *)
Definition CompletionHandler_Wait : Proc (Z * bool) :=
  call EvHandlerWait ;;
  fprintf (DActivateResult (m_hrActivate w) (m_pActivated w)) ;;
  if FAILED (m_hrActivate w) || negb (m_pActivated w) then
    ret (if FAILED (m_hrActivate w) then m_hrActivate w else E_FAIL, false)
  else
    call (EvQueryInterface (hrQI w)) ;;
    fprintf (DQueryInterface (hrQI w) (qiClient w)) ;;
    ret (hrQI w, qiClient w).

(** Lines 429-435: the zero-fill loop, [zsize] being [sizeof(zeros)].
    Every round that writes takes at least one byte off [remaining],
    so [remaining + 1] rounds of fuel are never used up
    ([silence_loop_shape]). *)
Fixpoint silence_loop (zsize : Z) (fuel : nat) (remaining : Z) : Proc unit :=
  match fuel with
  | O => ret tt
  | S fuel' =>
      if remaining >? 0 then
        running <- load_running ;;
        if running then
          let chunk := if remaining >? zsize then zsize else remaining in
          w' <- _write (zeros chunk) ;;
          if w' <=? 0 then store_running false
          else silence_loop zsize fuel' (u32 (remaining - chunk))
        else ret tt
      else ret tt
  end.

Definition write_silence (zsize byteCount : Z) : Proc unit :=
  silence_loop zsize (S (Z.to_nat byteCount)) byteCount.

(** Lines 413-445: one round of the drain loop. The result tells
    whether the round ran to its end ([true]) or left the loop by
    [break] ([false]). *)
Definition drain_body (frameSize : Z) : Proc bool :=
  p <- GetBuffer ;;
  let hr := pk_hr p in
  let numFrames := pk_numFrames p in
  let flags := pk_flags p in
  if (hr =? AUDCLNT_S_BUFFER_EMPTY) || FAILED hr then ret false
  else if numFrames =? 0 then
    ReleaseBuffer numFrames ;;
    ret false
  else
    let byteCount := byteCount_of numFrames frameSize in
    (if negb (Z.land flags AUDCLNT_BUFFERFLAGS_SILENT =? 0) then
       write_silence sizeof_zeros byteCount
     else
       w' <- _write (buffer_bytes (pk_data p) byteCount) ;;
       if w' <=? 0 then store_running false else ret tt) ;;
    ReleaseBuffer numFrames ;;
    ret true.

(** Lines 407-449 as a machine over the two loop heads. *)
Definition loop_step (frameSize : Z) (ph : Phase) : Proc Phase :=
  match ph with
  | Running =>
      running <- load_running ;;
      if running then
        waitResult <- WaitForSingleObject ;;
        if waitResult =? WAIT_OBJECT_0 then ret Draining else ret Running
      else ret Stopped
  | Draining =>
      again <- drain_body frameSize ;;
      if again then ret Draining else ret Running
  | Stopped => ret Stopped
  end.

(** [fuel] bounds the number of loop-head visits. *)
Fixpoint capture_loop (fuel : nat) (frameSize : Z) (ph : Phase) : Proc Phase :=
  match fuel with
  | O => ret ph
  | S fuel' =>
      match ph with
      | Stopped => ret Stopped
      | _ =>
          ph' <- loop_step frameSize ph ;;
          capture_loop fuel' frameSize ph'
      end
  end.

(** The two loops once more, nested as the source nests them. The
    result tells whether the loop was left ([true]) or the fuel was
    used up inside it ([false]). [capture_machine] shows that every
    such run is a run of the machine above, with the same trace. *)
Fixpoint drain (fuel : nat) (frameSize : Z) : Proc bool :=
  match fuel with
  | O => ret false
  | S fuel' =>
      again <- drain_body frameSize ;;
      if again then drain fuel' frameSize else ret true
  end.

Fixpoint capture (fuel : nat) (frameSize : Z) : Proc bool :=
  match fuel with
  | O => ret false
  | S fuel' =>
      running <- load_running ;;
      if running then
        waitResult <- WaitForSingleObject ;;
        drained <- (if waitResult =? WAIT_OBJECT_0
                    then drain fuel' frameSize else ret true) ;;
        if drained then capture fuel' frameSize else ret false
      else ret true
  end.

(** Lines 452-459. *)
Definition cleanup : Proc unit :=
  fprintf DStopping ;;
  call EvStop ;;
  call EvCaptureClientRelease ;;
  call EvAudioClientRelease ;;
  call EvCloseHandle ;;
  call EvCoUninitialize ;;
  exit 0.

(** Lines 275-308: the format handed to [Initialize], and whether it
    is the fallback. *)
Definition negotiate : Proc (WAVEFORMATEXTENSIBLE * bool) :=
  let hr := hrGetMixFormat w in
  call (EvGetMixFormat hr) ;;
  if FAILED hr then
    fprintf (DMixFormatFallback hr) ;;
    ret (fallbackFmt, true)
  else ret (mixFormat w, false).

(** Lines 208-402: everything before the capture loop. The value
    handed on is [frameSize], the only local the loop reads. *)
Definition wmain_setup : Proc Z :=
  if argc <? 2 then
    fprintf DUsage ;;
    exit 1
  else
  let excludePid := u32 (Crt.wtoi (List.nth 1%nat (argv w) EmptyString)) in
  fprintf (DExcluding excludePid) ;;
  call EvSetMode ;;
  call EvSetConsoleCtrlHandler ;;
  call (EvCoInitializeEx (hrCoInitializeEx w)) ;;
  if FAILED (hrCoInitializeEx w) then
    fprintf (DCoInitializeExFailed (hrCoInitializeEx w)) ;;
    exit 1
  else
  call EvNewHandler ;;
  call (EvActivateAsync AC_ACTIVATION_TYPE_PROCESS_LOOPBACK excludePid
          PL_MODE_EXCLUDE_TARGET_PROCESS_TREE (hrActivateAsync w)) ;;
  if FAILED (hrActivateAsync w) then
    fprintf (DActivateFailed (hrActivateAsync w)) ;;
    call EvHandlerRelease ;;
    call EvCoUninitialize ;;
    exit 1
  else
  r <- CompletionHandler_Wait ;;
  let hr := fst r in
  let audioClient := snd r in
  call EvHandlerRelease ;;
  (if asyncOp w then call EvAsyncOpRelease else ret tt) ;;
  if FAILED hr || negb audioClient then
    fprintf (DNoAudioClient hr) ;;
    call EvCoUninitialize ;;
    exit 1
  else
  f <- negotiate ;;
  let waveFormat := fst f in
  let usingFallback := snd f in
  let h := describe waveFormat in
  let frameSize := frameSize_of h in
  fprintf (DFormat h usingFallback) ;;
  call (EvInitialize waveFormat (hrInitialize w)) ;;
  (if negb usingFallback then call EvCoTaskMemFree else ret tt) ;;
  if FAILED (hrInitialize w) then
    fprintf (DInitializeFailed (hrInitialize w)) ;;
    call EvAudioClientRelease ;;
    call EvCoUninitialize ;;
    exit 1
  else
  call EvCreateEvent ;;
  call (EvSetEventHandle (hrSetEventHandle w)) ;;
  if FAILED (hrSetEventHandle w) then
    fprintf (DSetEventHandleFailed (hrSetEventHandle w)) ;;
    call EvAudioClientRelease ;;
    call EvCloseHandle ;;
    call EvCoUninitialize ;;
    exit 1
  else
  call (EvGetService (hrGetService w)) ;;
  if FAILED (hrGetService w) then
    fprintf (DGetServiceFailed (hrGetService w)) ;;
    call EvAudioClientRelease ;;
    call EvCloseHandle ;;
    call EvCoUninitialize ;;
    exit 1
  else
  written <- _write (header_bytes h) ;;
  if negb (written =? sizeof_AudioHeader) then
    fprintf DHeaderFailed ;;
    call EvCaptureClientRelease ;;
    call EvAudioClientRelease ;;
    call EvCloseHandle ;;
    call EvCoUninitialize ;;
    exit 1
  else
  call (EvStart (hrStart w)) ;;
  if FAILED (hrStart w) then
    fprintf (DStartFailed (hrStart w)) ;;
    call EvCaptureClientRelease ;;
    call EvAudioClientRelease ;;
    call EvCloseHandle ;;
    call EvCoUninitialize ;;
    exit 1
  else
  fprintf (DStarted excludePid) ;;
  ret frameSize.

(** Lines 208-460, the capture loop run as the machine [capture_loop].
    A run that the fuel cuts short ends in [Next tt], one that reaches
    a [return] in [Return code]. *)
Definition wmain_proc (fuel : nat) : Proc unit :=
  frameSize <- wmain_setup ;;
  ph <- capture_loop fuel frameSize Running ;;
  match ph with
  | Stopped => cleanup
  | _ => ret tt
  end.

Definition wmain (fuel : nat) : list Event * Outcome :=
  match wmain_proc fuel boot with
  | (m, Return code) => (trace m, Exit code)
  | (m, Next _) => (trace m, StillRunning)
  end.

(** [wmain] with the loops nested as in the source; by
    [wmain_nested_machine] each of its runs is a run of [wmain]. *)
Definition wmain_nested_proc (fuel : nat) : Proc unit :=
  frameSize <- wmain_setup ;;
  left <- capture fuel frameSize ;;
  if left then cleanup else ret tt.

Definition wmain_nested (fuel : nat) : list Event * Outcome :=
  match wmain_nested_proc fuel boot with
  | (m, Return code) => (trace m, Exit code)
  | (m, Next _) => (trace m, StillRunning)
  end.

End Program.

(** * The completion handler (lines 94-177)

    The object on its own: its five fields and its methods, one
    definition per method. A pointer field is [true] when it is not
    null. The platform's answers are arguments of the method that asks
    for them. *)

Module CompletionHandler.

(** [LONG]: the interlocked operations wrap in 32 bits. *)
Definition s32 (x : Z) : Z := (x + 2 ^ 31) mod 2 ^ 32 - 2 ^ 31.

Definition E_NOINTERFACE : Z := 0x80004002 - 2 ^ 32.
Definition WAIT_FAILED : Z := 0xFFFFFFFF.

Inductive IID :=
| IID_IUnknown
| IID_IActivateAudioInterfaceCompletionHandler
| IID_IMarshal
| IID_IAgileObject
| IID_other (n : nat).

(** What [*ppv] holds after [QueryInterface]: null, the object itself,
    or an interface of the marshaler. *)
Inductive Pointer := Null | This | Marshaler.

Record State := {
  m_ref : Z;               (* LONG *)
  m_event : option bool;   (* HANDLE: [None] is NULL, [Some s] an
                              auto-reset event, signalled or not *)
  m_hrActivate : Z;        (* HRESULT *)
  m_pActivated : bool;     (* IUnknown* *)
  m_ftm : bool             (* IUnknown* *)
}.

(** The calls the object makes, in order. *)
Inductive Call :=
| DoCreateEventW (ok : bool)
| DoCoCreateFreeThreadedMarshaler (ok : bool)
| DoFtmRelease
| DoActivatedRelease
| DoCloseHandle
| DoFtmQueryInterface (riid : IID)
| DoGetActivateResult
| DoSetEvent
| DoWaitForSingleObject (res : Z)
| DoStderrActivateResult (hr : Z) (pUnk : bool)
| DoActivatedQueryInterface
| DoStderrQI (hr : Z) (ptr : bool).

(** The object after a call. *)
Inductive Life :=
| Alive (s : State)
| Destroyed.

Definition with_ref (r : Z) (s : State) : State :=
  {| m_ref := r; m_event := m_event s; m_hrActivate := m_hrActivate s;
     m_pActivated := m_pActivated s; m_ftm := m_ftm s |}.

Definition with_event (e : option bool) (s : State) : State :=
  {| m_ref := m_ref s; m_event := e; m_hrActivate := m_hrActivate s;
     m_pActivated := m_pActivated s; m_ftm := m_ftm s |}.

Definition InterlockedIncrement (x : Z) : Z := s32 (x + 1).
Definition InterlockedDecrement (x : Z) : Z := s32 (x - 1).

(** Lines 102-118. [event] and [ftm] tell whether [CreateEventW] and
    [CoCreateFreeThreadedMarshaler] hand over something. *)
Definition ctor (event ftm : bool) : State * list Call :=
  ({| m_ref := 1;
      m_event := if event then Some false else None;
      m_hrActivate := E_FAIL;
      m_pActivated := false;
      m_ftm := ftm |},
   [DoCreateEventW event; DoCoCreateFreeThreadedMarshaler ftm]).

(** Lines 120-124. *)
Definition dtor (s : State) : list Call :=
  (if m_ftm s then [DoFtmRelease] else [])
  ++ (if m_pActivated s then [DoActivatedRelease] else [])
  ++ (match m_event s with Some _ => [DoCloseHandle] | None => [] end).

(** Lines 127-129. The result is the new count as [ULONG]. *)
Definition AddRef (s : State) : State * Z :=
  let r := InterlockedIncrement (m_ref s) in
  (with_ref r s, u32 r).

(** Lines 131-135. *)
Definition Release (s : State) : Life * Z * list Call :=
  let r := InterlockedDecrement (m_ref s) in
  if r =? 0 then (Destroyed, u32 r, dtor (with_ref r s))
  else (Alive (with_ref r s), u32 r, []).

Definition own (riid : IID) : bool :=
  match riid with
  | IID_IUnknown | IID_IActivateAudioInterfaceCompletionHandler => true
  | _ => false
  end.

(** Lines 137-151. [ftmHr] and [ftmPtr] are the answer of the
    marshaler's [QueryInterface]. *)
Definition QueryInterface (ftmHr : Z) (ftmPtr : bool) (riid : IID) (s : State)
    : State * (Z * Pointer) * list Call :=
  if own riid then (fst (AddRef s), (S_OK, This), [])
  else if m_ftm s then
    (s, (ftmHr, if ftmPtr then Marshaler else Null), [DoFtmQueryInterface riid])
  else (s, (E_NOINTERFACE, Null), []).

(** Lines 155-161. [hr] and [pUnk] are what [GetActivateResult] writes.
    [SetEvent] signals the event when there is one. *)
Definition ActivateCompleted (hr : Z) (pUnk : bool) (s : State)
    : State * Z * list Call :=
  ({| m_ref := m_ref s;
      m_event := match m_event s with Some _ => Some true | None => None end;
      m_hrActivate := hr;
      m_pActivated := pUnk;
      m_ftm := m_ftm s |},
   S_OK, [DoGetActivateResult; DoSetEvent]).

(** Lines 164-176. [hrQI] and [client] are the answer of the activated
    object's [QueryInterface]; [ppClient] is what [*ppClient] holds at
    the call. The wait has no timeout: on an event that is not
    signalled the method does not return ([None]); a signalled
    auto-reset event is reset by the wait; on a null handle the wait
    fails at once. *)
Definition Wait (hrQI : Z) (client : bool) (ppClient : bool) (s : State)
    : option (State * (Z * bool) * list Call) :=
  match m_event s with
  | Some false => None
  | ev =>
      let s' := with_event (match ev with Some _ => Some false | None => None end) s in
      let res := match ev with Some _ => WAIT_OBJECT_0 | None => WAIT_FAILED end in
      let pre := [DoWaitForSingleObject res;
                  DoStderrActivateResult (m_hrActivate s) (m_pActivated s)] in
      if FAILED (m_hrActivate s) || negb (m_pActivated s) then
        Some (s',
              (if FAILED (m_hrActivate s) then m_hrActivate s else E_FAIL,
               ppClient),
              pre)
      else
        Some (s', (hrQI, client),
              pre ++ [DoActivatedQueryInterface; DoStderrQI hrQI client])
  end.

(** Calls on the object from outside, with the platform's answers. *)
Inductive Op :=
| OpAddRef
| OpRelease
| OpQueryInterface (riid : IID) (ftmHr : Z) (ftmPtr : bool)
| OpActivateCompleted (hr : Z) (pUnk : bool)
| OpWait (hrQI : Z) (client : bool).

Definition step (op : Op) (s : State) : option (Life * list Call) :=
  match op with
  | OpAddRef => Some (Alive (fst (AddRef s)), [])
  | OpRelease => let r := Release s in Some (fst (fst r), snd r)
  | OpQueryInterface riid ftmHr ftmPtr =>
      let r := QueryInterface ftmHr ftmPtr riid s in
      Some (Alive (fst (fst r)), snd r)
  | OpActivateCompleted hr pUnk =>
      let r := ActivateCompleted hr pUnk s in
      Some (Alive (fst (fst r)), snd r)
  | OpWait hrQI client =>
      match Wait hrQI client false s with
      | Some r => Some (Alive (fst (fst r)), snd r)
      | None => None
      end
  end.

(** A sequence of calls. There is no outcome when a call is made on
    the destroyed object or a [Wait] does not return. *)
Fixpoint run (ops : list Op) (l : Life) : option (Life * list Call) :=
  match ops with
  | [] => Some (l, [])
  | op :: q =>
      match l with
      | Destroyed => None
      | Alive s =>
          match step op s with
          | None => None
          | Some (l', c) =>
              match run q l' with
              | Some (l'', c') => Some (l'', c ++ c')
              | None => None
              end
          end
      end
  end.

(** What a call adds to the reference count. *)
Definition delta (op : Op) : Z :=
  match op with
  | OpAddRef => 1
  | OpRelease => -1
  | OpQueryInterface riid _ _ => if own riid then 1 else 0
  | _ => 0
  end.

Definition total (ops : list Op) : Z :=
  fold_right (fun op acc => delta op + acc) 0 ops.

End CompletionHandler.

(** * Vocabulary of the properties *)

(** The format the run settles on, its header, and the frame size. *)
Definition negotiated (w : World) : WAVEFORMATEXTENSIBLE :=
  if FAILED (hrGetMixFormat w) then fallbackFmt else mixFormat w.

Definition stream_header (w : World) : AudioHeader := describe (negotiated w).

Definition frameSize (w : World) : Z := frameSize_of (stream_header w).

(** The activation handshake hands over an audio client. *)
Definition activation_ok (w : World) : bool :=
  negb (FAILED (m_hrActivate w)) && m_pActivated w
  && negb (FAILED (hrQI w)) && qiClient w.

(** No step before the capture loop fails. *)
Definition setup_ok (w : World) : bool :=
  negb (argc w <? 2)
  && negb (FAILED (hrCoInitializeEx w))
  && negb (FAILED (hrActivateAsync w))
  && activation_ok w
  && negb (FAILED (hrInitialize w))
  && negb (FAILED (hrSetEventHandle w))
  && negb (FAILED (hrGetService w))
  && (write_ret w 0 12 =? sizeof_AudioHeader)
  && negb (FAILED (hrStart w)).

(** The machine at the first visit of line 407. *)
Definition started (w : World) : Machine := fst (wmain_setup w boot).

Definition cleanup_events : list Event :=
  [EvStderr DStopping; EvStop; EvCaptureClientRelease; EvAudioClientRelease;
   EvCloseHandle; EvCoUninitialize].

(** The [_write] calls of a trace, in order: buffer and return value. *)
Definition writes_of (t : list Event) : list (list Z * Z) :=
  flat_map (fun e => match e with EvWrite b r => [(b, r)] | _ => [] end) t.

(** A procedure that runs to its end from [m], and what holds there. *)
Definition wp {A} (p : Proc A) (R : A -> Machine -> Prop) (m : Machine) : Prop :=
  match p m with
  | (m', Next a) => R a m'
  | (_, Return _) => False
  end.

(** Where the capture loop stands when the fuel is spent. *)
Definition loop_end (w : World) (fuel : nat) : Machine * Phase :=
  match capture_loop w fuel (frameSize w) Running (started w) with
  | (m, Next ph) => (m, ph)
  | (m, Return _) => (m, Stopped)
  end.

(** The calls made from inside the capture loop. *)
Definition loop_event (e : Event) : bool :=
  match e with
  | EvLoadRunning _ | EvStoreRunning _ | EvWaitCapture _
  | EvGetBuffer _ _ _ | EvReleaseBuffer _ | EvWrite _ _ => true
  | _ => false
  end.

(** [m'] is [m] some events later, all of them of kind [P]. *)
Definition extends (P : Event -> bool) (m m' : Machine) : Prop :=
  exists evs, trace m' = trace m ++ evs /\ forallb P evs = true.

(** The calls of lines 452-457. *)
Definition cleanup_event (e : Event) : bool :=
  match e with
  | EvStderr DStopping | EvStop | EvCaptureClientRelease
  | EvAudioClientRelease | EvCloseHandle | EvCoUninitialize => true
  | _ => false
  end.

Definition late_event (e : Event) : bool := loop_event e || cleanup_event e.

(** The statuses of the [Start] calls of a trace. *)
Definition starts_of (t : list Event) : list Z :=
  flat_map (fun e => match e with EvStart hr => [hr] | _ => [] end) t.

(** ** Worlds to run the program in *)

Definition no_packet : Packet :=
  {| pk_hr := AUDCLNT_S_BUFFER_EMPTY; pk_data := fun _ => 0;
     pk_numFrames := 0; pk_flags := 0 |}.

(** A 10 ms packet has 480 frames at 48 kHz; the examples use short ones. *)
Definition data_packet (numFrames : Z) : Packet :=
  {| pk_hr := S_OK; pk_data := fun i => Z.of_nat i mod 256;
     pk_numFrames := numFrames; pk_flags := 0 |}.

Definition silent_packet (numFrames : Z) : Packet :=
  {| pk_hr := S_OK; pk_data := fun _ => 0xCD;
     pk_numFrames := numFrames; pk_flags := AUDCLNT_BUFFERFLAGS_SILENT |}.

(** Every platform call succeeds; the remaining answers are arguments. *)
Definition world (args : list string) (hrMix : Z) (fmt : WAVEFORMATEXTENSIBLE)
    (wr : nat -> Z -> Z) (cc : nat -> bool) (wt : nat -> Z)
    (pk : nat -> Packet) : World :=
  {| argv := args;
     hrCoInitializeEx := S_OK; hrActivateAsync := S_OK; asyncOp := true;
     m_hrActivate := S_OK; m_pActivated := true; hrQI := S_OK;
     qiClient := true;
     hrGetMixFormat := hrMix; mixFormat := fmt;
     hrInitialize := S_OK; hrSetEventHandle := S_OK; hrGetService := S_OK;
     hrStart := S_OK;
     write_ret := wr; ctrl_c := cc; wait_ret := wt; packet := pk |}.

Definition cmdline (pid : string) : list string :=
  ["audio-capture.exe"%string; pid].

(** 16-bit stereo PCM at 44.1 kHz, not extensible. *)
Definition pcm16 : WAVEFORMATEXTENSIBLE :=
  {| Format :=
       {| wFormatTag := 1; nChannels := 2; nSamplesPerSec := 44100;
          nAvgBytesPerSec := 176400; nBlockAlign := 4; wBitsPerSample := 16;
          cbSize := 0 |};
     wValidBitsPerSample := 0; dwChannelMask := 0;
     SubFormat := {| Data1 := 0; Data2 := 0; Data3 := 0; Data4 := [] |} |}.

(** 5.1 float at 48 kHz: six channels of four bytes, 24 bytes a frame. *)
Definition float51 : WAVEFORMATEXTENSIBLE :=
  {| Format :=
       {| wFormatTag := WAVE_FORMAT_EXTENSIBLE; nChannels := 6;
          nSamplesPerSec := 48000; nAvgBytesPerSec := 1152000;
          nBlockAlign := 24; wBitsPerSample := 32; cbSize := 22 |};
     wValidBitsPerSample := 32; dwChannelMask := 0x3F;
     SubFormat := KSDATAFORMAT_SUBTYPE_IEEE_FLOAT_LOCAL |}.

(** The consumer stays connected and nothing is ever queued; Ctrl+C
    arrives before the third look at [g_running]. *)
Definition idle_world (hrMix : Z) (fmt : WAVEFORMATEXTENSIBLE) : World :=
  world (cmdline "1234") hrMix fmt (fun _ n => n) (fun k => (k =? 2)%nat)
    (fun _ => WAIT_TIMEOUT) (fun _ => no_packet).

(** The mix-format query fails with [E_FAIL], which is not [E_NOTIMPL]. *)
Definition world_mix_efail : World := idle_world E_FAIL pcm16.

Definition world_mix_notimpl : World := idle_world E_NOTIMPL pcm16.

Definition world_mix_pcm16 : World := idle_world S_OK pcm16.

(** ** Format negotiation as the specification words it *)

Definition initialize_called (t : list Event) : Prop :=
  exists fmt hr, In (EvInitialize fmt hr) t.

(** "A failure other than not-implemented aborts the session and
    Initialize is never called." *)
Definition aborts_on_other_failure (w : World) : Prop :=
  forall fuel hr,
    In (EvGetMixFormat hr) (fst (wmain w fuel)) ->
    FAILED hr = true -> hr <> E_NOTIMPL ->
    ~ initialize_called (fst (wmain w fuel)).

(** ** The first write of a trace *)

(** Splits a trace at its first [_write]: the events before it, the
    buffer, the return value, the events after it. *)
Fixpoint split_write (t : list Event)
  : option (list Event * list Z * Z * list Event) :=
  match t with
  | [] => None
  | EvWrite b r :: q => Some ([], b, r, q)
  | e :: q =>
      match split_write q with
      | Some (p, b, r, q') => Some (e :: p, b, r, q')
      | None => None
      end
  end.

Definition header_failed_events : list Event :=
  [EvStderr DHeaderFailed; EvCaptureClientRelease; EvAudioClientRelease;
   EvCloseHandle; EvCoUninitialize].

Definition excludePid (w : World) : Z :=
  u32 (Crt.wtoi (List.nth 1%nat (argv w) EmptyString)).

(** What follows the header write in the setup (lines 382-402). *)
Definition after_header (w : World) (written : Z) : list Event :=
  if written =? sizeof_AudioHeader then
    EvStart (hrStart w)
    :: (if FAILED (hrStart w) then
          [EvStderr (DStartFailed (hrStart w)); EvCaptureClientRelease;
           EvAudioClientRelease; EvCloseHandle; EvCoUninitialize]
        else [EvStderr (DStarted (excludePid w))])
  else header_failed_events.

(** The header bytes of the end-to-end scenarios of the specification. *)
Definition float48k_header_bytes : list Z :=
  [0x80; 0xBB; 0x00; 0x00; 0x02; 0x00; 0x20; 0x00; 0x03; 0x00; 0x00; 0x00].

(** ** The command line as the specification words it *)

(** "An argument that does not start with digits makes the excluded
    process id 0, and activation goes ahead with it." *)
Definition non_digit_start_excludes_zero (w : World) : Prop :=
  forall arg fuel,
    nth_error (argv w) 1 = Some arg ->
    Crt.starts_with_digit arg = false ->
    exists hr,
      In (EvActivateAsync AC_ACTIVATION_TYPE_PROCESS_LOOPBACK 0
            PL_MODE_EXCLUDE_TARGET_PROCESS_TREE hr) (fst (wmain w fuel)).

Definition world_minus_one : World :=
  world (cmdline "-1") S_OK pcm16 (fun _ n => n) (fun k => (k =? 2)%nat)
    (fun _ => WAIT_TIMEOUT) (fun _ => no_packet).

Definition world_not_a_number : World :=
  world (cmdline "abc12") S_OK pcm16 (fun _ n => n) (fun k => (k =? 2)%nat)
    (fun _ => WAIT_TIMEOUT) (fun _ => no_packet).

(** ** The zero-fill loop *)

(** The rounds of the zero-fill loop that reach the write: chunk length
    and return value. Each is a read of [g_running] as set, then the
    write of that many zero bytes. *)
Definition chunk_events (chunks : list (Z * Z)) : list Event :=
  flat_map (fun cr => [EvLoadRunning true; EvWrite (zeros (fst cr)) (snd cr)])
    chunks.

Definition chunk_total (chunks : list (Z * Z)) : Z :=
  fold_right (fun cr acc => fst cr + acc) 0 chunks.

(** The three ways the zero-fill loop of a buffer of [rem] bytes ends,
    entered with [g_running] at [running0]: with which events after the
    chunks, and with which [g_running]. *)
Inductive SilenceEnd (w : World) (rem : Z) (running0 : bool)
    (chunks : list (Z * Z)) (tail : list Event) (running : bool) : Prop :=
| Filled :
    (* every chunk written: line 430 finds [remaining] at 0 *)
    tail = [] ->
    Forall (fun cr => 0 < snd cr) chunks ->
    chunk_total chunks = rem ->
    running = (if rem =? 0 then running0 else true) ->
    SilenceEnd w rem running0 chunks tail running
| Interrupted :
    (* line 430 reads [g_running] as cleared *)
    tail = [EvLoadRunning false] ->
    Forall (fun cr => 0 < snd cr) chunks ->
    chunk_total chunks < rem ->
    (running0 = false \/ exists k, ctrl_c w k = true) ->
    running = false ->
    SilenceEnd w rem running0 chunks tail running
| Broken init c r :
    (* line 433: the write fails *)
    tail = [EvStoreRunning false] ->
    chunks = init ++ [(c, r)] ->
    Forall (fun cr => 0 < snd cr) init ->
    r <= 0 ->
    chunk_total chunks <= rem ->
    running = false ->
    SilenceEnd w rem running0 chunks tail running.

(** What reaches the data channel: of each buffer, as many bytes as the
    write returned. *)
Definition bytes_written (t : list Event) : list Z :=
  flat_map (fun e => match e with
                     | EvWrite b r => firstn (Z.to_nat r) b
                     | _ => []
                     end) t.

(** The bytes the writes of a trace ask for. *)
Definition bytes_requested (t : list Event) : Z :=
  fold_right (fun e acc => match e with
                           | EvWrite b _ => Z.of_nat (List.length b) + acc
                           | _ => acc
                           end) 0 t.

(** ** One round of the drain loop *)

(** [GetBuffer] handed over a buffer: neither "empty" nor a failure. *)
Definition acquired (hr : Z) : bool :=
  negb ((hr =? AUDCLNT_S_BUFFER_EMPTY) || FAILED hr).

Definition silent (flags : Z) : bool :=
  negb (Z.land flags AUDCLNT_BUFFERFLAGS_SILENT =? 0).

(** The paths through lines 417-445 for the packet [p], entered with
    [g_running] at [running0] and the write counter at [k]: the events
    after [GetBuffer], whether the round ends at line 446 ([again]) or
    in a [break], and [g_running] afterwards. *)
Inductive DrainRound (w : World) (fs : Z) (running0 : bool) (k : nat)
    (p : Packet) (body : list Event) (again : bool) (running : bool) : Prop :=
| NoBuffer :
    acquired (pk_hr p) = false ->
    body = [] -> again = false -> running = running0 ->
    DrainRound w fs running0 k p body again running
| ZeroFrames :
    acquired (pk_hr p) = true -> pk_numFrames p = 0 ->
    body = [EvReleaseBuffer (pk_numFrames p)] ->
    again = false -> running = running0 ->
    DrainRound w fs running0 k p body again running
| SilentRound chunks tail :
    acquired (pk_hr p) = true -> pk_numFrames p <> 0 ->
    silent (pk_flags p) = true ->
    body = chunk_events chunks ++ tail ++ [EvReleaseBuffer (pk_numFrames p)] ->
    Forall (fun cr => 0 < fst cr <= sizeof_zeros
                      /\ exists k', snd cr = write_ret w k' (fst cr)) chunks ->
    (running0 = false -> chunks = []) ->
    SilenceEnd w (byteCount_of (pk_numFrames p) fs) running0 chunks tail running ->
    again = true ->
    DrainRound w fs running0 k p body again running
| DataRound r :
    acquired (pk_hr p) = true -> pk_numFrames p <> 0 ->
    silent (pk_flags p) = false ->
    r = write_ret w k (byteCount_of (pk_numFrames p) fs) ->
    body = EvWrite (buffer_bytes (pk_data p) (byteCount_of (pk_numFrames p) fs)) r
           :: (if r <=? 0 then [EvStoreRunning false] else [])
           ++ [EvReleaseBuffer (pk_numFrames p)] ->
    again = true ->
    running = (if r <=? 0 then false else running0) ->
    DrainRound w fs running0 k p body again running.

(** ** Acquired and released buffers *)

(** Reads and writes of [g_running], and writes to the data channel. *)
Definition io_event (e : Event) : bool :=
  match e with
  | EvLoadRunning _ | EvStoreRunning _ | EvWrite _ _ => true
  | _ => false
  end.

(** The buffer the process holds: [Some n] from a [GetBuffer] that
    hands over [n] frames to the [ReleaseBuffer] that gives them back.
    The step is refused when a buffer is asked for, or the drain or the
    loop is left, with one still held; when one is released that is not
    held; when the frame count released is not the one acquired. *)
Definition hold_step (held : option Z) (e : Event) : option (option Z) :=
  match e, held with
  | EvGetBuffer hr n _, None => Some (if acquired hr then Some n else None)
  | EvGetBuffer _ _ _, Some _ => None
  | EvReleaseBuffer n, Some k => if n =? k then Some None else None
  | EvReleaseBuffer _, None => None
  | EvWaitCapture _, Some _ => None
  | EvStop, Some _ => None
  | _, _ => Some held
  end.

Fixpoint hold_run (held : option Z) (t : list Event) : option (option Z) :=
  match t with
  | [] => Some held
  | e :: t' =>
      match hold_step held e with
      | Some held' => hold_run held' t'
      | None => None
      end
  end.

Definition outstanding (held : option Z) : nat :=
  match held with
  | Some _ => 1
  | None => 0
  end.

Definition acquisitions (t : list Event) : nat :=
  List.length (filter (fun e => match e with
                                | EvGetBuffer hr _ _ => acquired hr
                                | _ => false
                                end) t).

Definition releases (t : list Event) : nat :=
  List.length (filter (fun e => match e with
                                | EvReleaseBuffer _ => true
                                | _ => false
                                end) t).

(** The consumer reads everything and nobody presses Ctrl+C; two silent
    packets of 1500 frames are queued, then nothing. *)
Definition world_silence : World :=
  world (cmdline "1234") E_NOTIMPL pcm16 (fun _ n => n)
    (fun _ => false) (fun k => if (k =? 0)%nat then WAIT_OBJECT_0 else WAIT_TIMEOUT)
    (fun k => if (k <? 2)%nat then silent_packet 1500 else no_packet).

(** ** After a failed write *)




Definition is_getbuffer (e : Event) : bool :=
  match e with
  | EvGetBuffer _ _ _ => true
  | _ => false
  end.

Definition is_write (e : Event) : bool :=
  match e with
  | EvWrite _ _ => true
  | _ => false
  end.


(** Neither a read of [g_running] as set nor a wait on the capture
    event. *)
Definition calm (e : Event) : bool :=
  match e with
  | EvLoadRunning true | EvWaitCapture _ => false
  | _ => true
  end.

(** [GetBuffer] answers with something that ends the drain loop. *)
Definition drain_ends (p : Packet) : bool :=
  negb (acquired (pk_hr p)) || (pk_numFrames p =? 0).




(** ** Lengths of the writes *)

(** What the writes of one visit of a loop head ask for. A visit either
    writes nothing, or it is a round for a buffer of [n] frames: one
    write of [byteCount] bytes when the buffer is not silent; zero
    chunks of at most 8192 bytes when it is, never more than
    [byteCount] in all. The zero-fill loop ends in one of three ways.
    It runs to its end: every chunk write succeeded and the chunks add
    up to [byteCount]. The flag is read as cleared: every chunk write
    succeeded and the chunks add up to less than [byteCount]. A chunk
    write fails: it is the last chunk, the writes before it succeeded
    and their chunks add up to less than [byteCount]; with the failed
    chunk the sum may reach [byteCount]. *)
Definition round_writes (fs : Z) (r : list Event) : Prop :=
  forallb (fun e => negb (is_write e)) r = true
  \/ exists hr n fl body,
       r = EvGetBuffer hr n fl :: body /\ acquired hr = true /\ n <> 0
       /\ if silent fl then
            exists chunks,
              writes_of body = map (fun cr => (zeros (fst cr), snd cr)) chunks
              /\ Forall (fun cr => 0 < fst cr <= sizeof_zeros) chunks
              /\ bytes_requested body = chunk_total chunks
              /\ chunk_total chunks <= byteCount_of n fs
              /\ ((Forall (fun cr => 0 < snd cr) chunks
                   /\ chunk_total chunks = byteCount_of n fs)
                  \/ (Forall (fun cr => 0 < snd cr) chunks
                      /\ chunk_total chunks < byteCount_of n fs
                      /\ In (EvLoadRunning false) body)
                  \/ (exists init c res,
                        chunks = init ++ [(c, res)]
                        /\ Forall (fun cr => 0 < snd cr) init
                        /\ res <= 0
                        /\ chunk_total init < byteCount_of n fs
                        /\ In (EvStoreRunning false) body))
          else
            exists data ret,
              writes_of body = [(buffer_bytes data (byteCount_of n fs), ret)]
              /\ bytes_requested body = byteCount_of n fs.



(** The loop-head invariant for the lengths: the events since [m0] are
    visits that write as [round_writes] says. *)
Definition in_rounds (fs : Z) (m0 : Machine) (m : Machine) : Prop :=
  exists rounds, trace m = trace m0 ++ List.concat rounds
                 /\ Forall (round_writes fs) rounds.

(** * More of the program: vocabulary *)

(** ** The stream on the data channel *)

Definition getbuffers (t : list Event) : nat :=
  List.length (filter is_getbuffer t).

(** What the round of a packet puts on the data channel when nothing
    disturbs it: nothing for an answer that ends the drain; otherwise
    [byteCount] bytes, the 32-bit product of [numFrames] and the frame
    size: zeros for a silent buffer, else the first [byteCount] bytes
    at the address of the buffer. *)
Definition payload (fs : Z) (p : Packet) : list Z :=
  if drain_ends p then []
  else if silent (pk_flags p) then zeros (byteCount_of (pk_numFrames p) fs)
  else buffer_bytes (pk_data p) (byteCount_of (pk_numFrames p) fs).

(** The payloads of the first [n] answers of [GetBuffer], in order. *)
Definition stream_of (w : World) (n : nat) : list Z :=
  flat_map (fun i => payload (frameSize w) (packet w i)) (seq 0 n).

(** The bytes a buffer holds: [numFrames] frames, each of the block
    alignment of the format the stream was initialised with. *)
Definition held_bytes (w : World) (p : Packet) : Z :=
  pk_numFrames p * nBlockAlign (Format (negotiated w)).

(** All of a buffer: every byte it holds, or as many zeros when it is
    flagged silent; nothing for an answer that ends the drain. *)
Definition whole_buffer (w : World) (p : Packet) : list Z :=
  if drain_ends p then []
  else if silent (pk_flags p) then zeros (held_bytes w p)
  else buffer_bytes (pk_data p) (held_bytes w p).

(** The first [n] buffers in full, in order. *)
Definition buffers_of (w : World) (n : nat) : list Z :=
  flat_map (fun i => whole_buffer w (packet w i)) (seq 0 n).

(** The loop-head invariant of an undisturbed run. *)
Definition steady (w : World) (m : Machine) : Prop :=
  g_running m = true
  /\ gets m = getbuffers (trace m)
  /\ bytes_written (trace m)
     = header_bytes (stream_header w) ++ stream_of w (gets m).

(** Three frames of samples, then two silent frames, then nothing; the
    consumer reads everything and nobody presses Ctrl+C. *)
Definition world_stream : World :=
  world (cmdline "1234") E_NOTIMPL pcm16 (fun _ n => n) (fun _ => false)
    (fun _ => WAIT_OBJECT_0)
    (fun k => if (k =? 0)%nat then data_packet 3
              else if (k =? 1)%nat then silent_packet 2 else no_packet).

(** ** Why the capture loop ends *)

Definition is_load (e : Event) : bool :=
  match e with EvLoadRunning _ => true | _ => false end.

(** The reads of [g_running] made so far. *)
Definition loads_of (t : list Event) : nat := List.length (filter is_load t).

(** Ctrl+C reached [CtrlHandler] before one of the reads of [g_running]
    that the trace records. *)
Definition pressed (w : World) (t : list Event) : Prop :=
  exists k, (k < loads_of t)%nat /\ ctrl_c w k = true.

(** One of the writes of the trace did not succeed. *)
Definition write_failed (t : list Event) : Prop :=
  exists b r, In (EvWrite b r) t /\ r <= 0.

(** The flag is cleared exactly when there was a cause. *)
Definition accounted (w : World) (m : Machine) : Prop :=
  loads m = loads_of (trace m)
  /\ (g_running m = false <-> pressed w (trace m) \/ write_failed (trace m)).

(** Ctrl+C before read [k] of the flag has been noticed once that read
    is made; [n] reads at least have been made. *)
Definition heard (k n : nat) (m : Machine) : Prop :=
  (n <= loads m)%nat /\ ((k < loads m)%nat -> g_running m = false).

(** Buffers without end: the event is signalled at once and every
    [GetBuffer] hands over two frames; Ctrl+C comes before the second
    read of the flag and every write of samples fails. *)
Definition world_flood : World :=
  world (cmdline "1234") S_OK pcm16
    (fun k n => if (k =? 0)%nat then n else -1)
    (fun k => negb (k =? 0)%nat) (fun _ => WAIT_OBJECT_0)
    (fun _ => data_packet 2).

(** ** What the process holds *)

(** The things [wmain] acquires and has to give back: the COM
    apartment, its reference to the completion handler, the audio
    client, the memory of the mix format, the capture event, the
    capture client, and the running stream. *)
Inductive Resource :=
| Com | Handler | AudioClient | MixFormat | CaptureEvent | CaptureClient
| Stream.

(** The call hands the resource over. The audio client counts as
    handed over when [QueryInterface] succeeds with a pointer, which is
    the test of line 269. *)
Definition acquires (r : Resource) (e : Event) : bool :=
  match r, e with
  | Com, EvCoInitializeEx hr => negb (FAILED hr)
  | Handler, EvNewHandler => true
  | AudioClient, EvStderr (DQueryInterface hr ptr) => negb (FAILED hr) && ptr
  | MixFormat, EvGetMixFormat hr => negb (FAILED hr)
  | CaptureEvent, EvCreateEvent => true
  | CaptureClient, EvGetService hr => negb (FAILED hr)
  | Stream, EvStart hr => negb (FAILED hr)
  | _, _ => false
  end.

Definition gives_back (r : Resource) (e : Event) : bool :=
  match r, e with
  | Com, EvCoUninitialize => true
  | Handler, EvHandlerRelease => true
  | AudioClient, EvAudioClientRelease => true
  | MixFormat, EvCoTaskMemFree => true
  | CaptureEvent, EvCloseHandle => true
  | CaptureClient, EvCaptureClientRelease => true
  | Stream, EvStop => true
  | _, _ => false
  end.

(** From this message on [waveFormat] points at the fallback format on
    the stack (lines 288-307), not at the memory of the mix format. *)
Definition falls_back (e : Event) : bool :=
  match e with
  | EvStderr (DMixFormatFallback _) => true
  | _ => false
  end.

(** The call needs the resource. The memory of the mix format is read
    for the format line (lines 310-326) and by [Initialize], unless the
    fallback is in use; the started stream is what the wait on the
    capture event, [GetBuffer] and [ReleaseBuffer] work on. *)
Definition uses (r : Resource) (fallback : bool) (e : Event) : bool :=
  match r with
  | Com =>
      match e with
      | EvNewHandler | EvActivateAsync _ _ _ _ | EvQueryInterface _
      | EvHandlerRelease | EvAsyncOpRelease | EvGetMixFormat _
      | EvInitialize _ _ | EvCoTaskMemFree | EvSetEventHandle _
      | EvGetService _ | EvStart _ | EvGetBuffer _ _ _ | EvReleaseBuffer _
      | EvStop | EvCaptureClientRelease | EvAudioClientRelease => true
      | _ => false
      end
  | Handler =>
      match e with
      | EvActivateAsync _ _ _ _ | EvHandlerWait | EvQueryInterface _ => true
      | _ => false
      end
  | AudioClient =>
      match e with
      | EvGetMixFormat _ | EvInitialize _ _ | EvSetEventHandle _
      | EvGetService _ | EvStart _ | EvStop => true
      | _ => false
      end
  | MixFormat =>
      match e with
      | EvStderr (DFormat _ _) | EvInitialize _ _ => negb fallback
      | _ => false
      end
  | CaptureEvent =>
      match e with
      | EvSetEventHandle _ | EvWaitCapture _ => true
      | _ => false
      end
  | CaptureClient =>
      match e with
      | EvGetBuffer _ _ _ | EvReleaseBuffer _ => true
      | _ => false
      end
  | Stream =>
      match e with
      | EvWaitCapture _ | EvGetBuffer _ _ _ | EvReleaseBuffer _ => true
      | _ => false
      end
  end.

(** Whether the resource is held after the trace, starting from [held];
    [fallback] tells whether the fallback format is in use. The trace
    is refused when it acquires what is held, gives back what is not
    held, or uses what is not held. *)
Fixpoint ledger (r : Resource) (held fallback : bool) (t : list Event)
    : option bool :=
  match t with
  | [] => Some held
  | e :: q =>
      let fallback' := fallback || falls_back e in
      if acquires r e then (if held then None else ledger r true fallback' q)
      else if gives_back r e then
        (if held then ledger r false fallback' q else None)
      else if uses r fallback e && negb held then None
      else ledger r held fallback' q
  end.

(** Held from the setup to the cleanup. *)
Definition persists (r : Resource) : bool :=
  match r with
  | Handler | MixFormat => false
  | _ => true
  end.

(** ** The process id on the command line *)

Definition digit_char (d : Z) : ascii := ascii_of_N (Z.to_N (48 + d)).

(** The decimal numeral with the digits [ds], most significant first. *)
Definition decimal (ds : list Z) : string :=
  fold_right (fun d s => String (digit_char d) s) EmptyString ds.

Definition value (ds : list Z) : Z :=
  fold_left (fun acc d => 10 * acc + d) ds 0.

(** ** The activation handshake *)

(** Activation reports success and hands over nothing. *)
Definition world_null_activation : World :=
  {| argv := cmdline "1234";
     hrCoInitializeEx := S_OK; hrActivateAsync := S_OK; asyncOp := true;
     m_hrActivate := S_OK; m_pActivated := false; hrQI := S_OK;
     qiClient := false;
     hrGetMixFormat := S_OK; mixFormat := pcm16;
     hrInitialize := S_OK; hrSetEventHandle := S_OK; hrGetService := S_OK;
     hrStart := S_OK;
     write_ret := fun _ n => n; ctrl_c := fun _ => false;
     wait_ret := fun _ => WAIT_TIMEOUT; packet := fun _ => no_packet |}.

(** ** The frame size *)

(** The fields of a format are in the ranges of their C types. *)
Definition well_typed (fmt : WAVEFORMATEXTENSIBLE) : Prop :=
  0 <= nChannels (Format fmt) < 2 ^ 16
  /\ 0 <= wBitsPerSample (Format fmt) < 2 ^ 16
  /\ 0 <= wValidBitsPerSample fmt < 2 ^ 16
  /\ 0 <= nBlockAlign (Format fmt) < 2 ^ 16
  /\ 0 <= nSamplesPerSec (Format fmt) < 2 ^ 32
  /\ 0 <= wFormatTag (Format fmt) < 2 ^ 16
  /\ 0 <= Data1 (SubFormat fmt) < 2 ^ 32.

(** 24 valid bits in 32-bit containers, stereo at 48 kHz: 8 bytes a
    frame in the buffers. *)
Definition pcm24in32 : WAVEFORMATEXTENSIBLE :=
  {| Format :=
       {| wFormatTag := WAVE_FORMAT_EXTENSIBLE; nChannels := 2;
          nSamplesPerSec := 48000; nAvgBytesPerSec := 384000;
          nBlockAlign := 8; wBitsPerSample := 32; cbSize := 22 |};
     wValidBitsPerSample := 24; dwChannelMask := 3;
     SubFormat := {| Data1 := 1; Data2 := 0; Data3 := 0x0010;
                     Data4 := [0x80; 0x00; 0x00; 0xAA; 0x00; 0x38; 0x9B; 0x71] |} |}.

(** Four bits a sample: less than a byte. *)
Definition adpcm4 : WAVEFORMATEXTENSIBLE :=
  {| Format :=
       {| wFormatTag := 2; nChannels := 2; nSamplesPerSec := 44100;
          nAvgBytesPerSec := 44359; nBlockAlign := 2048; wBitsPerSample := 4;
          cbSize := 0 |};
     wValidBitsPerSample := 0; dwChannelMask := 0;
     SubFormat := {| Data1 := 0; Data2 := 0; Data3 := 0; Data4 := [] |} |}.

Definition world_adpcm : World :=
  world (cmdline "1234") S_OK adpcm4 (fun _ n => n) (fun _ => false)
    (fun _ => WAIT_OBJECT_0)
    (fun k => if (k <? 2)%nat then data_packet 3 else no_packet).

(** ** The shutdown flag along a run *)

(** The reads and stores of [g_running] in order; [cleared] tells
    whether one of them has shown or made it [FALSE]. Refused: a store
    of [TRUE], and a read that gives [TRUE] after that. *)
Fixpoint flag_run (cleared : bool) (t : list Event) : option bool :=
  match t with
  | [] => Some cleared
  | EvStoreRunning v :: q => if v then None else flag_run true q
  | EvLoadRunning v :: q =>
      if v then (if cleared then None else flag_run false q)
      else flag_run true q
  | _ :: q => flag_run cleared q
  end.

(** ** The order of the calls in the capture loop *)

(** Whether [e] may come directly after [prev]: after a signalled wait
    comes [GetBuffer], after any other wait a read of the flag;
    [GetBuffer] comes only after a signalled wait or after the release
    of a buffer with frames; a wait comes only after a read of the flag
    as set. *)
Definition may_follow (prev : option Event) (e : Event) : bool :=
  match prev with
  | Some (EvWaitCapture r) =>
      if r =? WAIT_OBJECT_0 then is_getbuffer e else is_load e
  | _ => true
  end
  && match e with
     | EvGetBuffer _ _ _ =>
         match prev with
         | Some (EvWaitCapture _) => true
         | Some (EvReleaseBuffer n) => negb (n =? 0)
         | _ => false
         end
     | EvWaitCapture _ =>
         match prev with
         | Some (EvLoadRunning v) => v
         | _ => false
         end
     | _ => true
     end.

Fixpoint in_turn (prev : option Event) (t : list Event) : bool :=
  match t with
  | [] => true
  | e :: q => may_follow prev e && in_turn (Some e) q
  end.

Fixpoint last_event (prev : option Event) (t : list Event) : option Event :=
  match t with
  | [] => prev
  | e :: q => last_event (Some e) q
  end.

(** What the last call was when a loop head is reached. *)
Definition head_ok (ph : Phase) (prev : option Event) : bool :=
  match ph with
  | Running =>
      match prev with
      | Some (EvWaitCapture r) => negb (r =? WAIT_OBJECT_0)
      | _ => true
      end
  | Draining =>
      match prev with
      | Some (EvWaitCapture r) => r =? WAIT_OBJECT_0
      | Some (EvReleaseBuffer n) => negb (n =? 0)
      | _ => false
      end
  | Stopped =>
      match prev with
      | Some (EvLoadRunning v) => negb v
      | _ => false
      end
  end.

(** Neither a wait nor a [GetBuffer]. *)
Definition free_event (e : Event) : bool :=
  match e with
  | EvWaitCapture _ | EvGetBuffer _ _ _ => false
  | _ => true
  end.

(** ** Failure reports and the mode of the data channel *)

(** The lines on the diagnostic channel that report a failed step. *)
Definition failure_report (e : Event) : bool :=
  match e with
  | EvStderr d =>
      match d with
      | DUsage | DCoInitializeExFailed _ | DActivateFailed _
      | DNoAudioClient _ | DInitializeFailed _ | DSetEventHandleFailed _
      | DGetServiceFailed _ | DHeaderFailed | DStartFailed _ => true
      | _ => false
      end
  | _ => false
  end.

Definition reports (t : list Event) : nat :=
  List.length (filter failure_report t).

(** Every write comes after [_setmode]; [seen] tells whether the mode
    has been set. *)
Fixpoint binary_first (seen : bool) (t : list Event) : bool :=
  match t with
  | [] => true
  | EvSetMode :: q => binary_first true q
  | EvWrite _ _ :: q => seen && binary_first seen q
  | _ :: q => binary_first seen q
  end.

Definition is_setmode (e : Event) : bool :=
  match e with EvSetMode => true | _ => false end.

(** * Running the setup *)

Ltac proc_unfold :=
  unfold wmain_setup, negotiate, CompletionHandler_Wait, cleanup,
    ReleaseBuffer, fprintf, call, exit, ret, _write, load_running,
    store_running, WaitForSingleObject, GetBuffer, bind.

Ltac proc_simpl :=
  cbn beta iota zeta delta [fst snd emit tick_write tick_load tick_get tick_wait set_running
       g_running loads writes gets waits trace boot app negb andb orb] in *.

(** The first test a stuck run waits for, taken apart down to the
    comparison that decides it. *)
Ltac atom c :=
  lazymatch c with
  | context [if ?a then _ else _] => atom a
  | ?a || _ => atom a
  | ?a && _ => atom a
  | negb ?a => atom a
  | _ => constr:(c)
  end.

Ltac branch :=
  match goal with
  | |- context [(if ?c then _ else _) ?m] =>
      let a := atom c in destruct a eqn:?
  | |- context [match (if ?c then _ else _) with _ => _ end] =>
      let a := atom c in destruct a eqn:?
  end.

Ltac setup_exec := proc_unfold; proc_simpl; repeat (branch; proc_simpl).

(** Feed the tests already decided into the hypothesis [H]. *)
Ltac decide_in H :=
  repeat match goal with
         | E : ?c = _ |- _ =>
             lazymatch E with
             | H => fail
             | _ => match type of H with context [c] => rewrite E in H end
             end
         end;
  cbn [negb andb orb fst snd] in H;
  rewrite ?andb_false_r, ?andb_true_r, ?orb_false_r, ?orb_true_r in H.

Lemma header_length h : List.length (header_bytes h) = 12%nat.
Proof. reflexivity. Qed.

Lemma setup_ok_run w :
  setup_ok w = true ->
  wmain_setup w boot = (started w, Next (frameSize w))
  /\ g_running (started w) = true /\ loads (started w) = 0%nat
  /\ writes (started w) = 1%nat /\ gets (started w) = 0%nat
  /\ waits (started w) = 0%nat.
Proof.
  unfold started, frameSize, stream_header, negotiated, setup_ok, activation_ok.
  intros H.
  setup_exec; rewrite ?header_length in *;
    change (Z.of_nat 12) with 12 in *;
    decide_in H; try discriminate; repeat split; reflexivity.
Qed.

Lemma setup_fail_run w :
  setup_ok w = false -> snd (wmain_setup w boot) = Return 1.
Proof.
  unfold setup_ok, activation_ok.
  intros H.
  setup_exec; rewrite ?header_length in *;
    change (Z.of_nat 12) with 12 in *;
    decide_in H; try discriminate; auto.
Qed.


(** * Reasoning about procedures *)

Lemma wp_bind {A B} (p : Proc A) (k : A -> Proc B) R m :
  wp (bind p k) R m = wp p (fun a m' => wp (k a) R m') m.
Proof. unfold wp, bind. destruct (p m) as [m1 [a | c]]; reflexivity. Qed.

Lemma wp_ret {A} (a : A) R m : wp (ret a) R m = R a m.
Proof. reflexivity. Qed.

Lemma wp_call e R m : wp (call e) R m = R tt (emit e m).
Proof. reflexivity. Qed.

Lemma wp_mono {A} (p : Proc A) (R R' : A -> Machine -> Prop) m :
  wp p R m -> (forall a m', R a m' -> R' a m') -> wp p R' m.
Proof.
  unfold wp. destruct (p m) as [m1 [a | c]]; intros H HR; [apply HR|]; exact H.
Qed.

Section Loop.

Variable w : World.

(** An invariant of the loop heads holds wherever the fuel stops the
    capture loop. *)
Lemma capture_loop_inv (J : Phase -> Machine -> Prop) fs :
  (forall ph m, ph <> Stopped -> J ph m -> wp (loop_step w fs ph) J m) ->
  forall fuel ph m, J ph m -> wp (capture_loop w fuel fs ph) J m.
Proof.
  intros Hstep. induction fuel as [|fuel IH]; intros ph m HJ.
  - exact HJ.
  - destruct ph; cbn [capture_loop]; try exact HJ.
    + rewrite wp_bind. eapply wp_mono; [apply Hstep; [discriminate | exact HJ]|].
      intros ph' m' HJ'. apply IH, HJ'.
    + rewrite wp_bind. eapply wp_mono; [apply Hstep; [discriminate | exact HJ]|].
      intros ph' m' HJ'. apply IH, HJ'.
Qed.

Lemma capture_loop_add fs n k : forall ph m,
  capture_loop w (n + k) fs ph m =
  match capture_loop w n fs ph m with
  | (m', Next ph') => capture_loop w k fs ph' m'
  | (m', Return c) => (m', Return c)
  end.
Proof.
  induction n as [|n IH]; intros ph m.
  - reflexivity.
  - cbn [Nat.add capture_loop]. destruct ph.
    + unfold bind. destruct (loop_step w fs Running m) as [m1 [ph1 | c]]; auto.
    + unfold bind. destruct (loop_step w fs Draining m) as [m1 [ph1 | c]]; auto.
    + destruct k; reflexivity.
Qed.

End Loop.

(** * The loops run to their end *)

Ltac wp_exec := unfold wp; proc_unfold; proc_simpl; repeat (branch; proc_simpl).

Section Totality.

Variable w : World.

Lemma silence_loop_total z fuel : forall rem m,
  wp (silence_loop w z fuel rem) (fun _ _ => True) m.
Proof.
  induction fuel as [|fuel IH]; intros rem m; cbn [silence_loop].
  - exact I.
  - destruct (rem >? 0); [|exact I].
    rewrite wp_bind. unfold wp at 1, load_running.
    destruct (g_running m && negb (ctrl_c w (loads m))); [|exact I].
    rewrite wp_bind. unfold wp at 1, _write.
    destruct (_ <=? 0); [exact I | apply IH].
Qed.

Lemma drain_body_total fs m : wp (drain_body w fs) (fun _ _ => True) m.
Proof.
  unfold drain_body. rewrite wp_bind. unfold wp at 1, GetBuffer.
  destruct (_ || _); [exact I|].
  destruct (_ =? 0); [exact I|].
  rewrite wp_bind.
  destruct (negb _).
  - eapply wp_mono; [apply silence_loop_total|]. intros; exact I.
  - wp_exec; exact I.
Qed.

Lemma loop_step_total fs ph m : wp (loop_step w fs ph) (fun _ _ => True) m.
Proof.
  destruct ph; cbn [loop_step].
  - wp_exec; exact I.
  - rewrite wp_bind. eapply wp_mono; [apply drain_body_total|].
    intros [] ? _; exact I.
  - exact I.
Qed.

Lemma capture_loop_total fuel fs ph m :
  wp (capture_loop w fuel fs ph) (fun _ _ => True) m.
Proof.
  apply capture_loop_inv with (J := fun _ _ => True); [|exact I].
  intros. apply loop_step_total.
Qed.

Lemma loop_end_eq fuel :
  capture_loop w fuel (frameSize w) Running (started w) =
  (fst (loop_end w fuel), Next (snd (loop_end w fuel))).
Proof.
  unfold loop_end.
  pose proof (capture_loop_total fuel (frameSize w) Running (started w)) as H.
  unfold wp in H.
  destruct (capture_loop w fuel (frameSize w) Running (started w))
    as [m [ph | c]]; [reflexivity | contradiction].
Qed.

Lemma cleanup_run m :
  cleanup m =
  ({| g_running := g_running m; loads := loads m; writes := writes m;
      gets := gets m; waits := waits m;
      trace := trace m ++ cleanup_events |}, Return 0).
Proof.
  unfold cleanup, cleanup_events, fprintf, call, exit, bind, emit.
  cbn. rewrite <- !app_assoc. reflexivity.
Qed.

(** The shape of every run. *)
Lemma wmain_unfold fuel :
  wmain w fuel =
  if setup_ok w then
    match snd (loop_end w fuel) with
    | Stopped => (trace (fst (loop_end w fuel)) ++ cleanup_events, Exit 0)
    | _ => (trace (fst (loop_end w fuel)), StillRunning)
    end
  else (trace (started w), Exit 1).
Proof.
  unfold wmain, wmain_proc, bind.
  destruct (setup_ok w) eqn:Hok.
  - destruct (setup_ok_run w Hok) as (E & _). rewrite E, loop_end_eq.
    destruct (snd (loop_end w fuel)); try reflexivity.
    rewrite cleanup_run. reflexivity.
  - pose proof (setup_fail_run w Hok) as E. unfold started.
    destruct (wmain_setup w boot) as [m [a | c]]; cbn in E |- *;
      [discriminate | congruence].
Qed.

End Totality.

(** * What the loops add to the trace *)

Lemma extends_refl P m : extends P m m.
Proof. exists []. split; [symmetry; apply app_nil_r | reflexivity]. Qed.

Lemma extends_trans P m1 m2 m3 :
  extends P m1 m2 -> extends P m2 m3 -> extends P m1 m3.
Proof.
  intros (e1 & E1 & F1) (e2 & E2 & F2). exists (e1 ++ e2). split.
  - rewrite E2, E1, app_assoc. reflexivity.
  - rewrite forallb_app, F1, F2. reflexivity.
Qed.

Ltac trace_simpl :=
  cbn [trace emit tick_write tick_load tick_get tick_wait set_running
       g_running loads writes gets waits];
  rewrite <- ?app_assoc; cbn [app].

(** Close [extends P m m'] when [m'] is [m] after a known run of events. *)
Ltac extends_now :=
  first [ apply extends_refl
        | eexists; split; [trace_simpl; reflexivity | reflexivity] ].

Section Frame.

Variable w : World.

Lemma silence_loop_extends z fuel : forall rem m,
  wp (silence_loop w z fuel rem) (fun _ m' => extends loop_event m m') m.
Proof.
  induction fuel as [|fuel IH]; intros rem m; cbn [silence_loop].
  - extends_now.
  - destruct (rem >? 0); [|extends_now].
    rewrite wp_bind. unfold wp at 1, load_running.
    destruct (g_running m && negb (ctrl_c w (loads m))).
    + rewrite wp_bind. unfold wp at 1, _write.
      destruct (_ <=? 0).
      * cbn. extends_now.
      * eapply wp_mono; [apply IH|]. cbn. intros _ m' H.
        eapply extends_trans; [|exact H]. extends_now.
    + cbn. extends_now.
Qed.

Lemma drain_body_extends fs m :
  wp (drain_body w fs) (fun _ m' => extends loop_event m m') m.
Proof.
  unfold drain_body. rewrite wp_bind. unfold wp at 1, GetBuffer.
  destruct (_ || _); [cbn; extends_now|].
  destruct (_ =? 0); [cbn; extends_now|].
  rewrite wp_bind.
  destruct (negb _).
  - eapply wp_mono; [apply silence_loop_extends|]. cbn. intros _ m' H.
    eapply extends_trans; [|eapply extends_trans; [exact H|]]; extends_now.
  - wp_exec; extends_now.
Qed.

Lemma loop_step_extends fs ph m :
  wp (loop_step w fs ph) (fun _ m' => extends loop_event m m') m.
Proof.
  destruct ph; cbn [loop_step].
  - wp_exec; extends_now.
  - rewrite wp_bind. eapply wp_mono; [apply drain_body_extends|].
    intros [] ? H; exact H.
  - extends_now.
Qed.

Lemma capture_loop_extends fuel fs ph m :
  wp (capture_loop w fuel fs ph) (fun _ m' => extends loop_event m m') m.
Proof.
  apply capture_loop_inv with (J := fun _ m' => extends loop_event m m');
    [|apply extends_refl].
  intros ph' m' _ H. eapply wp_mono; [apply loop_step_extends|].
  cbn. intros _ m'' H'. eapply extends_trans; eauto.
Qed.

Lemma loop_end_extends fuel :
  extends loop_event (started w) (fst (loop_end w fuel)).
Proof.
  pose proof (capture_loop_extends fuel (frameSize w) Running (started w)) as H.
  unfold wp in H. rewrite loop_end_eq in H. exact H.
Qed.

End Frame.

(** * Every run starts with the setup trace *)

Lemma wmain_prefix w fuel :
  exists evs, fst (wmain w fuel) = trace (started w) ++ evs
              /\ forallb late_event evs = true
              /\ (setup_ok w = false -> evs = []).
Proof.
  rewrite wmain_unfold. destruct (setup_ok w).
  - destruct (loop_end_extends w fuel) as (evs & E & F).
    assert (Fl : forallb late_event evs = true).
    { rewrite forallb_forall in *. intros e He. unfold late_event.
      rewrite (F e He). reflexivity. }
    destruct (snd (loop_end w fuel)); cbn [fst].
    + exists evs. repeat split; auto; discriminate.
    + exists evs. repeat split; auto; discriminate.
    + exists (evs ++ cleanup_events). rewrite E, app_assoc.
      repeat split; try discriminate.
      rewrite forallb_app, Fl. reflexivity.
  - exists []. cbn [fst]. rewrite app_nil_r. auto.
Qed.

Lemma in_setup_in_wmain w fuel e :
  In e (trace (started w)) -> In e (fst (wmain w fuel)).
Proof.
  destruct (wmain_prefix w fuel) as (evs & -> & _). intros H.
  apply in_or_app. left. exact H.
Qed.

Lemma in_wmain_in_setup w fuel e :
  late_event e = false ->
  In e (fst (wmain w fuel)) -> In e (trace (started w)).
Proof.
  destruct (wmain_prefix w fuel) as (evs & -> & F & _). intros He H.
  apply in_app_or in H. destruct H as [H | H]; [exact H|].
  rewrite forallb_forall in F. rewrite (F e H) in He. discriminate.
Qed.

(** Membership in a trace that is known event by event. *)
Ltac in_cases H :=
  cbn [In] in H;
  repeat match type of H with
         | _ \/ _ => destruct H as [H | H]
         end;
  try discriminate H; try contradiction.

Ltac in_now := cbn [In]; tauto.

(** * Format negotiation *)

Lemma setup_negotiation w hr :
  In (EvGetMixFormat hr) (trace (started w)) ->
  hr = hrGetMixFormat w
  /\ In (EvStderr (DFormat (stream_header w) (FAILED hr))) (trace (started w))
  /\ In (EvInitialize (negotiated w) (hrInitialize w)) (trace (started w))
  /\ (In (EvStderr (DMixFormatFallback hr)) (trace (started w))
      <-> FAILED hr = true).
Proof.
  unfold started, stream_header, negotiated.
  setup_exec; intros H; in_cases H.
  all: injection H as <-.
  all: match goal with E : FAILED (hrGetMixFormat _) = _ |- _ => rewrite E end.
  all: repeat split; try in_now; try congruence.
  all: intros H'; in_cases H'.
Qed.

(** * The first write *)

Lemma split_write_sound t : forall p b r q,
  split_write t = Some (p, b, r, q) ->
  t = p ++ EvWrite b r :: q /\ writes_of p = [] .
Proof.
  induction t as [|e t IH]; intros p b r q H; [discriminate|].
  destruct e; cbn [split_write] in H;
    try (destruct (split_write t) as [[[[p' b'] r'] q']|]; [|discriminate];
         injection H as <- <- <- <-;
         destruct (IH _ _ _ _ eq_refl) as [-> Hw]; split; [reflexivity | exact Hw]).
  injection H as <- <- <- <-. split; reflexivity.
Qed.

Lemma split_write_first p b r q :
  writes_of p = [] -> split_write (p ++ EvWrite b r :: q) = Some (p, b, r, q).
Proof.
  induction p as [|e p IH]; intros H; [reflexivity|].
  destruct e; cbn [writes_of flat_map app] in H; try discriminate;
    cbn [app split_write]; rewrite (IH H); reflexivity.
Qed.

Lemma split_write_app t evs :
  split_write (t ++ evs) =
  match split_write t with
  | Some (p, b, r, q) => Some (p, b, r, q ++ evs)
  | None =>
      match split_write evs with
      | Some (p, b, r, q) => Some (t ++ p, b, r, q)
      | None => None
      end
  end.
Proof.
  induction t as [|e t IH].
  - cbn. destruct (split_write evs) as [[[[p b] r] q]|]; reflexivity.
  - destruct e; cbn [app split_write]; try rewrite IH;
      try (destruct (split_write t) as [[[[p b] r] q]|];
           [reflexivity
           | destruct (split_write evs) as [[[[p b] r] q]|]; reflexivity]);
      try reflexivity.
Qed.

Lemma writes_of_app t u : writes_of (t ++ u) = writes_of t ++ writes_of u.
Proof. unfold writes_of. apply flat_map_app. Qed.

Lemma starts_of_app t u : starts_of (t ++ u) = starts_of t ++ starts_of u.
Proof. unfold starts_of. apply flat_map_app. Qed.

(** The setup writes the header or nothing; the header comes before
    [Start], and lines 382-400 follow it. *)
Lemma setup_header w :
  match split_write (trace (started w)) with
  | None => setup_ok w = false /\ starts_of (trace (started w)) = []
  | Some (p, b, r, q) =>
      b = header_bytes (stream_header w) /\ r = write_ret w 0 12
      /\ starts_of p = [] /\ q = after_header w r
      /\ (setup_ok w = true <-> r = sizeof_AudioHeader /\ FAILED (hrStart w) = false)
  end.
Proof.
  unfold started, stream_header, negotiated, after_header, excludePid,
    setup_ok, activation_ok.
  setup_exec; rewrite ?header_length in *; change (Z.of_nat 12) with 12 in *;
    cbn [negb] in *;
    repeat match goal with
           | E : negb _ = _ |- _ => first [apply negb_true_iff in E | apply negb_false_iff in E]
           end;
    repeat match goal with E : ?c = _ |- context [?c] => rewrite E end;
    cbn -[header_bytes describe Z.eqb sizeof_AudioHeader];
    repeat match goal with E : ?c = _ |- context [?c] => rewrite E end;
    repeat split; auto; try discriminate; try tauto.
  all: try (apply Z.eqb_eq; assumption).
  all: try (intros [E _]; apply Z.eqb_eq in E; congruence).
  all: try (intros [_ E]; congruence).
Qed.

Lemma first_write_run w fuel pre buf r post :
  fst (wmain w fuel) = pre ++ EvWrite buf r :: post ->
  writes_of pre = [] ->
  buf = header_bytes (stream_header w) /\ r = write_ret w 0 12
  /\ starts_of pre = []
  /\ (setup_ok w = true <-> r = sizeof_AudioHeader /\ FAILED (hrStart w) = false)
  /\ exists evs, post = after_header w r ++ evs
                 /\ forallb late_event evs = true
                 /\ (setup_ok w = false -> evs = []).
Proof.
  intros E Hpre.
  pose proof (split_write_first pre buf r post Hpre) as Hs. rewrite <- E in Hs.
  destruct (wmain_prefix w fuel) as (evs & Et & Fl & Hfail).
  rewrite Et, split_write_app in Hs.
  pose proof (setup_header w) as Hh.
  destruct (split_write (trace (started w))) as [[[[p b] r0] q]|].
  - injection Hs as <- <- <- <-.
    destruct Hh as (-> & -> & Hp & -> & Hok).
    repeat split; try tauto. exists evs. auto.
  - destruct Hh as (Hok & _). rewrite (Hfail Hok) in Hs.
    cbn in Hs. discriminate.
Qed.

(** * Little-endian fields *)

Lemma byte_at_div i x : 0 <= i -> byte_at i x = (x / 2 ^ (8 * i)) mod 256.
Proof.
  intros Hi. unfold byte_at. rewrite Z.shiftr_div_pow2 by lia.
  change 255 with (Z.ones 8). rewrite Z.land_ones by lia. reflexivity.
Qed.

Lemma from_le16 x : from_le (le16 x) = u16 x.
Proof.
  unfold from_le, le16, u16. cbn [fold_right].
  rewrite !byte_at_div by lia.
  change (2 ^ (8 * 0)) with 1. change (2 ^ (8 * 1)) with 256.
  change (2 ^ 16) with 65536.
  Z.div_mod_to_equations. lia.
Qed.

Lemma from_le32 x : from_le (le32 x) = u32 x.
Proof.
  unfold from_le, le32, u32. cbn [fold_right].
  rewrite !byte_at_div by lia.
  change (2 ^ (8 * 0)) with 1. change (2 ^ (8 * 1)) with 256.
  change (2 ^ (8 * 2)) with 65536. change (2 ^ (8 * 3)) with 16777216.
  change (2 ^ 32) with 4294967296.
  Z.div_mod_to_equations. lia.
Qed.

(** What the consumer reads back from the 12 bytes. *)
Lemma parse_header_bytes h :
  parse_header (header_bytes h) =
  Some {| sampleRate := u32 (sampleRate h); channels := u16 (channels h);
          bitsPerSample := u16 (bitsPerSample h);
          formatTag := u32 (formatTag h) |}.
Proof.
  unfold header_bytes. cbn [app le32 le16 parse_header].
  change [byte_at 0 (sampleRate h); byte_at 1 (sampleRate h);
          byte_at 2 (sampleRate h); byte_at 3 (sampleRate h)]
    with (le32 (sampleRate h)).
  change [byte_at 0 (formatTag h); byte_at 1 (formatTag h);
          byte_at 2 (formatTag h); byte_at 3 (formatTag h)]
    with (le32 (formatTag h)).
  change [byte_at 0 (channels h); byte_at 1 (channels h)]
    with (le16 (channels h)).
  change [byte_at 0 (bitsPerSample h); byte_at 1 (bitsPerSample h)]
    with (le16 (bitsPerSample h)).
  rewrite !from_le32, !from_le16. reflexivity.
Qed.

(** * Exit codes *)

Lemma in_starts_of t hr : In (EvStart hr) t <-> In hr (starts_of t).
Proof.
  unfold starts_of. rewrite in_flat_map. split.
  - intros H. exists (EvStart hr). split; [exact H | left; reflexivity].
  - intros (e & He & Hin). destruct e; cbn in Hin; try contradiction.
    destruct Hin as [-> | []]. exact He.
Qed.

Lemma setup_started w hr :
  In (EvStart hr) (trace (started w)) /\ FAILED hr = false
  <-> hr = hrStart w /\ setup_ok w = true.
Proof.
  rewrite in_starts_of.
  pose proof (setup_header w) as Hh.
  destruct (split_write (trace (started w))) as [[[[p b] r0] q]|] eqn:Hs.
  - destruct Hh as (_ & _ & Hp & -> & Hiff).
    apply split_write_sound in Hs. destruct Hs as (-> & _).
    rewrite starts_of_app, Hp. cbn [app starts_of flat_map].
    change (flat_map (fun e => match e with EvStart hr => [hr] | _ => [] end)
              (after_header w r0)) with (starts_of (after_header w r0)).
    unfold after_header. rewrite Hiff.
    destruct (Z.eqb_spec r0 sizeof_AudioHeader) as [Er | Er].
    + destruct (FAILED (hrStart w)) eqn:Ef; cbn; split.
      * intros ([<- | []] & Hf). congruence.
      * intros (_ & _ & Hf). discriminate.
      * intros ([<- | []] & Hf). auto.
      * intros (-> & _). auto.
    + cbn. split; [intros ([] & _) | intros (_ & Hr & _); contradiction].
  - destruct Hh as (Hok & ->). rewrite Hok. cbn.
    split; [intros ([] & _) | intros (_ & Hf); discriminate].
Qed.

Lemma setup_never_stops w : ~ In EvStop (trace (started w)).
Proof.
  unfold started. setup_exec; intros H; in_cases H.
Qed.

Lemma setup_activation_failed w :
  FAILED (hrActivateAsync w) = true \/ activation_ok w = false ->
  setup_ok w = false /\ writes_of (trace (started w)) = [].
Proof.
  unfold setup_ok, started.
  intros [H | H]; [rewrite H | rewrite H];
    rewrite ?andb_false_r; cbn [negb andb]; rewrite ?andb_false_r;
    (split; [reflexivity|]); revert H; unfold activation_ok;
    setup_exec; intros H; decide_in H; try discriminate; reflexivity.
Qed.

(** The loop is left only after [g_running] was read as [FALSE]. *)
Lemma capture_loop_stopped w fuel fs m :
  wp (capture_loop w fuel fs Running)
     (fun ph m' => ph = Stopped ->
                   exists pre, trace m' = pre ++ [EvLoadRunning false]) m.
Proof.
  apply capture_loop_inv
    with (J := fun ph m' => ph = Stopped ->
                            exists pre, trace m' = pre ++ [EvLoadRunning false]);
    [|discriminate].
  intros ph m' Hph _. destruct ph; [| |contradiction]; cbn [loop_step].
  - wp_exec; try discriminate; intros _; eexists; reflexivity.
  - rewrite wp_bind. eapply wp_mono; [apply drain_body_total|].
    intros [] ? _; cbn; discriminate.
Qed.

(** * The command line *)

Lemma digits_no_digit r acc :
  Crt.starts_with_digit r = false -> Crt.digits acc r = acc.
Proof.
  destruct r as [|c r]; [reflexivity|]. cbn.
  destruct (Crt.digit c); [discriminate | reflexivity].
Qed.

Lemma wtoi_no_digit s :
  Crt.starts_with_digit (Crt.numeral s) = false -> Crt.wtoi s = 0.
Proof.
  unfold Crt.wtoi, Crt.numeral.
  destruct (Crt.skip_space s) as [|c r]; [reflexivity|].
  destruct c as [[] [] [] [] [] [] [] []];
    intros H; rewrite (digits_no_digit _ 0 H); reflexivity.
Qed.

(** * The zero-fill loop *)

Lemma zeros_length c : 0 <= c -> Z.of_nat (List.length (zeros c)) = c.
Proof. intros H. unfold zeros. rewrite repeat_length. lia. Qed.

Lemma zeros_add a b : 0 <= a -> 0 <= b -> zeros (a + b) = zeros a ++ zeros b.
Proof.
  intros Ha Hb. unfold zeros. rewrite Z2Nat.inj_add by lia. apply repeat_app.
Qed.


Lemma chunk_total_cons cr l : chunk_total (cr :: l) = fst cr + chunk_total l.
Proof. reflexivity. Qed.

Section Silence.

Variable w : World.
Variable z : Z.
Hypothesis z_pos : 0 < z.

(** The zero-fill loop in full: which chunks it writes and how it
    ends. The fuel [write_silence] gives it is never used up. *)
Lemma silence_loop_shape fuel : forall rem m,
  0 <= rem < 2 ^ 32 -> (Z.to_nat rem < fuel)%nat ->
  exists chunks tail m',
    silence_loop w z fuel rem m = (m', Next tt)
    /\ trace m' = trace m ++ chunk_events chunks ++ tail
    /\ gets m' = gets m /\ waits m' = waits m
    /\ Forall (fun cr => 0 < fst cr <= z
                         /\ exists k, snd cr = write_ret w k (fst cr)) chunks
    /\ (g_running m = false -> chunks = [])
    /\ SilenceEnd w rem (g_running m) chunks tail (g_running m').
Proof.
  induction fuel as [|fuel IH]; intros rem m Hrem Hfuel; [lia|].
  cbn [silence_loop].
  destruct (Z.gtb_spec rem 0) as [Hpos | Hzero].
  2:{ assert (rem = 0) by lia. subst rem.
      exists [], [], m. cbn. rewrite app_nil_r.
      repeat split; auto. apply Filled; auto. }
  unfold bind at 1, load_running at 1.
  destruct (g_running m && negb (ctrl_c w (loads m))) eqn:Hv.
  2:{ eexists [], [EvLoadRunning false], _. cbn.
      repeat split; auto.
      apply Interrupted; auto; try (cbn; lia).
      apply andb_false_iff in Hv. destruct Hv as [Hv | Hv]; [auto|].
      right. exists (loads m). apply negb_false_iff, Hv. }
  apply andb_true_iff in Hv. destruct Hv as [Hrun Hctrl].
  set (c := if rem >? z then z else rem).
  assert (Hc : 0 < c <= z /\ c <= rem).
  { unfold c. destruct (Z.gtb_spec rem z); lia. }
  unfold bind at 1, _write at 1. rewrite zeros_length by lia.
  cbn [writes tick_load set_running emit].
  set (r := write_ret w (writes m) c).
  destruct (Z.leb_spec r 0) as [Hr | Hr].
  - eexists [(c, r)], [EvStoreRunning false], _.
    split; [reflexivity|]. cbn. rewrite <- !app_assoc. cbn.
    repeat split; auto.
    + constructor; [|constructor]. cbn. split; [lia|]. exists (writes m). reflexivity.
    + congruence.
    + apply (Broken w rem _ _ _ _ [] c r); auto; cbn; lia.
  - assert (Hu : u32 (rem - c) = rem - c).
    { unfold u32. apply Z.mod_small. lia. }
    rewrite Hu.
    match goal with
    | |- context [silence_loop w z fuel (rem - c) ?m1] =>
        destruct (IH (rem - c) m1) as
          (chunks & tail & m' & E & Et & Eg & Ew & Hall & _ & Hend); [lia | lia |]
    end.
    exists ((c, r) :: chunks), tail, m'.
    split; [exact E|].
    rewrite Et. cbn [trace emit tick_write tick_load set_running gets waits] in *.
    rewrite <- !app_assoc. cbn.
    repeat split; auto.
    + constructor; [|exact Hall]. cbn. split; [lia|]. exists (writes m). reflexivity.
    + congruence.
    + cbn [g_running] in Hend.
      assert (Hr' : 0 < snd (c, r)) by exact Hr.
      destruct Hend as [Et' Hp Ht Eb | Et' Hp Ht Hwhy Eb
                       | init c' r' Et' Ei Hp Hr'' Ht Eb].
      * apply Filled; auto; try (rewrite chunk_total_cons; cbn [fst]; lia).
        rewrite Eb. destruct (Z.eqb_spec rem 0); [lia|].
        destruct (rem - c =? 0); reflexivity.
      * apply Interrupted; auto; try (rewrite chunk_total_cons; cbn [fst]; lia).
        destruct Hwhy as [Hwhy | Hwhy]; [discriminate | auto].
      * apply (Broken w rem _ _ _ _ ((c, r) :: init) c' r'); auto;
          try (rewrite chunk_total_cons; cbn [fst]; lia).
        rewrite Ei. reflexivity.
Qed.

End Silence.

(** * One round of the drain loop *)

Lemma byteCount_range n fs : 0 <= byteCount_of n fs < 2 ^ 32.
Proof. unfold byteCount_of, u32. apply Z.mod_pos_bound. lia. Qed.

Lemma buffer_bytes_length d n :
  0 <= n -> Z.of_nat (List.length (buffer_bytes d n)) = n.
Proof.
  intros H. unfold buffer_bytes. rewrite length_map, length_seq. lia.
Qed.

Lemma drain_body_shape w fs m :
  exists m' again body,
    drain_body w fs m = (m', Next again)
    /\ trace m' = trace m
                  ++ EvGetBuffer (pk_hr (packet w (gets m)))
                       (pk_numFrames (packet w (gets m)))
                       (pk_flags (packet w (gets m))) :: body
    /\ gets m' = S (gets m) /\ waits m' = waits m
    /\ DrainRound w fs (g_running m) (writes m) (packet w (gets m)) body again
         (g_running m').
Proof.
  unfold drain_body. unfold bind at 1, GetBuffer at 1.
  set (p := packet w (gets m)).
  destruct ((pk_hr p =? AUDCLNT_S_BUFFER_EMPTY) || FAILED (pk_hr p)) eqn:Hacq.
  { eexists _, _, []. split; [reflexivity|]. cbn. repeat split; auto.
    apply NoBuffer; auto. unfold acquired. rewrite Hacq. reflexivity. }
  assert (Ha : acquired (pk_hr p) = true)
    by (unfold acquired; rewrite Hacq; reflexivity).
  destruct (Z.eqb_spec (pk_numFrames p) 0) as [Hz | Hnz].
  { eexists _, _, _. split; [reflexivity|]. cbn. rewrite <- app_assoc.
    repeat split; auto. apply ZeroFrames; auto. }
  unfold bind at 1.
  destruct (negb (Z.land (pk_flags p) AUDCLNT_BUFFERFLAGS_SILENT =? 0)) eqn:Hs.
  - unfold write_silence.
    match goal with
    | |- context [silence_loop w sizeof_zeros ?f ?rem ?m1] =>
        destruct (silence_loop_shape w sizeof_zeros eq_refl f rem m1)
          as (chunks & tail & m' & E & Et & Eg & Ew & Hall & Hnil & Hend);
        [apply byteCount_range | lia |]
    end.
    rewrite E. eexists _, _, _. split; [reflexivity|].
    cbn [trace emit gets waits g_running tick_get] in *. rewrite Et, Eg, Ew.
    rewrite <- !app_assoc. cbn [app].
    repeat split; auto.
    apply (SilentRound w fs _ _ p _ _ _ chunks tail); auto.
  - unfold bind at 1, _write at 1.
    rewrite buffer_bytes_length by apply byteCount_range.
    cbn [writes emit tick_get].
    set (r := write_ret w (writes m) (byteCount_of (pk_numFrames p) fs)).
    destruct (r <=? 0) eqn:Hr.
    + eexists _, _, _. split; [reflexivity|].
      cbn. rewrite <- !app_assoc. cbn.
      repeat split; auto.
      apply (DataRound w fs _ _ p _ _ _ r); auto; rewrite Hr; reflexivity.
    + eexists _, _, _. split; [reflexivity|].
      cbn. rewrite <- !app_assoc. cbn.
      repeat split; auto.
      apply (DataRound w fs _ _ p _ _ _ r); auto; rewrite Hr; reflexivity.
Qed.

(** * Acquired and released buffers *)

Lemma hold_run_app t u : forall h,
  hold_run h (t ++ u) =
  match hold_run h t with
  | Some h' => hold_run h' u
  | None => None
  end.
Proof.
  induction t as [|e t IH]; intros h; [reflexivity|].
  cbn [app hold_run]. destruct (hold_step h e); [apply IH | reflexivity].
Qed.

Lemma hold_run_io t : forall h, forallb io_event t = true -> hold_run h t = Some h.
Proof.
  induction t as [|e t IH]; intros h H; [reflexivity|].
  cbn [forallb] in H. apply andb_true_iff in H. destruct H as [He H].
  cbn [hold_run].
  replace (hold_step h e) with (Some h)
    by (destruct e; try discriminate He; destruct h; reflexivity).
  apply IH, H.
Qed.

Lemma chunk_events_io chunks : forallb io_event (chunk_events chunks) = true.
Proof. induction chunks as [|cr chunks IH]; [reflexivity | exact IH]. Qed.

Lemma silence_end_io w rem b chunks tail b' :
  SilenceEnd w rem b chunks tail b' -> forallb io_event tail = true.
Proof. intros [-> | -> | ? ? ? ->]; reflexivity. Qed.

Lemma hold_run_counts t : forall h h',
  hold_run h t = Some h' ->
  (acquisitions t + outstanding h = releases t + outstanding h')%nat.
Proof.
  unfold acquisitions, releases.
  induction t as [|e t IH]; intros h h' H.
  - injection H as <-. reflexivity.
  - cbn [hold_run] in H. destruct (hold_step h e) as [h1|] eqn:Hs; [|discriminate].
    specialize (IH _ _ H).
    destruct e; cbn [filter]; destruct h; cbn [hold_step] in Hs;
      try discriminate Hs; try (injection Hs as <-); try exact IH.
    + destruct (acquired hr); cbn [List.length outstanding] in *; lia.
    + destruct (numFrames =? z); [|discriminate]. injection Hs as <-.
      cbn [List.length outstanding] in *. lia.
Qed.

Lemma drain_round_holds w fs b k p body again b' :
  DrainRound w fs b k p body again b' ->
  hold_run None
    (EvGetBuffer (pk_hr p) (pk_numFrames p) (pk_flags p) :: body) = Some None.
Proof.
  intros [Ha -> _ _ | Ha Hz -> _ _ | chunks tail Ha Hn Hs -> _ _ Hend _
          | r Ha Hn Hs _ -> _ _]; cbn [hold_run hold_step]; rewrite Ha.
  - reflexivity.
  - cbn. rewrite Z.eqb_refl. reflexivity.
  - rewrite app_assoc, hold_run_app, hold_run_io.
    + cbn. rewrite Z.eqb_refl. reflexivity.
    + rewrite forallb_app, chunk_events_io, (silence_end_io _ _ _ _ _ _ Hend).
      reflexivity.
  - destruct (r <=? 0); cbn; rewrite Z.eqb_refl; reflexivity.
Qed.

Lemma setup_holds w : hold_run None (trace (started w)) = Some None.
Proof. unfold started. setup_exec; reflexivity. Qed.

Lemma loop_step_holds w fs ph m :
  hold_run None (trace m) = Some None ->
  wp (loop_step w fs ph) (fun _ m' => hold_run None (trace m') = Some None) m.
Proof.
  intros H. destruct ph; cbn [loop_step].
  - wp_exec; rewrite ?hold_run_app, H; reflexivity.
  - destruct (drain_body_shape w fs m) as (m' & again & body & E & Et & _ & _ & Hr).
    unfold wp, bind. rewrite E.
    destruct again; cbn; rewrite Et, hold_run_app, H;
      apply (drain_round_holds _ _ _ _ _ _ _ _ Hr).
  - exact H.
Qed.

(** * Silence on the data channel *)

Lemma bytes_written_app t u : bytes_written (t ++ u) = bytes_written t ++ bytes_written u.
Proof. unfold bytes_written. apply flat_map_app. Qed.

Lemma chunk_total_nonneg chunks :
  Forall (fun cr : Z * Z => 0 < fst cr) chunks -> 0 <= chunk_total chunks.
Proof.
  induction 1 as [|cr chunks Hc _ IH]; [cbn; lia|].
  rewrite chunk_total_cons. lia.
Qed.

(** Chunks written in full put as many zero bytes on the channel as
    they add up to. *)
Lemma bytes_written_chunks chunks :
  Forall (fun cr : Z * Z => 0 < fst cr /\ snd cr = fst cr) chunks ->
  bytes_written (chunk_events chunks) = zeros (chunk_total chunks).
Proof.
  induction 1 as [|[c r] chunks [Hc Hr] Hall IH]; [reflexivity|].
  cbn [fst snd] in Hc, Hr. subst r.
  rewrite chunk_total_cons. cbn [fst].
  rewrite zeros_add;
    [|lia|apply chunk_total_nonneg; eapply Forall_impl; [|exact Hall];
          cbn; intros ? []; assumption].
  change (chunk_events ((c, c) :: chunks))
    with ([EvLoadRunning true; EvWrite (zeros c) c] ++ chunk_events chunks).
  rewrite bytes_written_app, IH. f_equal.
  cbn. rewrite app_nil_r. unfold zeros.
  rewrite firstn_all2; [reflexivity | rewrite repeat_length; lia].
Qed.

(** With the flag never cleared and every write returning what it was
    asked for, the zero-fill loop ends with the buffer filled. *)
Lemma silence_end_filled w rem z chunks tail b :
  (forall k, ctrl_c w k = false) ->
  (forall k n, 0 < n -> write_ret w k n = n) ->
  Forall (fun cr => 0 < fst cr <= z
                    /\ exists k, snd cr = write_ret w k (fst cr)) chunks ->
  SilenceEnd w rem true chunks tail b ->
  tail = [] /\ chunk_total chunks = rem /\ b = true
  /\ Forall (fun cr => 0 < fst cr <= z /\ snd cr = fst cr) chunks.
Proof.
  intros Hctrl Hfull Hall Hend.
  assert (Hall' : Forall (fun cr => 0 < fst cr <= z /\ snd cr = fst cr) chunks).
  { eapply Forall_impl; [|exact Hall]. cbn. intros cr (Hc & k & ->).
    split; [exact Hc | apply Hfull; lia]. }
  destruct Hend as [-> _ Ht -> | _ _ _ [Hf | (k & Hk)] _ | init c r _ -> _ Hr _ _].
  - repeat split; auto. destruct (rem =? 0); reflexivity.
  - discriminate.
  - rewrite Hctrl in Hk. discriminate.
  - apply Forall_app in Hall'. destruct Hall' as (_ & Hlast).
    inversion Hlast as [|? ? [Hc Hrc] _]. cbn in Hc, Hrc. lia.
Qed.

(** * After a failed write *)






(** A round of the drain loop entered with the flag cleared. *)
Lemma drain_round_cleared w fs k p body again b' :
  DrainRound w fs false k p body again b' ->
  b' = false /\ forallb calm body = true
  /\ again = negb (drain_ends p).
Proof.
  unfold drain_ends.
  intros [Ha -> -> -> | Ha Hz -> -> -> | chunks tail Ha Hn Hs -> _ Hnil Hend ->
          | r Ha Hn Hs _ -> -> ->]; rewrite Ha.
  - auto.
  - rewrite Hz. auto.
  - rewrite (Hnil eq_refl) in *. apply Z.eqb_neq in Hn. rewrite Hn.
    destruct Hend as [-> _ Ht -> | -> _ _ _ -> | init c r _ Hc _ _ _ _].
    + cbn in Ht. rewrite <- Ht. auto.
    + auto.
    + destruct init; discriminate.
  - apply Z.eqb_neq in Hn. rewrite Hn. destruct (r <=? 0); auto.
Qed.




(** * Once the flag is cleared the loop ends with the drain *)

Lemma loop_step_running_cleared w fs m :
  g_running m = false ->
  loop_step w fs Running m
  = (emit (EvLoadRunning false) (tick_load (set_running false m)), Next Stopped).
Proof.
  intros H. cbn [loop_step]. unfold bind, load_running. rewrite H. reflexivity.
Qed.

Lemma capture_loop_running_cleared w fs fuel m :
  g_running m = false ->
  exists m', capture_loop w (S fuel) fs Running m = (m', Next Stopped).
Proof.
  intros H. cbn [capture_loop]. unfold bind.
  rewrite (loop_step_running_cleared w fs m H).
  eexists. destruct fuel; reflexivity.
Qed.

Lemma capture_loop_draining w fs fuel m m' again :
  drain_body w fs m = (m', Next again) ->
  capture_loop w (S fuel) fs Draining m
  = capture_loop w fuel fs (if again then Draining else Running) m'.
Proof.
  intros E. cbn [capture_loop loop_step]. unfold bind. rewrite E.
  destruct again; reflexivity.
Qed.

(** * The nested loops are runs of the machine *)

Lemma capture_loop_step w fs fuel ph m m' ph' :
  ph <> Stopped ->
  loop_step w fs ph m = (m', Next ph') ->
  capture_loop w (S fuel) fs ph m = capture_loop w fuel fs ph' m'.
Proof.
  intros Hph E. destruct ph; [| |contradiction];
    cbn [capture_loop]; unfold bind; rewrite E; reflexivity.
Qed.

Lemma drain_machine w fs : forall fuel m,
  exists k m' done,
    drain w fuel fs m = (m', Next done)
    /\ capture_loop w k fs Draining m
       = (m', Next (if done then Running else Draining)).
Proof.
  induction fuel as [|fuel IH]; intros m.
  - exists 0%nat, m, false. split; reflexivity.
  - destruct (drain_body_shape w fs m) as (m1 & again & _ & E & _).
    cbn [drain]. unfold bind at 1. rewrite E. destruct again.
    + destruct (IH m1) as (k & m' & done & Ed & Ec).
      exists (S k), m', done. split; [exact Ed|].
      rewrite (capture_loop_draining _ _ _ _ _ _ E). exact Ec.
    + exists 1%nat, m1, true. split; [reflexivity|].
      rewrite (capture_loop_draining _ _ _ _ _ _ E). reflexivity.
Qed.

Lemma capture_machine w fs : forall fuel m,
  exists k m' done ph,
    capture w fuel fs m = (m', Next done)
    /\ capture_loop w k fs Running m = (m', Next ph)
    /\ (done = true <-> ph = Stopped).
Proof.
  induction fuel as [|fuel IH]; intros m.
  - exists 0%nat, m, false, Running. repeat split; discriminate.
  - cbn [capture]. unfold bind at 1, load_running at 1.
    destruct (g_running m && negb (ctrl_c w (loads m))) eqn:Hv.
    2:{ exists 1%nat. eexists _, true, Stopped.
        split; [reflexivity|]. split; [|tauto].
        cbn [capture_loop loop_step]. unfold bind, load_running.
        rewrite Hv. reflexivity. }
    unfold bind at 1, WaitForSingleObject at 1.
    change (waits (emit (EvLoadRunning true) (tick_load (set_running true m))))
      with (waits m).
    set (m2 := emit (EvWaitCapture (wait_ret w (waits m))) _).
    assert (Estep : forall ph2,
              ph2 = (if wait_ret w (waits m) =? WAIT_OBJECT_0
                     then Draining else Running) ->
              loop_step w fs Running m = (m2, Next ph2)).
    { intros ph2 ->. cbn [loop_step]. unfold bind, load_running.
      rewrite Hv. unfold WaitForSingleObject.
      change (waits (emit (EvLoadRunning true)
                       (tick_load (set_running true m)))) with (waits m).
      fold m2. destruct (_ =? WAIT_OBJECT_0); reflexivity. }
    destruct (wait_ret w (waits m) =? WAIT_OBJECT_0).
    + destruct (drain_machine w fs fuel m2) as (k1 & m3 & drained & Ed & Ec).
      unfold bind at 1. rewrite Ed. destruct drained.
      * destruct (IH m3) as (k2 & m' & done & ph & Ecap & Eloop & Hiff).
        exists (S (k1 + k2)), m', done, ph. split; [exact Ecap|].
        split; [|exact Hiff].
        rewrite (capture_loop_step w fs _ Running m m2 Draining)
          by (try discriminate; apply Estep; reflexivity).
        rewrite capture_loop_add, Ec. exact Eloop.
      * exists (S k1), m3, false, Draining. split; [reflexivity|].
        split; [|split; discriminate].
        rewrite (capture_loop_step w fs _ Running m m2 Draining)
          by (try discriminate; apply Estep; reflexivity).
        exact Ec.
    + unfold bind at 1. cbn [ret].
      destruct (IH m2) as (k2 & m' & done & ph & Ecap & Eloop & Hiff).
      exists (S k2), m', done, ph. split; [exact Ecap|].
      split; [|exact Hiff].
      rewrite (capture_loop_step w fs _ Running m m2 Running)
        by (try discriminate; apply Estep; reflexivity).
      exact Eloop.
Qed.

Lemma wmain_nested_machine w fuel : exists k, wmain_nested w fuel = wmain w k.
Proof.
  unfold wmain_nested, wmain_nested_proc, wmain, wmain_proc.
  unfold bind at 1 3.
  destruct (wmain_setup w boot) as [m [fs | c]]; [|exists 0%nat; reflexivity].
  destruct (capture_machine w fs fuel m)
    as (k & m' & done & ph & Ecap & Eloop & Hiff).
  exists k. unfold bind. rewrite Ecap, Eloop.
  destruct done, ph; try reflexivity;
    try discriminate (proj1 Hiff eq_refl);
    discriminate (proj2 Hiff eq_refl).
Qed.

Lemma stop_when_cleared w fs : forall d ph m,
  g_running m = false ->
  (exists j, (j <= d)%nat /\ drain_ends (packet w (gets m + j)) = true) ->
  exists m', capture_loop w (d + 2) fs ph m = (m', Next Stopped).
Proof.
  induction d as [|d IH]; intros ph m Hrun (j & Hj & Hend).
  - assert (j = 0)%nat by lia. subst j. rewrite Nat.add_0_r in Hend.
    destruct ph.
    + apply capture_loop_running_cleared, Hrun.
    + destruct (drain_body_shape w fs m)
        as (m' & again & body & E & _ & _ & _ & Hr).
      rewrite Hrun in Hr.
      destruct (drain_round_cleared _ _ _ _ _ _ _ Hr) as (Hrun' & _ & Hag).
      rewrite Hend in Hag. cbn in Hag. subst again.
      change (0 + 2)%nat with (S 1).
      rewrite (capture_loop_draining _ _ _ _ _ _ E).
      apply capture_loop_running_cleared, Hrun'.
    + eexists. reflexivity.
  - destruct ph.
    + apply capture_loop_running_cleared, Hrun.
    + destruct (drain_body_shape w fs m)
        as (m' & again & body & E & _ & Eg & _ & Hr).
      rewrite Hrun in Hr.
      destruct (drain_round_cleared _ _ _ _ _ _ _ Hr) as (Hrun' & _ & Hag).
      change (S d + 2)%nat with (S (d + 2)).
      rewrite (capture_loop_draining _ _ _ _ _ _ E).
      destruct again.
      * apply IH; [exact Hrun'|].
        destruct j as [|j].
        -- rewrite Nat.add_0_r in Hend. rewrite Hend in Hag. discriminate.
        -- exists j. split; [lia|]. rewrite Eg.
           replace (S (gets m) + j)%nat with (gets m + S j)%nat by lia.
           exact Hend.
      * replace (d + 2)%nat with (S (d + 1)) by lia.
        apply capture_loop_running_cleared, Hrun'.
    + eexists. reflexivity.
Qed.




Lemma stopped_or_not ph : ph = Stopped \/ ph <> Stopped.
Proof. destruct ph; [right | right | left]; congruence. Qed.


Lemma wmain_looping w fuel :
  setup_ok w = true -> snd (loop_end w fuel) <> Stopped ->
  wmain w fuel = (trace (fst (loop_end w fuel)), StillRunning).
Proof.
  intros Hok Hph. rewrite wmain_unfold, Hok.
  destruct (snd (loop_end w fuel)); [reflexivity | reflexivity | contradiction].
Qed.

(** * Lengths of the writes *)

Lemma bytes_requested_app t u :
  bytes_requested (t ++ u) = bytes_requested t + bytes_requested u.
Proof.
  induction t as [|e t IH]; [reflexivity|].
  destruct e; cbn [app bytes_requested fold_right];
    fold (bytes_requested (t ++ u)); fold (bytes_requested t); lia.
Qed.

Lemma chunk_events_writes chunks :
  Forall (fun cr : Z * Z => 0 < fst cr <= sizeof_zeros) chunks ->
  writes_of (chunk_events chunks)
  = map (fun cr => (zeros (fst cr), snd cr)) chunks
  /\ bytes_requested (chunk_events chunks) = chunk_total chunks.
Proof.
  induction 1 as [|[c r] chunks Hc _ [IHw IHb]]; [split; reflexivity|].
  change (chunk_events ((c, r) :: chunks))
    with ([EvLoadRunning true; EvWrite (zeros c) r] ++ chunk_events chunks).
  rewrite writes_of_app, bytes_requested_app, IHw, IHb, chunk_total_cons.
  cbn [fst snd] in *. split; [reflexivity|].
  cbn. rewrite zeros_length by lia. lia.
Qed.

Lemma chunk_total_app a b : chunk_total (a ++ b) = chunk_total a + chunk_total b.
Proof.
  induction a as [|cr a IH]; [reflexivity|].
  change ((cr :: a) ++ b) with (cr :: (a ++ b)).
  rewrite !chunk_total_cons, IH. lia.
Qed.

Lemma silence_end_writes w rem b chunks tail b' n :
  SilenceEnd w rem b chunks tail b' ->
  Forall (fun cr : Z * Z => 0 < fst cr <= sizeof_zeros) chunks ->
  writes_of (tail ++ [EvReleaseBuffer n]) = []
  /\ bytes_requested (tail ++ [EvReleaseBuffer n]) = 0
  /\ chunk_total chunks <= rem
  /\ ((Forall (fun cr => 0 < snd cr) chunks /\ chunk_total chunks = rem)
      \/ (Forall (fun cr => 0 < snd cr) chunks
          /\ chunk_total chunks < rem
          /\ In (EvLoadRunning false)
               (chunk_events chunks ++ tail ++ [EvReleaseBuffer n]))
      \/ (exists init c r,
            chunks = init ++ [(c, r)]
            /\ Forall (fun cr => 0 < snd cr) init
            /\ r <= 0
            /\ chunk_total init < rem
            /\ In (EvStoreRunning false)
                 (chunk_events chunks ++ tail ++ [EvReleaseBuffer n]))).
Proof.
  intros [-> Hs Ht _ | -> Hs Ht _ _ | init c r -> -> Hs Hr Ht _] Hc;
    (split; [reflexivity|]); (split; [reflexivity|]); (split; [lia|]).
  - left. auto.
  - right. left. split; [exact Hs|]. split; [exact Ht|].
    apply in_or_app. right. cbn. tauto.
  - right. right. exists init, c, r.
    split; [reflexivity|]. split; [exact Hs|]. split; [exact Hr|]. split.
    + rewrite chunk_total_app, chunk_total_cons in Ht. cbn in Ht.
      apply Forall_app in Hc. destruct Hc as (_ & Hc).
      inversion Hc as [|? ? Hc1 _]; subst. cbn in Hc1. lia.
    + apply in_or_app. right. cbn. tauto.
Qed.

Lemma drain_round_writes w fs b k p body again b' :
  DrainRound w fs b k p body again b' ->
  round_writes fs
    (EvGetBuffer (pk_hr p) (pk_numFrames p) (pk_flags p) :: body).
Proof.
  intros [Ha -> _ _ | Ha Hz -> _ _ | chunks tail Ha Hn Hs -> Hall _ Hend _
          | r Ha Hn Hs _ -> _ _].
  - left. reflexivity.
  - left. reflexivity.
  - right. exists (pk_hr p), (pk_numFrames p), (pk_flags p). eexists.
    split; [reflexivity|]. split; [exact Ha|]. split; [exact Hn|].
    rewrite Hs. exists chunks.
    assert (Hc : Forall (fun cr : Z * Z => 0 < fst cr <= sizeof_zeros) chunks)
      by (eapply Forall_impl; [|exact Hall]; cbn; intros ? [? _]; assumption).
    destruct (chunk_events_writes chunks Hc) as (Ew & Eb).
    destruct (silence_end_writes _ _ _ _ _ _ (pk_numFrames p) Hend Hc)
      as (Ew' & Eb' & Hle & Hcase).
    rewrite writes_of_app, bytes_requested_app, Ew, Eb, Ew', Eb', app_nil_r.
    repeat split; auto. lia.
  - right. exists (pk_hr p), (pk_numFrames p), (pk_flags p). eexists.
    split; [reflexivity|]. split; [exact Ha|]. split; [exact Hn|].
    rewrite Hs. exists (pk_data p), r.
    split.
    + destruct (r <=? 0); reflexivity.
    + assert (Hl := buffer_bytes_length (pk_data p)
                      (byteCount_of (pk_numFrames p) fs)
                      (proj1 (byteCount_range _ _))).
      destruct (r <=? 0); cbn; lia.
Qed.

Lemma loop_step_in_rounds w fs m0 ph m :
  in_rounds fs m0 m -> wp (loop_step w fs ph) (fun _ m' => in_rounds fs m0 m') m.
Proof.
  intros (rounds & Et & Hall). unfold in_rounds.
  assert (Hadd : forall t r, t = trace m ++ r -> round_writes fs r ->
            exists rounds', t = trace m0 ++ List.concat rounds'
                            /\ Forall (round_writes fs) rounds').
  { intros t r Em Hr. exists (rounds ++ [r]). split.
    - rewrite Em, Et, List.concat_app, <- app_assoc. cbn. rewrite app_nil_r.
      reflexivity.
    - apply Forall_app. split; [exact Hall | constructor; [exact Hr | constructor]]. }
  destruct ph; cbn [loop_step].
  - wp_exec; (eapply Hadd; [trace_simpl; reflexivity | left; reflexivity]).
  - destruct (drain_body_shape w fs m)
      as (m' & again & body & E & Et' & _ & _ & Hr).
    unfold wp, bind. rewrite E.
    destruct again; cbn; (eapply Hadd; [exact Et'|]);
      apply (drain_round_writes _ _ _ _ _ _ _ _ Hr).
  - cbn. exists rounds. auto.
Qed.

(** * Format negotiation: what a failed query leads to *)

Ltac in_compute := vm_compute; repeat first [left; reflexivity | right].

(** C1, as the specification states it, fails: in [world_mix_efail] the
    query fails with [E_FAIL], which is not [E_NOTIMPL], and the fallback
    format is handed to [Initialize] all the same. *)
Lemma other_failure_still_initializes :
  ~ aborts_on_other_failure world_mix_efail.
Proof.
  intros H. apply (H 0%nat E_FAIL).
  - in_compute.
  - reflexivity.
  - discriminate.
  - exists fallbackFmt, S_OK. in_compute.
Qed.

(** C1 (amended). Whenever the mix-format query fails, with "not
    implemented" or with any other failure status, the negotiator falls
    back to the canonical descriptor and [Initialize] is called with it;
    no failure of the query aborts the session. The queried format is
    used exactly when the query succeeds. *)
Theorem mix_format_failure_falls_back w fuel hr :
  In (EvGetMixFormat hr) (fst (wmain w fuel)) ->
  (FAILED hr = true ->
     In (EvStderr (DMixFormatFallback hr)) (fst (wmain w fuel))
     /\ In (EvStderr (DFormat (describe fallbackFmt) true)) (fst (wmain w fuel))
     /\ In (EvInitialize fallbackFmt (hrInitialize w)) (fst (wmain w fuel)))
  /\ (FAILED hr = false ->
        ~ In (EvStderr (DMixFormatFallback hr)) (fst (wmain w fuel))
        /\ In (EvStderr (DFormat (describe (mixFormat w)) false))
             (fst (wmain w fuel))
        /\ In (EvInitialize (mixFormat w) (hrInitialize w)) (fst (wmain w fuel))).
Proof.
  intros H. apply in_wmain_in_setup in H; [|reflexivity].
  destruct (setup_negotiation w hr H) as (-> & Hd & Hi & Hf).
  unfold stream_header, negotiated in Hd, Hi.
  split; intros E; rewrite E in Hd, Hi.
  - repeat split; apply in_setup_in_wmain; auto. apply Hf, E.
  - repeat split; try (apply in_setup_in_wmain; assumption).
    intros Hin. apply in_wmain_in_setup in Hin; [|reflexivity].
    apply Hf in Hin. congruence.
Qed.

Lemma mix_format_failure_falls_back_witness :
  In (EvGetMixFormat E_FAIL) (fst (wmain world_mix_efail 0))
  /\ FAILED E_FAIL = true
  /\ In (EvInitialize fallbackFmt S_OK) (fst (wmain world_mix_efail 0)).
Proof.
  assert (H : In (EvGetMixFormat E_FAIL) (fst (wmain world_mix_efail 0)))
    by in_compute.
  split; [exact H|]. split; [reflexivity|].
  exact (proj2 (proj2 (proj1
    (mix_format_failure_falls_back world_mix_efail 0 E_FAIL H) eq_refl))).
Defined.

(** * The fallback descriptor *)

(** C5. The fallback descriptor is 48,000 Hz, 2 channels, 32-bit IEEE
    float in the extensible encoding with the front-left and front-right
    mask bits; its block alignment is channels times bytes per sample, 8,
    and its average byte rate is sample rate times block alignment,
    384,000. Whenever the query fails, this is the format [Initialize]
    gets, and the first bytes on the data channel are
    80 BB 00 00 02 00 20 00 03 00 00 00. *)
Theorem fallback_descriptor :
  (nSamplesPerSec (Format fallbackFmt) = 48000
   /\ nChannels (Format fallbackFmt) = 2
   /\ wBitsPerSample (Format fallbackFmt) = 32
   /\ wValidBitsPerSample fallbackFmt = 32
   /\ wFormatTag (Format fallbackFmt) = WAVE_FORMAT_EXTENSIBLE
   /\ Data1 (SubFormat fallbackFmt) = 3
   /\ dwChannelMask fallbackFmt = 3
   /\ Z.testbit (dwChannelMask fallbackFmt) 0 = true
   /\ Z.testbit (dwChannelMask fallbackFmt) 1 = true
   /\ nBlockAlign (Format fallbackFmt)
      = nChannels (Format fallbackFmt) * (wBitsPerSample (Format fallbackFmt) / 8)
   /\ nBlockAlign (Format fallbackFmt) = 8
   /\ nAvgBytesPerSec (Format fallbackFmt)
      = nSamplesPerSec (Format fallbackFmt) * nBlockAlign (Format fallbackFmt)
   /\ nAvgBytesPerSec (Format fallbackFmt) = 384000
   /\ header_bytes (describe fallbackFmt) = float48k_header_bytes)
  /\ forall w fuel,
       FAILED (hrGetMixFormat w) = true ->
       (forall fmt hr, In (EvInitialize fmt hr) (fst (wmain w fuel)) ->
                       fmt = fallbackFmt)
       /\ (forall pre buf r post,
             fst (wmain w fuel) = pre ++ EvWrite buf r :: post ->
             writes_of pre = [] ->
             buf = float48k_header_bytes).
Proof.
  split; [repeat split|].
  intros w fuel Hf. split.
  - intros fmt hr H. apply in_wmain_in_setup in H; [|reflexivity].
    revert H. unfold started.
    setup_exec; intros H; in_cases H; try congruence.
  - intros pre buf r post E Hp.
    destruct (first_write_run w fuel pre buf r post E Hp) as (-> & _).
    unfold stream_header, negotiated. rewrite Hf. reflexivity.
Qed.

Lemma fallback_descriptor_witness :
  FAILED (hrGetMixFormat world_mix_notimpl) = true
  /\ forall fmt hr,
       In (EvInitialize fmt hr) (fst (wmain world_mix_notimpl 3)) ->
       fmt = fallbackFmt.
Proof.
  split; [reflexivity|].
  exact (proj1 (proj2 fallback_descriptor world_mix_notimpl 3%nat eq_refl)).
Defined.

(** * The stream header *)

(** C7. When the format the run settles on, queried or fallback, has the
    extensible tag, the header's format tag is the first field of the
    sub-format GUID and its bits per sample is the valid-bits field: the
    header on the data channel is made of these, and the consumer reads
    them back. *)
Theorem extensible_unwrapped w fuel pre buf r post :
  wFormatTag (Format (negotiated w)) = WAVE_FORMAT_EXTENSIBLE ->
  fst (wmain w fuel) = pre ++ EvWrite buf r :: post ->
  writes_of pre = [] ->
  formatTag (stream_header w) = Data1 (SubFormat (negotiated w))
  /\ bitsPerSample (stream_header w) = wValidBitsPerSample (negotiated w)
  /\ buf = le32 (nSamplesPerSec (Format (negotiated w)))
           ++ le16 (nChannels (Format (negotiated w)))
           ++ le16 (wValidBitsPerSample (negotiated w))
           ++ le32 (Data1 (SubFormat (negotiated w)))
  /\ exists h, parse_header buf = Some h
               /\ formatTag h = u32 (Data1 (SubFormat (negotiated w)))
               /\ bitsPerSample h = u16 (wValidBitsPerSample (negotiated w)).
Proof.
  intros Ht E Hp.
  destruct (first_write_run w fuel pre buf r post E Hp) as (-> & _).
  assert (Hd : stream_header w =
               {| sampleRate := nSamplesPerSec (Format (negotiated w));
                  channels := nChannels (Format (negotiated w));
                  bitsPerSample := wValidBitsPerSample (negotiated w);
                  formatTag := Data1 (SubFormat (negotiated w)) |}).
  { unfold stream_header, describe. rewrite Ht. reflexivity. }
  rewrite Hd. repeat split.
  eexists. split; [apply parse_header_bytes|]. split; reflexivity.
Qed.

Lemma extensible_unwrapped_witness :
  wFormatTag (Format (negotiated world_mix_notimpl)) = WAVE_FORMAT_EXTENSIBLE
  /\ fst (wmain world_mix_notimpl 0)
     = firstn 19 (fst (wmain world_mix_notimpl 0))
       ++ EvWrite float48k_header_bytes 12
       :: skipn 20 (fst (wmain world_mix_notimpl 0))
  /\ writes_of (firstn 19 (fst (wmain world_mix_notimpl 0))) = []
  /\ formatTag (stream_header world_mix_notimpl) = 3.
Proof.
  assert (E : fst (wmain world_mix_notimpl 0)
              = firstn 19 (fst (wmain world_mix_notimpl 0))
                ++ EvWrite float48k_header_bytes 12
                :: skipn 20 (fst (wmain world_mix_notimpl 0)))
    by (vm_compute; reflexivity).
  assert (Hp : writes_of (firstn 19 (fst (wmain world_mix_notimpl 0))) = [])
    by (vm_compute; reflexivity).
  split; [reflexivity|]. split; [exact E|]. split; [exact Hp|].
  exact (proj1 (extensible_unwrapped world_mix_notimpl 0 _ _ _ _ eq_refl E Hp)).
Defined.

(** C4. The first [_write] of every run hands over the 12 bytes of the
    header: sample rate (4 bytes, little-endian), channels (2), bits per
    sample (2), format tag (4). No [Start] comes before it. A return
    value other than 12 is followed by the release of the handles and
    exit code 1. In a run that exits with 0 the full header write is the
    only write before [Start], and every later event belongs to the
    capture loop or to the cleanup. *)
Theorem header_first w fuel :
  (snd (wmain w fuel) = Exit 0 ->
   exists pre post,
     fst (wmain w fuel)
     = pre ++ EvWrite (header_bytes (stream_header w)) sizeof_AudioHeader
           :: EvStart (hrStart w) :: EvStderr (DStarted (excludePid w)) :: post
     /\ writes_of pre = [] /\ starts_of pre = []
     /\ forallb late_event post = true)
  /\ (forall pre buf r post,
        fst (wmain w fuel) = pre ++ EvWrite buf r :: post ->
        writes_of pre = [] ->
        buf = le32 (sampleRate (stream_header w))
              ++ le16 (channels (stream_header w))
              ++ le16 (bitsPerSample (stream_header w))
              ++ le32 (formatTag (stream_header w))
        /\ Z.of_nat (List.length buf) = sizeof_AudioHeader
        /\ starts_of pre = []
        /\ (r = sizeof_AudioHeader ->
            exists post', post = EvStart (hrStart w) :: post')
        /\ (r <> sizeof_AudioHeader ->
            post = header_failed_events /\ snd (wmain w fuel) = Exit 1)).
Proof.
  split.
  - intros Hexit.
    assert (Hok : setup_ok w = true).
    { rewrite wmain_unfold in Hexit. destruct (setup_ok w); [reflexivity|].
      cbn in Hexit. discriminate. }
    pose proof (setup_header w) as Hh.
    destruct (split_write (trace (started w))) as [[[[p b] r0] q]|] eqn:Hs.
    + destruct Hh as (-> & -> & Hp & -> & Hiff).
      destruct (proj1 Hiff Hok) as (Hr & Hst).
      apply split_write_sound in Hs. destruct Hs as (Es & Hw).
      destruct (wmain_prefix w fuel) as (evs & Et & Fl & _).
      exists p, evs. rewrite Et, Es. unfold after_header.
      rewrite Hr, Hst, <- app_assoc. cbn. auto.
    + destruct Hh as (Hno & _). congruence.
  - intros pre buf r post E Hp.
    destruct (first_write_run w fuel pre buf r post E Hp)
      as (-> & Hr & Hs & Hiff & evs & -> & Fl & Hnil).
    repeat split; auto.
    + intros ->. unfold after_header. cbn. eauto.
    + assert (Hok : setup_ok w = false).
      { destruct (setup_ok w); [|reflexivity].
        destruct (proj1 Hiff eq_refl). contradiction. }
      unfold after_header. apply Z.eqb_neq in H. rewrite H.
      rewrite (Hnil Hok), app_nil_r. reflexivity.
    + assert (Hok : setup_ok w = false).
      { destruct (setup_ok w); [|reflexivity].
        destruct (proj1 Hiff eq_refl). contradiction. }
      rewrite wmain_unfold, Hok. reflexivity.
Qed.

Lemma header_first_witness :
  snd (wmain world_mix_pcm16 5) = Exit 0
  /\ exists pre post,
       fst (wmain world_mix_pcm16 5)
       = pre ++ EvWrite (header_bytes (stream_header world_mix_pcm16))
                  sizeof_AudioHeader
             :: EvStart (hrStart world_mix_pcm16)
             :: EvStderr (DStarted (excludePid world_mix_pcm16)) :: post
       /\ writes_of pre = [] /\ starts_of pre = []
       /\ forallb late_event post = true.
Proof.
  split; [reflexivity|].
  exact (proj1 (header_first world_mix_pcm16 5) eq_refl).
Defined.

(** * Exit codes *)

Lemma exit_zero_iff w fuel :
  snd (wmain w fuel) = Exit 0
  <-> setup_ok w = true /\ snd (loop_end w fuel) = Stopped.
Proof.
  rewrite wmain_unfold.
  destruct (setup_ok w); [destruct (snd (loop_end w fuel))|]; cbn;
    split; try tauto; try discriminate; intros (? & ?); discriminate.
Qed.

(** C8. The exit code is 0 or 1. It is 0 exactly when [Start] succeeded
    and the run reached [Stop], which it does only after reading the
    shutdown flag as cleared. It is 1 exactly when a setup step fails:
    a missing argument, COM initialisation, activation, initialisation,
    event binding, the capture service, the header write or [Start].
    When activation fails nothing is written to the data channel. *)
Theorem exit_codes w fuel :
  (forall c, snd (wmain w fuel) = Exit c -> c = 0 \/ c = 1)
  /\ (snd (wmain w fuel) = Exit 0
      <-> (exists hr, In (EvStart hr) (fst (wmain w fuel)) /\ FAILED hr = false)
          /\ In EvStop (fst (wmain w fuel)))
  /\ (snd (wmain w fuel) = Exit 0 ->
      exists pre,
        fst (wmain w fuel) = pre ++ EvLoadRunning false :: cleanup_events)
  /\ (snd (wmain w fuel) = Exit 1 <-> setup_ok w = false)
  /\ (argc w < 2 \/ FAILED (hrCoInitializeEx w) = true
      \/ FAILED (hrActivateAsync w) = true \/ activation_ok w = false
      \/ FAILED (hrInitialize w) = true \/ FAILED (hrSetEventHandle w) = true
      \/ FAILED (hrGetService w) = true
      \/ write_ret w 0 12 <> sizeof_AudioHeader
      \/ FAILED (hrStart w) = true ->
      snd (wmain w fuel) = Exit 1)
  /\ (FAILED (hrActivateAsync w) = true \/ activation_ok w = false ->
      writes_of (fst (wmain w fuel)) = []).
Proof.
  assert (Hone : snd (wmain w fuel) = Exit 1 <-> setup_ok w = false).
  { rewrite wmain_unfold.
    destruct (setup_ok w); [destruct (snd (loop_end w fuel))|]; cbn;
      split; try tauto; discriminate. }
  refine (conj _ (conj _ (conj _ (conj Hone (conj _ _))))).
  - intros c. rewrite wmain_unfold.
    destruct (setup_ok w); [destruct (snd (loop_end w fuel))|]; cbn;
      intros H; try discriminate; injection H as <-; auto.
  - rewrite exit_zero_iff. split.
    + intros (Hok & Hst). split.
      * exists (hrStart w). split.
        -- apply in_setup_in_wmain.
           apply (proj2 (setup_started w (hrStart w))). auto.
        -- apply (proj2 (setup_started w (hrStart w))). auto.
      * rewrite wmain_unfold, Hok, Hst. cbn [fst].
        apply in_or_app. right. cbn. tauto.
    + intros ((hr & Hin & Hf) & Hstop).
      apply in_wmain_in_setup in Hin; [|reflexivity].
      destruct (proj1 (setup_started w hr) (conj Hin Hf)) as (_ & Hok).
      split; [exact Hok|].
      rewrite wmain_unfold, Hok in Hstop.
      destruct (snd (loop_end w fuel)); try reflexivity; cbn [fst] in Hstop;
        destruct (loop_end_extends w fuel) as (evs & E & F);
        rewrite E in Hstop; apply in_app_or in Hstop;
        (destruct Hstop as [Hs | Hs]; [destruct (setup_never_stops w Hs)|]);
        rewrite forallb_forall in F; apply F in Hs; discriminate.
  - intros Hz. apply exit_zero_iff in Hz. destruct Hz as (Hok & Hst).
    rewrite wmain_unfold, Hok, Hst. cbn [fst].
    pose proof (capture_loop_stopped w fuel (frameSize w) (started w)) as H.
    unfold wp in H. rewrite loop_end_eq in H.
    destruct (H Hst) as (pre & ->). exists pre.
    rewrite <- app_assoc. reflexivity.
  - intros H. apply Hone. unfold setup_ok.
    destruct H as [H | [H | [H | [H | [H | [H | [H | [H | H]]]]]]]];
      try (rewrite H; cbn [negb andb]; rewrite ?andb_false_r; reflexivity).
    + apply Z.ltb_lt in H. rewrite H. reflexivity.
    + apply Z.eqb_neq in H. rewrite H.
      cbn [negb andb]; rewrite ?andb_false_r; reflexivity.
  - intros H. destruct (setup_activation_failed w H) as (Hok & Hw).
    rewrite wmain_unfold, Hok. exact Hw.
Qed.

Lemma exit_codes_witness :
  snd (wmain world_mix_pcm16 5) = Exit 0
  /\ exists pre,
       fst (wmain world_mix_pcm16 5) = pre ++ EvLoadRunning false :: cleanup_events.
Proof.
  split; [reflexivity|].
  exact (proj1 (proj2 (proj2 (exit_codes world_mix_pcm16 5))) eq_refl).
Defined.

(** * The command line *)

(** C10, as stated, fails on ["-1"]: the string does not start with a
    digit, [_wtoi] reads it as -1, and the excluded process id is
    4294967295, not 0. *)
Lemma minus_one_is_converted :
  ~ non_digit_start_excludes_zero world_minus_one.
Proof.
  intros H. destruct (H "-1"%string 0%nat eq_refl eq_refl) as (hr & Hin).
  vm_compute in Hin.
  repeat match type of Hin with
         | _ \/ _ => destruct Hin as [Hin | Hin]
         end; try discriminate Hin; contradiction.
Qed.

(** C10 (amended). The argument is converted without validation. When,
    after optional leading white space and an optional sign, it does not
    go on with a decimal digit, the excluded process id is 0 and the
    program goes on to COM initialisation and, when that succeeds, to
    the activation with target 0; no usage error is reported. The usage
    error, with exit code 1, is taken exactly when the argument is
    missing. *)
Theorem argument_not_validated w fuel :
  (forall arg,
     nth_error (argv w) 1 = Some arg ->
     Crt.starts_with_digit (Crt.numeral arg) = false ->
     excludePid w = 0
     /\ ~ In (EvStderr DUsage) (fst (wmain w fuel))
     /\ In (EvCoInitializeEx (hrCoInitializeEx w)) (fst (wmain w fuel))
     /\ (FAILED (hrCoInitializeEx w) = false ->
         In (EvActivateAsync AC_ACTIVATION_TYPE_PROCESS_LOOPBACK 0
               PL_MODE_EXCLUDE_TARGET_PROCESS_TREE (hrActivateAsync w))
            (fst (wmain w fuel))))
  /\ (In (EvStderr DUsage) (fst (wmain w fuel)) <-> argc w < 2)
  /\ (argc w < 2 -> wmain w fuel = ([EvStderr DUsage], Exit 1)).
Proof.
  assert (Husage : In (EvStderr DUsage) (trace (started w)) <-> argc w < 2).
  { unfold started. rewrite <- Z.ltb_lt.
    setup_exec;
      (split; [intros H; in_cases H; reflexivity
              | intros H; first [discriminate | in_now]]). }
  refine (conj _ (conj _ _)).
  - intros arg Harg Hnum.
    assert (Hpid : excludePid w = 0).
    { unfold excludePid. rewrite (nth_error_nth _ _ _ Harg).
      rewrite (wtoi_no_digit _ Hnum). reflexivity. }
    assert (Hargc : (argc w <? 2) = false).
    { apply Z.ltb_ge. unfold argc.
      assert (1 < List.length (argv w))%nat
        by (apply nth_error_Some; congruence).
      lia. }
    split; [exact Hpid|]. split; [|split].
    + intros H. apply in_wmain_in_setup in H; [|reflexivity].
      apply Husage in H. apply Z.ltb_lt in H. congruence.
    + apply in_setup_in_wmain. revert Hargc. unfold started.
      setup_exec; intros H; try discriminate; in_now.
    + intros Hco. apply in_setup_in_wmain. revert Hargc Hco.
      unfold excludePid in Hpid. unfold started.
      setup_exec; rewrite ?Hpid; intros H1 H2; try discriminate; in_now.
  - split.
    + intros H. apply in_wmain_in_setup in H; [|reflexivity].
      apply Husage, H.
    + intros H. apply in_setup_in_wmain, Husage, H.
  - intros H. apply Z.ltb_lt in H.
    assert (Hok : setup_ok w = false) by (unfold setup_ok; rewrite H; reflexivity).
    rewrite wmain_unfold, Hok. unfold started, wmain_setup.
    rewrite H. reflexivity.
Qed.

Lemma argument_not_validated_witness :
  nth_error (argv world_not_a_number) 1 = Some "abc12"%string
  /\ Crt.starts_with_digit (Crt.numeral "abc12") = false
  /\ excludePid world_not_a_number = 0.
Proof.
  split; [reflexivity|]. split; [reflexivity|].
  exact (proj1 (proj1 (argument_not_validated world_not_a_number 0)
                  "abc12"%string eq_refl eq_refl)).
Defined.

(** * Acquired and released buffers *)

(** C9. In every run each buffer a [GetBuffer] hands over is given back
    by one [ReleaseBuffer], with the frame count it came with, before the
    next [GetBuffer], the next wait on the capture event and [Stop]; on
    every path through the round, the zero-frame exit and the failed
    writes included. Nothing is released that was not acquired. So the
    two calls are equal in number. *)
Theorem buffers_released_once w fuel :
  hold_run None (fst (wmain w fuel)) = Some None
  /\ acquisitions (fst (wmain w fuel)) = releases (fst (wmain w fuel)).
Proof.
  assert (H : hold_run None (fst (wmain w fuel)) = Some None).
  { rewrite wmain_unfold. destruct (setup_ok w); [|apply setup_holds].
    assert (Hl : hold_run None (trace (fst (loop_end w fuel))) = Some None).
    { pose proof (capture_loop_inv w
                    (fun _ m => hold_run None (trace m) = Some None)
                    (frameSize w)
                    (fun ph m _ => loop_step_holds w (frameSize w) ph m)
                    fuel Running (started w) (setup_holds w)) as Hinv.
      unfold wp in Hinv. rewrite loop_end_eq in Hinv. exact Hinv. }
    destruct (snd (loop_end w fuel)); cbn [fst]; try exact Hl.
    rewrite hold_run_app, Hl. reflexivity. }
  split; [exact H|].
  pose proof (hold_run_counts _ _ _ H) as Hc. cbn in Hc. lia.
Qed.

(** * Silence on the data channel *)

(** C3. For a buffer flagged silent, with the shutdown flag never
    cleared and every write returning the count it was asked for, the
    round writes chunks of zero bytes, none longer than 8192, each after
    a read of the flag, and what reaches the data channel between
    [GetBuffer] and [ReleaseBuffer] is [byteCount] zero bytes, which is
    [numFrames * frameSize] whenever that product fits the 32 bits it is
    computed in. The zero-fill loop puts the same bytes on the channel
    for every size of the chunk buffer. *)
Theorem silent_buffer_zero_fill w fs m :
  acquired (pk_hr (packet w (gets m))) = true ->
  pk_numFrames (packet w (gets m)) <> 0 ->
  silent (pk_flags (packet w (gets m))) = true ->
  g_running m = true ->
  (forall k, ctrl_c w k = false) ->
  (forall k n, 0 < n -> write_ret w k n = n) ->
  (exists chunks m',
     drain_body w fs m = (m', Next true)
     /\ trace m' = trace m
                   ++ EvGetBuffer (pk_hr (packet w (gets m)))
                        (pk_numFrames (packet w (gets m)))
                        (pk_flags (packet w (gets m)))
                   :: chunk_events chunks
                   ++ [EvReleaseBuffer (pk_numFrames (packet w (gets m)))]
     /\ Forall (fun cr => 0 < fst cr <= 8192 /\ snd cr = fst cr) chunks
     /\ bytes_written (chunk_events chunks)
        = zeros (byteCount_of (pk_numFrames (packet w (gets m))) fs)
     /\ (0 <= pk_numFrames (packet w (gets m)) * fs < 2 ^ 32 ->
         bytes_written (chunk_events chunks)
         = zeros (pk_numFrames (packet w (gets m)) * fs)
         /\ Z.of_nat (List.length (bytes_written (chunk_events chunks)))
            = pk_numFrames (packet w (gets m)) * fs)
     /\ g_running m' = true)
  /\ (forall z byteCount,
        0 < z -> 0 <= byteCount < 2 ^ 32 ->
        exists chunks m',
          write_silence w z byteCount m = (m', Next tt)
          /\ trace m' = trace m ++ chunk_events chunks
          /\ Forall (fun cr => 0 < fst cr <= z /\ snd cr = fst cr) chunks
          /\ bytes_written (chunk_events chunks) = zeros byteCount).
Proof.
  intros Ha Hn Hs Hrun Hctrl Hfull. split.
  - destruct (drain_body_shape w fs m)
      as (m' & again & body & E & Et & _ & _ & Hr).
    rewrite Hrun in Hr.
    destruct Hr as [Ha' | _ Hz | chunks tail _ _ _ -> Hall _ Hend -> | r _ _ Hs' ];
      try congruence.
    destruct (silence_end_filled _ _ _ _ _ _ Hctrl Hfull Hall Hend)
      as (-> & Htot & Hb & Hall').
    exists chunks, m'. split; [exact E|]. split; [exact Et|].
    split; [exact Hall'|].
    assert (Hbytes : bytes_written (chunk_events chunks)
                     = zeros (byteCount_of (pk_numFrames (packet w (gets m))) fs)).
    { rewrite <- Htot. apply bytes_written_chunks.
      eapply Forall_impl; [|exact Hall']. cbn. intros ? [[] ?]. auto. }
    split; [exact Hbytes|]. split; [|exact Hb].
    intros Hfit.
    assert (Eq : byteCount_of (pk_numFrames (packet w (gets m))) fs
                 = pk_numFrames (packet w (gets m)) * fs)
      by (unfold byteCount_of, u32; apply Z.mod_small; exact Hfit).
    rewrite Hbytes, Eq. split; [reflexivity|].
    unfold zeros. rewrite repeat_length. lia.
  - intros z byteCount Hz Hb. unfold write_silence.
    destruct (silence_loop_shape w z Hz (S (Z.to_nat byteCount)) byteCount m Hb)
      as (chunks & tail & m' & E & Et & _ & _ & Hall & _ & Hend); [lia|].
    rewrite Hrun in Hend.
    destruct (silence_end_filled _ _ _ _ _ _ Hctrl Hfull Hall Hend)
      as (-> & Htot & _ & Hall').
    exists chunks, m'. rewrite app_nil_r in Et.
    repeat split; auto.
    rewrite <- Htot. apply bytes_written_chunks.
    eapply Forall_impl; [|exact Hall']. cbn. intros ? [[] ?]. auto.
Qed.

Lemma silent_buffer_zero_fill_witness :
  acquired (pk_hr (packet world_silence (gets boot))) = true
  /\ pk_numFrames (packet world_silence (gets boot)) <> 0
  /\ silent (pk_flags (packet world_silence (gets boot))) = true
  /\ g_running boot = true
  /\ exists chunks m',
       drain_body world_silence 8 boot = (m', Next true)
       /\ trace m' = trace boot
                     ++ EvGetBuffer S_OK 1500 AUDCLNT_BUFFERFLAGS_SILENT
                     :: chunk_events chunks ++ [EvReleaseBuffer 1500]
       /\ Forall (fun cr => 0 < fst cr <= 8192 /\ snd cr = fst cr) chunks
       /\ bytes_written (chunk_events chunks) = zeros (byteCount_of 1500 8)
       /\ (0 <= 1500 * 8 < 2 ^ 32 ->
           bytes_written (chunk_events chunks) = zeros (1500 * 8)
           /\ Z.of_nat (List.length (bytes_written (chunk_events chunks)))
              = 1500 * 8)
       /\ g_running m' = true.
Proof.
  split; [reflexivity|]. split; [discriminate|]. split; [reflexivity|].
  split; [reflexivity|].
  refine (proj1 (silent_buffer_zero_fill world_silence 8 boot _ _ _ _ _ _));
    first [reflexivity | discriminate | intros; reflexivity].
Defined.

(** * After a failed write *)




(** * Lengths of the writes *)




(** * More of the program *)

(** ** The stream on the data channel *)

Lemma bytes_written_no_write t : writes_of t = [] -> bytes_written t = [].
Proof.
  induction t as [|e t IH]; [reflexivity|].
  destruct e; cbn; auto. discriminate.
Qed.

Lemma getbuffers_app t u : getbuffers (t ++ u) = (getbuffers t + getbuffers u)%nat.
Proof. unfold getbuffers. rewrite filter_app, length_app. reflexivity. Qed.

Lemma getbuffers_io t : forallb io_event t = true -> getbuffers t = 0%nat.
Proof.
  unfold getbuffers. induction t as [|e t IH]; [reflexivity|]. cbn [forallb].
  intros H. apply andb_true_iff in H. destruct H as [He H].
  destruct e; try discriminate He; cbn; auto.
Qed.

Lemma setup_no_getbuffer w : getbuffers (trace (started w)) = 0%nat.
Proof. unfold started. setup_exec; reflexivity. Qed.

Lemma drain_round_asks_once w fs b k p body again b' :
  DrainRound w fs b k p body again b' -> getbuffers body = 0%nat.
Proof.
  intros [Ha -> _ _ | Ha Hz -> _ _ | chunks tail Ha Hn Hs -> _ _ Hend _
          | r Ha Hn Hs _ -> _ _]; try reflexivity.
  - rewrite !getbuffers_app, (getbuffers_io _ (chunk_events_io chunks)),
      (getbuffers_io _ (silence_end_io _ _ _ _ _ _ Hend)). reflexivity.
  - destruct (r <=? 0); reflexivity.
Qed.

Lemma setup_stream w :
  setup_ok w = true ->
  bytes_written (trace (started w)) = header_bytes (stream_header w).
Proof.
  intros Hok. pose proof (setup_header w) as Hh.
  destruct (split_write (trace (started w))) as [[[[p b] r] q]|] eqn:Hs.
  - destruct Hh as (-> & Hr & _ & -> & Hiff).
    destruct (proj1 Hiff Hok) as (Hr12 & Hst).
    apply split_write_sound in Hs. destruct Hs as (-> & Hp).
    rewrite bytes_written_app, (bytes_written_no_write _ Hp).
    unfold after_header. rewrite Hr12, Hst. cbn.
    rewrite app_nil_r. reflexivity.
  - destruct Hh as (Hno & _). congruence.
Qed.

(** An undisturbed round puts the payload of its packet on the channel
    and leaves the flag set. *)
Lemma drain_round_payload w fs k p body again b' :
  (forall j, ctrl_c w j = false) ->
  (forall j n, 0 < n -> write_ret w j n = n) ->
  (drain_ends p = false -> 0 < byteCount_of (pk_numFrames p) fs) ->
  DrainRound w fs true k p body again b' ->
  bytes_written body = payload fs p /\ b' = true.
Proof.
  intros Hctrl Hfull Hpos.
  unfold payload, drain_ends in *.
  intros [Ha -> _ -> | Ha Hz -> _ -> | chunks tail Ha Hn Hs -> Hall _ Hend _
          | r Ha Hn Hs Hr -> _ ->]; rewrite Ha in *; cbn [negb orb] in *.
  - auto.
  - rewrite Hz. auto.
  - apply Z.eqb_neq in Hn. rewrite Hn, Hs in *.
    destruct (silence_end_filled _ _ _ _ _ _ Hctrl Hfull Hall Hend)
      as (-> & Htot & -> & Hall').
    split; [|reflexivity].
    rewrite bytes_written_app, <- Htot. cbn. rewrite app_nil_r.
    apply bytes_written_chunks.
    eapply Forall_impl; [|exact Hall']. cbn. intros ? [[] ?]. auto.
  - apply Z.eqb_neq in Hn. rewrite Hn, Hs in *.
    specialize (Hpos eq_refl).
    rewrite (Hfull _ _ Hpos) in Hr. subst r.
    destruct (Z.leb_spec (byteCount_of (pk_numFrames p) fs) 0); [lia|].
    split; [|reflexivity]. cbn. rewrite app_nil_r.
    apply firstn_all2.
    pose proof (buffer_bytes_length (pk_data p)
                  (byteCount_of (pk_numFrames p) fs)). lia.
Qed.

Lemma stream_of_next w n :
  stream_of w (S n) = stream_of w n ++ payload (frameSize w) (packet w n).
Proof.
  unfold stream_of. rewrite seq_S, flat_map_app. cbn. rewrite app_nil_r.
  reflexivity.
Qed.

Lemma steady_quiet w m m' t :
  steady w m ->
  g_running m' = true ->
  gets m' = gets m ->
  trace m' = trace m ++ t ->
  getbuffers t = 0%nat ->
  bytes_written t = [] ->
  steady w m'.
Proof.
  intros (_ & Hg & Hb) Hrun Eg Et Hn Hw. unfold steady.
  rewrite Hrun, Eg, Et, getbuffers_app, bytes_written_app, Hn, Hw, <- Hg, Hb.
  rewrite app_nil_r, Nat.add_0_r. auto.
Qed.

Lemma loop_step_steady w ph m :
  (forall j, ctrl_c w j = false) ->
  (forall j n, 0 < n -> write_ret w j n = n) ->
  (forall i, drain_ends (packet w i) = false ->
             0 < byteCount_of (pk_numFrames (packet w i)) (frameSize w)) ->
  steady w m ->
  wp (loop_step w (frameSize w) ph) (fun _ m' => steady w m') m.
Proof.
  intros Hctrl Hfull Hpos (Hrun & Hg & Hb).
  destruct ph; cbn [loop_step].
  - unfold wp, bind, load_running. rewrite Hrun, Hctrl. cbn [andb negb].
    unfold WaitForSingleObject.
    destruct (_ =? WAIT_OBJECT_0);
      (eapply (steady_quiet w m _ [EvLoadRunning true; EvWaitCapture _]);
       [ split; [exact Hrun | split; [exact Hg | exact Hb]]
       | reflexivity | reflexivity
       | cbn; rewrite <- app_assoc; reflexivity
       | reflexivity | reflexivity ]).
  - destruct (drain_body_shape w (frameSize w) m)
      as (m' & again & body & E & Et & Eg & _ & Hr).
    rewrite Hrun in Hr.
    destruct (drain_round_payload _ _ _ _ _ _ _ Hctrl Hfull (Hpos _) Hr)
      as (Hpay & Hrun').
    assert (Hs : steady w m').
    { unfold steady. split; [exact Hrun'|]. rewrite Et, Eg. split.
      - rewrite getbuffers_app. change (EvGetBuffer ?a ?b ?c :: body)
          with ([EvGetBuffer a b c] ++ body).
        rewrite getbuffers_app, (drain_round_asks_once _ _ _ _ _ _ _ _ Hr), <- Hg.
        cbn. lia.
      - rewrite bytes_written_app, Hb, stream_of_next, <- app_assoc.
        f_equal. f_equal. exact Hpay. }
    unfold wp, bind. rewrite E. destruct again; exact Hs.
  - unfold wp, ret. split; [exact Hrun | split; [exact Hg | exact Hb]].
Qed.

(** With a frame size equal to the block alignment and a size that fits
    32 bits, the payload of a buffer is the whole buffer. *)
Lemma payload_whole w p :
  frameSize w = nBlockAlign (Format (negotiated w)) ->
  0 <= pk_numFrames p -> held_bytes w p < 2 ^ 32 ->
  payload (frameSize w) p = whole_buffer w p.
Proof.
  intros Hal Hn Hfit. unfold payload, whole_buffer.
  assert (E : byteCount_of (pk_numFrames p) (frameSize w) = held_bytes w p).
  { unfold byteCount_of, u32, held_bytes in *. rewrite <- Hal in *.
    assert (0 <= frameSize w)
      by (unfold frameSize, frameSize_of, u32; apply Z.mod_pos_bound; lia).
    apply Z.mod_small. nia. }
  rewrite E. reflexivity.
Qed.

Lemma stream_whole w n :
  frameSize w = nBlockAlign (Format (negotiated w)) ->
  (forall i, 0 <= pk_numFrames (packet w i)
             /\ held_bytes w (packet w i) < 2 ^ 32) ->
  stream_of w n = buffers_of w n.
Proof.
  intros Hal Hfit. unfold stream_of, buffers_of.
  apply flat_map_ext. intros i.
  apply payload_whole; [exact Hal | apply Hfit | apply Hfit].
Qed.

(** X1. In a run that nothing disturbs (every write takes all it is
    given, no Ctrl+C, no buffer of zero bytes) the data channel carries
    the header and then, in the order of the [GetBuffer] calls, the
    first [byteCount] bytes of each buffer, or as many zero bytes for a
    silent buffer. When the frame size is the block alignment of the
    format the stream was initialised with, and the sizes of the
    buffers fit 32 bits, these are the buffers in full: nothing is
    added, dropped or reordered. *)
Theorem stream_is_header_then_packets w fuel :
  setup_ok w = true ->
  (forall j, ctrl_c w j = false) ->
  (forall j n, 0 < n -> write_ret w j n = n) ->
  (forall i, drain_ends (packet w i) = false ->
             0 < byteCount_of (pk_numFrames (packet w i)) (frameSize w)) ->
  bytes_written (fst (wmain w fuel))
  = header_bytes (stream_header w)
    ++ stream_of w (getbuffers (fst (wmain w fuel)))
  /\ (frameSize w = nBlockAlign (Format (negotiated w)) ->
      (forall i, 0 <= pk_numFrames (packet w i)
                 /\ held_bytes w (packet w i) < 2 ^ 32) ->
      bytes_written (fst (wmain w fuel))
      = header_bytes (stream_header w)
        ++ buffers_of w (getbuffers (fst (wmain w fuel)))).
Proof.
  intros Hok Hctrl Hfull Hpos.
  assert (Hmain : bytes_written (fst (wmain w fuel))
                  = header_bytes (stream_header w)
                    ++ stream_of w (getbuffers (fst (wmain w fuel)))).
  { assert (Hs : steady w (fst (loop_end w fuel))).
    { pose proof (capture_loop_inv w (fun _ m => steady w m) (frameSize w)
                    (fun ph m _ => loop_step_steady w ph m Hctrl Hfull Hpos)
                    fuel Running (started w)) as Hinv.
      unfold wp in Hinv. rewrite loop_end_eq in Hinv. apply Hinv.
      destruct (setup_ok_run w Hok) as (_ & Hrun & _ & _ & Hg & _).
      split; [exact Hrun|].
      rewrite Hg, setup_no_getbuffer, setup_stream by exact Hok.
      split; [reflexivity|]. change (stream_of w 0) with (@nil Z).
      rewrite app_nil_r. reflexivity. }
    destruct Hs as (_ & Hg & Hb).
    rewrite wmain_unfold, Hok.
    destruct (snd (loop_end w fuel)); cbn [fst];
      rewrite ?bytes_written_app, ?getbuffers_app, Hb, <- Hg;
      change (bytes_written cleanup_events) with (@nil Z);
      change (getbuffers cleanup_events) with 0%nat;
      rewrite ?app_nil_r, ?Nat.add_0_r; reflexivity. }
  split; [exact Hmain|].
  intros Hal Hfit. rewrite Hmain, (stream_whole w _ Hal Hfit). reflexivity.
Qed.

Lemma stream_is_header_then_packets_witness :
  setup_ok world_stream = true
  /\ frameSize world_stream = nBlockAlign (Format (negotiated world_stream))
  /\ bytes_written (fst (wmain world_stream 4))
     = header_bytes (stream_header world_stream)
       ++ buffers_of world_stream (getbuffers (fst (wmain world_stream 4))).
Proof.
  split; [reflexivity|]. split; [reflexivity|].
  refine (proj2 (stream_is_header_then_packets world_stream 4 _ _ _ _) _ _).
  - reflexivity.
  - intros j. reflexivity.
  - intros j n _. reflexivity.
  - intros i. cbn [packet world_stream world].
    destruct (i =? 0)%nat; [reflexivity|].
    destruct (i =? 1)%nat; [reflexivity | discriminate].
  - reflexivity.
  - intros i. cbn [packet world_stream world].
    destruct (i =? 0)%nat; [split; [discriminate | reflexivity]|].
    destruct (i =? 1)%nat; split; first [discriminate | reflexivity].
Defined.

(** ** Invariants of the capture loop

    A property of the machine that each call made from the loop keeps
    (a write together with the store that follows a failed one) holds
    at every loop head. *)

Section Keeps.

Variable w : World.
Variable I : Machine -> Prop.

Hypothesis I_load : forall m, I m -> I (fst (load_running w m)).
Hypothesis I_write : forall buf m, I m ->
  if write_ret w (writes m) (Z.of_nat (List.length buf)) <=? 0
  then I (fst (store_running false (fst (_write w buf m))))
  else I (fst (_write w buf m)).
Hypothesis I_wait : forall m, I m -> I (fst (WaitForSingleObject w m)).
Hypothesis I_get : forall m, I m -> I (fst (GetBuffer w m)).
Hypothesis I_release : forall n m, I m -> I (emit (EvReleaseBuffer n) m).

Lemma silence_loop_keeps z fuel : forall rem m,
  I m -> wp (silence_loop w z fuel rem) (fun _ m' => I m') m.
Proof.
  induction fuel as [|fuel IH]; intros rem m Hm; cbn [silence_loop].
  - exact Hm.
  - destruct (rem >? 0); [|exact Hm].
    rewrite wp_bind. unfold wp at 1.
    pose proof (I_load m Hm) as Hl. unfold load_running in *. cbn [fst] in Hl.
    destruct (g_running m && negb (ctrl_c w (loads m))); [|exact Hl].
    rewrite wp_bind. unfold wp at 1.
    match goal with |- context [_write w ?b] => pose proof (I_write b _ Hl) as Hw end.
    unfold _write in *. cbn [fst] in Hw.
    destruct (_ <=? 0); [exact Hw | apply IH, Hw].
Qed.

Lemma drain_body_keeps fs m :
  I m -> wp (drain_body w fs) (fun _ m' => I m') m.
Proof.
  intros Hm. unfold drain_body. rewrite wp_bind. unfold wp at 1.
  pose proof (I_get m Hm) as Hg. unfold GetBuffer in *. cbn [fst] in Hg.
  destruct (_ || _); [exact Hg|].
  destruct (_ =? 0); [apply I_release, Hg|].
  rewrite wp_bind.
  destruct (negb _).
  - eapply wp_mono; [apply silence_loop_keeps, Hg|].
    intros u m' Hm'. apply I_release, Hm'.
  - rewrite wp_bind. unfold wp at 1.
    match goal with |- context [_write w ?b] => pose proof (I_write b _ Hg) as Hw end.
    unfold _write in *. cbn [fst] in Hw.
    destruct (_ <=? 0); apply I_release, Hw.
Qed.

Lemma loop_step_keeps fs ph m :
  I m ->
  wp (loop_step w fs ph)
     (fun ph' m' => I m' /\ (ph <> Stopped -> ph' = Stopped -> g_running m' = false))
     m.
Proof.
  intros Hm. destruct ph; cbn [loop_step].
  - rewrite wp_bind. unfold wp at 1.
    pose proof (I_load m Hm) as Hl. unfold load_running in *. cbn [fst] in Hl.
    destruct (g_running m && negb (ctrl_c w (loads m))).
    + rewrite wp_bind. unfold wp at 1.
      pose proof (I_wait _ Hl) as Hw. unfold WaitForSingleObject in *.
      cbn [fst] in Hw.
      destruct (_ =? WAIT_OBJECT_0); (split; [exact Hw | discriminate]).
    + split; [exact Hl | reflexivity].
  - rewrite wp_bind. eapply wp_mono; [apply drain_body_keeps, Hm|].
    intros again m' Hm'. destruct again; (split; [exact Hm' | discriminate]).
  - split; [exact Hm | congruence].
Qed.

Lemma capture_loop_keeps fs fuel : forall ph m,
  I m -> (ph = Stopped -> g_running m = false) ->
  wp (capture_loop w fuel fs ph)
     (fun ph' m' => I m' /\ (ph' = Stopped -> g_running m' = false)) m.
Proof.
  induction fuel as [|fuel IH]; intros ph m Hm Hs.
  - split; assumption.
  - destruct (stopped_or_not ph) as [-> | Hph]; [split; assumption|].
    assert (E : capture_loop w (S fuel) fs ph
                = bind (loop_step w fs ph) (capture_loop w fuel fs))
      by (destruct ph; [reflexivity | reflexivity | congruence]).
    rewrite E, wp_bind.
    eapply wp_mono; [apply loop_step_keeps, Hm|].
    intros ph' m' (Hm' & Hs'). apply IH; auto.
Qed.

End Keeps.

(** ** Why the capture loop ends *)

Lemma loads_of_app t u : loads_of (t ++ u) = (loads_of t + loads_of u)%nat.
Proof. unfold loads_of. rewrite filter_app, length_app. reflexivity. Qed.

Lemma write_failed_app t u :
  write_failed (t ++ u) <-> write_failed t \/ write_failed u.
Proof.
  unfold write_failed. split.
  - intros (b & r & Hin & Hr). apply in_app_or in Hin.
    destruct Hin; [left | right]; eauto.
  - intros [(b & r & Hin & Hr) | (b & r & Hin & Hr)];
      exists b, r; (split; [apply in_or_app; auto | exact Hr]).
Qed.

Lemma write_failed_one e :
  write_failed [e] <-> exists b r, e = EvWrite b r /\ r <= 0.
Proof.
  unfold write_failed. split.
  - intros (b & r & [-> | []] & Hr). eauto.
  - intros (b & r & -> & Hr). exists b, r. cbn. auto.
Qed.

Lemma pressed_quiet w t e :
  is_load e = false -> pressed w (t ++ [e]) <-> pressed w t.
Proof.
  intros He. unfold pressed, loads_of.
  rewrite filter_app. cbn [filter]. rewrite He, app_nil_r. reflexivity.
Qed.

Lemma pressed_load w t v :
  pressed w (t ++ [EvLoadRunning v])
  <-> pressed w t \/ ctrl_c w (loads_of t) = true.
Proof.
  unfold pressed. rewrite loads_of_app. cbn. split.
  - intros (k & Hk & Hc).
    destruct (Nat.eq_dec k (loads_of t)) as [-> | Hne]; [auto|].
    left. exists k. split; [lia | exact Hc].
  - intros [(k & Hk & Hc) | Hc].
    + exists k. split; [lia | exact Hc].
    + exists (loads_of t). split; [lia | exact Hc].
Qed.

(** An event that is neither a read of the flag nor a write changes
    nothing of the account. *)
Lemma accounted_quiet w m m' e :
  accounted w m ->
  is_load e = false -> is_write e = false ->
  g_running m' = g_running m -> loads m' = loads m ->
  trace m' = trace m ++ [e] ->
  accounted w m'.
Proof.
  intros (Hl & Hiff) He Hw Eg El Et. unfold accounted.
  rewrite Eg, El, Et, loads_of_app, pressed_quiet, write_failed_app,
    write_failed_one by exact He.
  split.
  - unfold loads_of at 2. cbn. rewrite He. cbn. lia.
  - rewrite Hiff. split; [tauto|].
    intros [H | [H | (b & r & -> & _)]]; [tauto | tauto | discriminate Hw].
Qed.

Section Cause.

Variable w : World.

Lemma accounted_load m : accounted w m -> accounted w (fst (load_running w m)).
Proof.
  intros (Hl & Hiff). unfold accounted, load_running.
  cbn [fst emit tick_write tick_load set_running g_running loads trace].
  rewrite loads_of_app, pressed_load, write_failed_app, write_failed_one, <- Hl.
  split; [cbn; lia|].
  rewrite andb_false_iff, negb_false_iff, Hiff. split; [tauto|].
  intros [[H | H] | [H | (b & r & E & _)]]; [tauto | tauto | tauto | discriminate E].
Qed.

Lemma accounted_write buf m :
  accounted w m ->
  if write_ret w (writes m) (Z.of_nat (List.length buf)) <=? 0
  then accounted w (fst (store_running false (fst (_write w buf m))))
  else accounted w (fst (_write w buf m)).
Proof.
  intros (Hl & Hiff).
  destruct (Z.leb_spec (write_ret w (writes m) (Z.of_nat (List.length buf))) 0)
    as [Hr | Hr]; unfold accounted, store_running, _write;
    cbn [fst emit tick_write tick_load set_running g_running loads trace].
  - rewrite !loads_of_app, <- Hl. split; [cbn; lia|].
    split; [|reflexivity]. intros _. right.
    rewrite !write_failed_app, write_failed_one. left. right. eauto.
  - rewrite loads_of_app, <- Hl. split; [cbn; lia|].
    rewrite pressed_quiet, write_failed_app, write_failed_one, Hiff by reflexivity.
    split; [tauto|].
    intros [H | [H | (b & r & E & Hle)]]; [tauto | tauto |].
    injection E as <- <-. lia.
Qed.

Lemma capture_loop_accounted fs fuel m :
  accounted w m ->
  wp (capture_loop w fuel fs Running)
     (fun ph' m' => accounted w m' /\ (ph' = Stopped -> g_running m' = false)) m.
Proof.
  intros Hm.
  apply (capture_loop_keeps w (accounted w)); try assumption; try discriminate.
  - apply accounted_load.
  - apply accounted_write.
  - intros m0 H0.
    refine (accounted_quiet w m0 _ (EvWaitCapture _) H0 _ _ _ _ _); reflexivity.
  - intros m0 H0.
    refine (accounted_quiet w m0 _ (EvGetBuffer _ _ _) H0 _ _ _ _ _); reflexivity.
  - intros n m0 H0.
    refine (accounted_quiet w m0 _ (EvReleaseBuffer _) H0 _ _ _ _ _); reflexivity.
Qed.

Lemma setup_accounted : setup_ok w = true -> accounted w (started w).
Proof.
  intros Hok.
  destruct (setup_ok_run w Hok) as (_ & Hrun & Hl & _).
  unfold accounted. rewrite Hrun, Hl.
  assert (Hn : loads_of (trace (started w)) = 0%nat)
    by (unfold started; setup_exec; reflexivity).
  split; [symmetry; exact Hn|].
  split; [discriminate|].
  intros [(k & Hk & _) | (b & r & Hin & Hr)]; [lia|].
  exfalso.
  pose proof (setup_header w) as Hh.
  destruct (split_write (trace (started w))) as [[[[p b0] r0] q]|] eqn:Hs.
  - destruct Hh as (-> & Hr0 & _ & -> & Hiff).
    destruct (proj1 Hiff Hok) as (Hr12 & Hst).
    apply split_write_sound in Hs. destruct Hs as (Et & Hp).
    rewrite Et in Hin. apply in_app_or in Hin. destruct Hin as [Hin | Hin].
    + assert (In (b, r) (writes_of p))
        by (unfold writes_of; apply in_flat_map; eexists; split;
            [exact Hin | cbn; auto]).
      rewrite Hp in *. contradiction.
    + unfold after_header in Hin. rewrite Hr12, Hst in Hin.
      unfold sizeof_AudioHeader in *.
      cbn in Hin. destruct Hin as [E | [E | [E | []]]]; try discriminate E.
      injection E as <- <-. lia.
  - destruct Hh as (Hno & _). congruence.
Qed.

End Cause.

(** X2. The program ends with exit code 0 only for a cause: Ctrl+C
    reached the handler before one of the reads of [g_running] the run
    made, or a write returned zero or less. No answer of the event
    wait or of [GetBuffer], failures included, ends it. *)
Theorem exit_zero_has_a_cause w fuel :
  snd (wmain w fuel) = Exit 0 ->
  pressed w (fst (wmain w fuel)) \/ write_failed (fst (wmain w fuel)).
Proof.
  rewrite wmain_unfold.
  destruct (setup_ok w) eqn:Hok; [|discriminate].
  pose proof (capture_loop_accounted w (frameSize w) fuel (started w)
                (setup_accounted w Hok)) as Hinv.
  unfold wp in Hinv. rewrite loop_end_eq in Hinv.
  destruct Hinv as ((_ & Hiff) & Hs).
  destruct (snd (loop_end w fuel)); try discriminate. intros _. cbn [fst].
  destruct (proj1 Hiff (Hs eq_refl)) as [(k & Hk & Hc) | Hf].
  - left. exists k. split; [|exact Hc]. rewrite loads_of_app. lia.
  - right. apply write_failed_app. auto.
Qed.

Lemma exit_zero_has_a_cause_witness :
  pressed world_mix_pcm16 (fst (wmain world_mix_pcm16 3))
  \/ write_failed (fst (wmain world_mix_pcm16 3)).
Proof. apply (exit_zero_has_a_cause world_mix_pcm16 3). reflexivity. Defined.

(** ** Ctrl+C ends the program *)

Lemma drain_round_again w fs b k p body again b' :
  DrainRound w fs b k p body again b' -> again = negb (drain_ends p).
Proof.
  unfold drain_ends.
  intros [Ha _ -> _ | Ha Hz _ -> _ | chunks tail Ha Hn _ _ _ _ _ ->
          | r Ha Hn _ _ _ -> _]; rewrite Ha; cbn [negb orb].
  - reflexivity.
  - rewrite Hz. reflexivity.
  - apply Z.eqb_neq in Hn. rewrite Hn. reflexivity.
  - apply Z.eqb_neq in Hn. rewrite Hn. reflexivity.
Qed.

Lemma capture_loop_at_stopped w fs fuel m :
  capture_loop w fuel fs Stopped m = (m, Next Stopped).
Proof. destruct fuel; reflexivity. Qed.

Section Liveness.

Variable w : World.
Variable k : nat.
Hypothesis Hpress : ctrl_c w k = true.
Hypothesis Hdrain : forall i, exists j, drain_ends (packet w (i + j)) = true.

Lemma heard_load n m :
  heard k n m -> heard k (S n) (fst (load_running w m)).
Proof.
  intros (Hn & Hk). unfold heard, load_running.
  cbn [fst emit tick_load set_running g_running loads].
  split; [lia|]. intros Hlt.
  destruct (Nat.eq_dec k (loads m)) as [<- | Hne].
  - rewrite Hpress. apply andb_false_r.
  - rewrite Hk by lia. reflexivity.
Qed.

Lemma heard_less n n' m : (n' <= n)%nat -> heard k n m -> heard k n' m.
Proof. intros Hle (Hn & Hk). split; [lia | exact Hk]. Qed.

Lemma drain_body_heard fs n m :
  heard k n m -> wp (drain_body w fs) (fun _ m' => heard k n m') m.
Proof.
  apply (drain_body_keeps w (heard k n)).
  - intros m0 H0. apply (heard_less (S n)); [lia | apply heard_load, H0].
  - intros buf m0 (Hn & Hk). unfold heard, store_running, _write.
    cbn [fst emit tick_write set_running g_running loads].
    destruct (_ <=? 0); auto.
  - intros m0 H0. exact H0.
  - intros f m0 H0. exact H0.
Qed.

(** A drain loop that ends gets back to the outer loop head. *)
Lemma drain_reaches_running fs n : forall d m,
  heard k n m ->
  (exists j, (j <= d)%nat /\ drain_ends (packet w (gets m + j)) = true) ->
  exists f m', capture_loop w f fs Draining m = (m', Next Running)
               /\ heard k n m'.
Proof.
  induction d as [|d IH]; intros m Hm (j & Hj & Hend);
    destruct (drain_body_shape w fs m)
      as (m' & again & body & E & _ & Eg & _ & Hr);
    pose proof (drain_body_heard fs n m Hm) as Hm';
    unfold wp in Hm'; rewrite E in Hm';
    pose proof (drain_round_again _ _ _ _ _ _ _ _ Hr) as Hag.
  - assert (j = 0)%nat by lia. subst j. rewrite Nat.add_0_r in Hend.
    rewrite Hend in Hag. cbn in Hag. subst again.
    exists 1%nat, m'. rewrite (capture_loop_draining _ _ _ _ _ _ E).
    split; [reflexivity | exact Hm'].
  - destruct again.
    + destruct j as [|j].
      { rewrite Nat.add_0_r in Hend. rewrite Hend in Hag. discriminate. }
      destruct (IH m' Hm') as (f & m'' & Ef & Hm'').
      { exists j. split; [lia|]. rewrite Eg.
        replace (S (gets m) + j)%nat with (gets m + S j)%nat by lia.
        exact Hend. }
      exists (S f), m''. rewrite (capture_loop_draining _ _ _ _ _ _ E).
      split; assumption.
    + exists 1%nat, m'. rewrite (capture_loop_draining _ _ _ _ _ _ E).
      split; [reflexivity | exact Hm'].
Qed.

(** A visit of the outer loop head reads the flag once. *)
Lemma running_step_heard fs n m :
  heard k n m ->
  exists m' ph', loop_step w fs Running m = (m', Next ph')
                 /\ heard k (S n) m'.
Proof.
  intros Hm. pose proof (heard_load n m Hm) as Hl.
  cbn [loop_step]. unfold bind, load_running in *. cbn [fst] in Hl.
  destruct (g_running m && negb (ctrl_c w (loads m))).
  - unfold WaitForSingleObject.
    destruct (_ =? WAIT_OBJECT_0); do 2 eexists; (split; [reflexivity|]);
      exact Hl.
  - do 2 eexists. split; [reflexivity | exact Hl].
Qed.

Lemma cleared_reaches_stopped fs ph m :
  g_running m = false ->
  exists f m', capture_loop w f fs ph m = (m', Next Stopped).
Proof.
  intros Hrun. destruct (Hdrain (gets m)) as (j & Hj).
  destruct (stop_when_cleared w fs j ph m Hrun) as (m' & E).
  - exists j. split; [lia | exact Hj].
  - eauto.
Qed.

Lemma heard_reaches_stopped fs : forall c ph m n,
  heard k n m -> (k < n + c)%nat ->
  exists f m', capture_loop w f fs ph m = (m', Next Stopped).
Proof.
  induction c as [|c IH]; intros ph m n Hm Hlt.
  - apply cleared_reaches_stopped. destruct Hm as (Hn & Hk). apply Hk. lia.
  - assert (HR : forall m1, heard k n m1 ->
              exists f m', capture_loop w f fs Running m1 = (m', Next Stopped)).
    { intros m1 Hm1.
      destruct (running_step_heard fs n m1 Hm1) as (m2 & ph2 & E & Hm2).
      destruct (IH ph2 m2 (S n) Hm2) as (f & m3 & Ef); [lia|].
      exists (S f), m3.
      rewrite (capture_loop_step w fs f Running m1 m2 ph2); [exact Ef | | exact E].
      discriminate. }
    destruct ph.
    + apply HR, Hm.
    + destruct (Hdrain (gets m)) as (j & Hj).
      destruct (drain_reaches_running fs n j m Hm) as (f1 & m1 & E1 & Hm1).
      { exists j. split; [lia | exact Hj]. }
      destruct (HR m1 Hm1) as (f2 & m2 & E2).
      exists (f1 + f2)%nat, m2. rewrite capture_loop_add, E1. exact E2.
    + exists 0%nat, m. reflexivity.
Qed.

End Liveness.

(** X3. Once Ctrl+C has reached the handler the program ends with exit
    code 0, after the cleanup of lines 452-457, provided every drain
    loop ends, that is, [GetBuffer] does not hand over buffers without
    end. From some number of loop-head visits on the run is the same. *)
Theorem ctrl_c_ends_the_program w k :
  setup_ok w = true ->
  ctrl_c w k = true ->
  (forall i, exists j, drain_ends (packet w (i + j)) = true) ->
  exists fuel t, forall n, wmain w (fuel + n) = (t ++ cleanup_events, Exit 0).
Proof.
  intros Hok Hpress Hdrain.
  destruct (setup_ok_run w Hok) as (_ & _ & Hl & _).
  destruct (heard_reaches_stopped w k Hpress Hdrain (frameSize w) (S k)
              Running (started w) 0%nat) as (f & m' & E).
  - split; [lia|]. rewrite Hl. lia.
  - lia.
  - exists f, (trace m'). intros n.
    assert (El : loop_end w (f + n) = (m', Stopped)).
    { unfold loop_end. rewrite capture_loop_add, E, capture_loop_at_stopped.
      reflexivity. }
    rewrite wmain_unfold, Hok, El. reflexivity.
Qed.

Lemma ctrl_c_ends_the_program_witness :
  exists fuel t, forall n,
    wmain world_mix_pcm16 (fuel + n) = (t ++ cleanup_events, Exit 0).
Proof.
  apply (ctrl_c_ends_the_program world_mix_pcm16 2).
  - reflexivity.
  - reflexivity.
  - intros i. exists 0%nat. reflexivity.
Defined.

(** ** Buffers without end *)

Lemma capture_loop_flooded w fs :
  (forall i, drain_ends (packet w i) = false) ->
  forall fuel m, exists m', capture_loop w fuel fs Draining m = (m', Next Draining).
Proof.
  intros Hflood. induction fuel as [|fuel IH]; intros m.
  - exists m. reflexivity.
  - destruct (drain_body_shape w fs m)
      as (m' & again & body & E & _ & _ & _ & Hr).
    apply drain_round_again in Hr. rewrite Hflood in Hr. subst again.
    rewrite (capture_loop_draining _ _ _ _ _ _ E). apply IH.
Qed.

(** X4. The drain loop of lines 412-447 does not test [g_running]
    between two buffers: as long as [GetBuffer] hands over a buffer at
    every call, the program does not leave it, whatever Ctrl+C does
    later and whatever the writes return. *)
Theorem flood_keeps_the_loop w fuel :
  setup_ok w = true ->
  ctrl_c w 0%nat = false ->
  wait_ret w 0%nat = WAIT_OBJECT_0 ->
  (forall i, drain_ends (packet w i) = false) ->
  snd (wmain w fuel) = StillRunning.
Proof.
  intros Hok Hc Hwait Hflood.
  destruct (setup_ok_run w Hok) as (_ & Hrun & Hl & _ & _ & Hw).
  assert (Hph : snd (loop_end w fuel) <> Stopped).
  { unfold loop_end. destruct fuel as [|fuel]; [discriminate|].
    cbn [capture_loop loop_step]. unfold bind at 1 2, load_running.
    rewrite Hrun, Hl, Hc. cbn [andb negb]. unfold bind at 1, WaitForSingleObject.
    cbn [waits emit tick_load set_running tick_wait]. rewrite Hw, Hwait.
    cbn [Z.eqb WAIT_OBJECT_0 Pos.eqb ret].
    match goal with |- context [capture_loop w fuel ?fs Draining ?m] =>
      destruct (capture_loop_flooded w fs Hflood fuel m) as (m' & ->) end.
    discriminate. }
  rewrite (wmain_looping w fuel Hok Hph). reflexivity.
Qed.

Lemma flood_keeps_the_loop_witness :
  snd (wmain world_flood 40) = StillRunning.
Proof.
  apply (flood_keeps_the_loop world_flood 40).
  - reflexivity.
  - reflexivity.
  - reflexivity.
  - intros i. reflexivity.
Defined.

(** ** What the process holds *)

Lemma ledger_app r t : forall h fb u,
  ledger r h fb (t ++ u)
  = match ledger r h fb t with
    | Some h' => ledger r h' (fb || existsb falls_back t) u
    | None => None
    end.
Proof.
  induction t as [|e t IH]; intros h fb u.
  - cbn. rewrite orb_false_r. reflexivity.
  - cbn [app ledger existsb]. rewrite orb_assoc.
    destruct (acquires r e); [destruct h; auto|].
    destruct (gives_back r e); [destruct h; auto|].
    destruct (uses r fb e && negb h); auto.
Qed.

Lemma ledger_loop r evs :
  forallb loop_event evs = true ->
  forall fb, ledger r (persists r) fb evs = Some (persists r).
Proof.
  induction evs as [|e evs IH]; [reflexivity|]. cbn [forallb].
  intros H fb. apply andb_true_iff in H. destruct H as [He H].
  destruct e; try discriminate He; destruct r;
    cbn [ledger acquires gives_back uses persists negb andb];
    apply IH, H.
Qed.

Lemma ledger_cleanup r fb :
  ledger r (persists r) fb cleanup_events = Some false.
Proof. destruct r, fb; reflexivity. Qed.

Lemma setup_ledger w r :
  ledger r false false (trace (started w)) = Some (setup_ok w && persists r).
Proof.
  unfold started, setup_ok, activation_ok.
  setup_exec; rewrite ?header_length in *; change (Z.of_nat 12) with 12 in *;
    repeat match goal with
           | E : negb _ = _ |- _ =>
               first [apply negb_true_iff in E | apply negb_false_iff in E]
           end;
    destruct r;
    repeat (cbn [ledger acquires gives_back uses falls_back persists
                 negb andb orb];
            match goal with E : ?c = _ |- context [?c] => rewrite E end);
    cbn [ledger acquires gives_back uses falls_back persists negb andb orb];
    rewrite ?andb_false_r; reflexivity.
Qed.

(** X5. On every path through [wmain] each resource (COM, the handler
    reference, the audio client, the mix-format memory, the capture
    event, the capture client, the started stream) is acquired before
    it is used, never given back twice or used after that, and given
    back by the time the program returns, whatever the exit code. The
    mix-format memory is read for the format line and by [Initialize]
    before [CoTaskMemFree], and not at all when the fallback is in use;
    the wait on the capture event, [GetBuffer] and [ReleaseBuffer] are
    called only between a successful [Start] and [Stop]. *)
Theorem resources_given_back w fuel r :
  exists h, ledger r false false (fst (wmain w fuel)) = Some h
            /\ (forall c, snd (wmain w fuel) = Exit c -> h = false).
Proof.
  rewrite wmain_unfold. destruct (setup_ok w) eqn:Hok.
  - destruct (loop_end_extends w fuel) as (evs & E & F).
    assert (Hl : ledger r false false (trace (fst (loop_end w fuel)))
                 = Some (persists r)).
    { rewrite E, ledger_app, setup_ledger, Hok. apply ledger_loop, F. }
    destruct (snd (loop_end w fuel)); cbn [fst snd].
    + exists (persists r). split; [exact Hl | discriminate].
    + exists (persists r). split; [exact Hl | discriminate].
    + exists false. split; [|reflexivity].
      rewrite ledger_app, Hl. apply ledger_cleanup.
  - exists false. cbn [fst snd]. rewrite setup_ledger, Hok. auto.
Qed.

(** ** The process id on the command line *)

Lemma digit_range d :
  0 <= d <= 9 ->
  d = 0 \/ d = 1 \/ d = 2 \/ d = 3 \/ d = 4 \/ d = 5 \/ d = 6 \/ d = 7
  \/ d = 8 \/ d = 9.
Proof. lia. Qed.

Lemma digit_of_digit_char d :
  0 <= d <= 9 -> Crt.digit (digit_char d) = Some d.
Proof.
  intros H. apply digit_range in H.
  repeat (destruct H as [-> | H]; [reflexivity|]). subst d. reflexivity.
Qed.

Lemma wtoi_at_digit d r :
  0 <= d <= 9 ->
  Crt.wtoi (String (digit_char d) r)
  = Crt.saturate (Crt.digits 0 (String (digit_char d) r)).
Proof.
  intros H. apply digit_range in H.
  repeat (destruct H as [-> | H]; [reflexivity|]). subst d. reflexivity.
Qed.

Lemma digits_decimal junk :
  Crt.starts_with_digit junk = false ->
  forall ds acc,
    Forall (fun d => 0 <= d <= 9) ds ->
    Crt.digits acc (decimal ds ++ junk)
    = fold_left (fun a d => 10 * a + d) ds acc.
Proof.
  intros Hj. induction ds as [|d ds IH]; intros acc Hds.
  - apply digits_no_digit, Hj.
  - inversion Hds as [|? ? Hd Hds']; subst.
    cbn [decimal fold_right String.append Crt.digits fold_left].
    rewrite (digit_of_digit_char d Hd). apply IH, Hds'.
Qed.

Lemma fold_digits_nonneg ds : forall acc,
  0 <= acc -> Forall (fun d => 0 <= d <= 9) ds ->
  0 <= fold_left (fun a d => 10 * a + d) ds acc.
Proof.
  induction ds as [|d ds IH]; intros acc Hacc Hds; [exact Hacc|].
  inversion Hds; subst. cbn [fold_left]. apply IH; [lia | assumption].
Qed.

Lemma setup_activation w :
  (argc w <? 2) = false ->
  FAILED (hrCoInitializeEx w) = false ->
  In (EvActivateAsync AC_ACTIVATION_TYPE_PROCESS_LOOPBACK (excludePid w)
        PL_MODE_EXCLUDE_TARGET_PROCESS_TREE (hrActivateAsync w))
     (trace (started w)).
Proof.
  unfold started, excludePid.
  setup_exec; intros H1 H2; try discriminate; in_now.
Qed.

(** X6. A process id written in decimal, whatever follows the digits,
    is the process id that activation is asked to exclude, as long as
    it is at most [INT_MAX]; a larger one becomes 2147483647. *)
Theorem decimal_pid_is_excluded w fuel prog ds junk more :
  argv w = prog :: (decimal ds ++ junk)%string :: more ->
  ds <> [] ->
  Forall (fun d => 0 <= d <= 9) ds ->
  Crt.starts_with_digit junk = false ->
  FAILED (hrCoInitializeEx w) = false ->
  excludePid w = Z.min (value ds) INT_MAX
  /\ In (EvActivateAsync AC_ACTIVATION_TYPE_PROCESS_LOOPBACK
           (Z.min (value ds) INT_MAX)
           PL_MODE_EXCLUDE_TARGET_PROCESS_TREE (hrActivateAsync w))
        (fst (wmain w fuel)).
Proof.
  intros Hargv Hne Hds Hjunk Hco.
  assert (Hpid : excludePid w = Z.min (value ds) INT_MAX).
  { unfold excludePid. rewrite Hargv. cbn [List.nth].
    destruct ds as [|d ds]; [contradiction|].
    assert (Hd : 0 <= d <= 9) by (inversion Hds; assumption).
    change (decimal (d :: ds) ++ junk)%string
      with (String (digit_char d) (decimal ds ++ junk)).
    rewrite (wtoi_at_digit d _ Hd).
    change (String (digit_char d) (decimal ds ++ junk))
      with (decimal (d :: ds) ++ junk)%string.
    rewrite (digits_decimal junk Hjunk (d :: ds) 0 Hds).
    fold (value (d :: ds)).
    pose proof (fold_digits_nonneg (d :: ds) 0 (Z.le_refl 0) Hds) as Hv.
    fold (value (d :: ds)) in Hv.
    unfold Crt.saturate, u32, INT_MIN, INT_MAX in *.
    rewrite Z.mod_small; lia. }
  split; [exact Hpid|].
  rewrite <- Hpid. apply in_setup_in_wmain, setup_activation; [|exact Hco].
  unfold argc. rewrite Hargv. cbn [List.length]. apply Z.ltb_ge. lia.
Qed.

Lemma decimal_pid_is_excluded_witness :
  excludePid world_stream = Z.min (value [1; 2; 3; 4]) INT_MAX
  /\ In (EvActivateAsync AC_ACTIVATION_TYPE_PROCESS_LOOPBACK
           (Z.min (value [1; 2; 3; 4]) INT_MAX)
           PL_MODE_EXCLUDE_TARGET_PROCESS_TREE (hrActivateAsync world_stream))
        (fst (wmain world_stream 0)).
Proof.
  apply (decimal_pid_is_excluded world_stream 0 "audio-capture.exe"%string
           [1; 2; 3; 4] EmptyString []).
  - reflexivity.
  - discriminate.
  - repeat constructor; lia.
  - reflexivity.
  - reflexivity.
Defined.

(** ** The activation handshake *)

Lemma setup_handshake w hr :
  In (EvStderr (DNoAudioClient hr)) (trace (started w)) ->
  setup_ok w = false
  /\ (forall hr', ~ In (EvGetMixFormat hr') (trace (started w)))
  /\ (FAILED (m_hrActivate w) = true ->
      hr = m_hrActivate w
      /\ forall hr', ~ In (EvQueryInterface hr') (trace (started w)))
  /\ (FAILED (m_hrActivate w) = false -> m_pActivated w = false ->
      hr = E_FAIL
      /\ forall hr', ~ In (EvQueryInterface hr') (trace (started w)))
  /\ (FAILED (m_hrActivate w) = false -> m_pActivated w = true ->
      hr = hrQI w /\ In (EvQueryInterface (hrQI w)) (trace (started w))
      /\ (FAILED hr = true \/ qiClient w = false)).
Proof.
  unfold started, setup_ok, activation_ok.
  setup_exec; intros H; in_cases H; injection H as <-;
    repeat match goal with
           | E : negb _ = _ |- _ =>
               first [apply negb_true_iff in E | apply negb_false_iff in E]
           end;
    repeat match goal with E : ?c = _ |- context [?c] => rewrite E end;
    cbn [negb andb orb]; rewrite ?andb_false_r.
  all: try congruence.
  all: repeat match goal with
              | |- false = true -> _ => discriminate
              | |- true = false -> _ => discriminate
              | |- _ = _ -> _ => intros _
              | |- _ /\ _ => split
              | |- forall _ : Z, ~ _ => let H' := fresh in intros ? H'; in_cases H'
              | |- In _ _ => in_now
              | |- _ \/ _ => solve [auto]
              | |- _ = _ => reflexivity
              end.
Qed.

(** X7. When the program reports that it got no audio client, it exits
    with 1 without having asked for the mix format, and the status it
    prints is the one [CompletionHandler::Wait] returned: the status of
    the activation when that failed; [E_FAIL] when the activation
    succeeded without handing over an object; in both cases without a
    [QueryInterface] call; and otherwise the status of [QueryInterface],
    which then failed or gave no pointer. *)
Theorem handshake_failure_report w fuel hr :
  In (EvStderr (DNoAudioClient hr)) (fst (wmain w fuel)) ->
  snd (wmain w fuel) = Exit 1
  /\ (forall hr', ~ In (EvGetMixFormat hr') (fst (wmain w fuel)))
  /\ (FAILED (m_hrActivate w) = true ->
      hr = m_hrActivate w
      /\ forall hr', ~ In (EvQueryInterface hr') (fst (wmain w fuel)))
  /\ (FAILED (m_hrActivate w) = false -> m_pActivated w = false ->
      hr = E_FAIL
      /\ forall hr', ~ In (EvQueryInterface hr') (fst (wmain w fuel)))
  /\ (FAILED (m_hrActivate w) = false -> m_pActivated w = true ->
      hr = hrQI w /\ In (EvQueryInterface (hrQI w)) (fst (wmain w fuel))
      /\ (FAILED hr = true \/ qiClient w = false)).
Proof.
  intros H. apply in_wmain_in_setup in H; [|reflexivity].
  destruct (setup_handshake w hr H) as (Hok & Hrest).
  rewrite wmain_unfold, Hok. cbn [fst snd]. split; [reflexivity | exact Hrest].
Qed.

Lemma handshake_failure_report_witness :
  In (EvStderr (DNoAudioClient E_FAIL)) (fst (wmain world_null_activation 0))
  /\ snd (wmain world_null_activation 0) = Exit 1.
Proof.
  assert (H : In (EvStderr (DNoAudioClient E_FAIL))
                (fst (wmain world_null_activation 0))) by in_compute.
  split; [exact H|].
  exact (proj1 (handshake_failure_report world_null_activation 0 E_FAIL H)).
Defined.

(** ** The frame size *)

Lemma frame_size_exact_aux h :
  0 <= channels h < 2 ^ 16 ->
  0 <= bitsPerSample h < 2 ^ 16 ->
  frameSize_of h = channels h * (bitsPerSample h / 8)
  /\ 0 <= frameSize_of h <= 65535 * 8191
  /\ (frameSize_of h = 0 <-> channels h = 0 \/ bitsPerSample h < 8).
Proof.
  intros Hc Hb. unfold frameSize_of, u32.
  assert (Hq : 0 <= bitsPerSample h / 8 <= 8191).
  { split; [apply Z.div_pos; lia|].
    apply Z.lt_succ_r, Z.div_lt_upper_bound; lia. }
  assert (Hp : 0 <= channels h * (bitsPerSample h / 8) <= 65535 * 8191) by nia.
  rewrite Z.mod_small by lia.
  split; [reflexivity|]. split; [exact Hp|].
  rewrite Z.mul_eq_0, Z.div_small_iff by lia. lia.
Qed.

(** X8. Channels and bits per sample are 16-bit values, so the product
    of line 322 is exact: it does not wrap in 32 bits and stays below
    [INT_MAX]. The frame size is 0 exactly when there is no channel or
    a sample has fewer than eight bits. *)
Theorem frame_size_exact h :
  0 <= channels h < 2 ^ 16 ->
  0 <= bitsPerSample h < 2 ^ 16 ->
  frameSize_of h = channels h * (bitsPerSample h / 8)
  /\ 0 <= frameSize_of h <= 65535 * 8191
  /\ (frameSize_of h = 0 <-> channels h = 0 \/ bitsPerSample h < 8).
Proof. apply frame_size_exact_aux. Qed.

Lemma frame_size_exact_witness :
  frameSize_of (describe float51) = 6 * (32 / 8).
Proof.
  apply (proj1 (frame_size_exact (describe float51)
                  ltac:(cbn; lia) ltac:(cbn; lia))).
Defined.

(** X9. The size of a frame in the buffers is the block alignment of
    the format. For a format whose block alignment is channels times
    container bytes, the frame size the program computes agrees with it
    exactly when the format is not extensible or its valid bits fill as
    many bytes as its containers; with fewer valid bytes the program
    takes each frame for shorter than it is. *)
Theorem frame_size_and_block_align fmt :
  well_typed fmt ->
  0 < nChannels (Format fmt) ->
  nBlockAlign (Format fmt)
  = nChannels (Format fmt) * (wBitsPerSample (Format fmt) / 8) ->
  (frameSize_of (describe fmt) = nBlockAlign (Format fmt)
   <-> wFormatTag (Format fmt) <> WAVE_FORMAT_EXTENSIBLE
       \/ wValidBitsPerSample fmt / 8 = wBitsPerSample (Format fmt) / 8)
  /\ (wFormatTag (Format fmt) = WAVE_FORMAT_EXTENSIBLE ->
      wValidBitsPerSample fmt / 8 < wBitsPerSample (Format fmt) / 8 ->
      frameSize_of (describe fmt) < nBlockAlign (Format fmt)).
Proof.
  intros (Hc & Hb & Hv & _) Hpos Hal. unfold describe.
  destruct (Z.eqb_spec (wFormatTag (Format fmt)) WAVE_FORMAT_EXTENSIBLE)
    as [Ht | Ht].
  - match goal with |- context [frameSize_of ?h] =>
      destruct (frame_size_exact_aux h) as (E & _); [exact Hc | exact Hv |]
    end.
    rewrite E, Hal. cbn [channels bitsPerSample]. split.
    + split.
      * intros H. right.
        apply (Z.mul_reg_l _ _ (nChannels (Format fmt))); [lia | exact H].
      * intros [H | H]; [contradiction | rewrite H; reflexivity].
    + intros _ H. apply Z.mul_lt_mono_pos_l; [exact Hpos | exact H].
  - match goal with |- context [frameSize_of ?h] =>
      destruct (frame_size_exact_aux h) as (E & _); [exact Hc | exact Hb |]
    end.
    rewrite E, Hal. cbn [channels bitsPerSample]. split.
    + split; auto.
    + intros H. contradiction.
Qed.

Lemma frame_size_and_block_align_witness :
  frameSize_of (describe pcm24in32) < nBlockAlign (Format pcm24in32).
Proof.
  refine (proj2 (frame_size_and_block_align pcm24in32 _ _ _) _ _).
  - unfold well_typed, pcm24in32, WAVE_FORMAT_EXTENSIBLE.
    cbn [Format nChannels wBitsPerSample wValidBitsPerSample nBlockAlign
         nSamplesPerSec wFormatTag SubFormat Data1].
    lia.
  - reflexivity.
  - reflexivity.
  - reflexivity.
  - reflexivity.
Defined.

(** ** A frame size of zero *)

Lemma bytes_requested_nonneg t : 0 <= bytes_requested t.
Proof.
  induction t as [|e t IH]; [reflexivity|].
  destruct e as [| | | | | | | | | | | | | | | | buf r | | | | | | | | | | |];
    try exact IH.
  change (0 <= Z.of_nat (List.length buf) + bytes_requested t). lia.
Qed.

Lemma bytes_requested_zero t : bytes_requested t = 0 -> bytes_written t = [].
Proof.
  induction t as [|e t IH]; [reflexivity|].
  pose proof (bytes_requested_nonneg t) as Hn.
  destruct e as [| | | | | | | | | | | | | | | | buf r | | | | | | | | | | |];
    try exact IH.
  change (Z.of_nat (List.length buf) + bytes_requested t = 0
          -> firstn (Z.to_nat r) buf ++ bytes_written t = []).
  intros H. destruct buf as [|b buf]; [|cbn [List.length] in H; lia].
  rewrite firstn_nil. apply IH. cbn [List.length] in H. lia.
Qed.

Lemma bytes_requested_quiet t :
  forallb (fun e => negb (is_write e)) t = true -> bytes_requested t = 0.
Proof.
  induction t as [|e t IH]; [reflexivity|]. cbn [forallb].
  intros H. apply andb_true_iff in H. destruct H as [He H].
  destruct e; try discriminate He; cbn; auto.
Qed.

Lemma byteCount_of_zero n : byteCount_of n 0 = 0.
Proof. unfold byteCount_of. rewrite Z.mul_0_r. reflexivity. Qed.

Lemma round_writes_zero r : round_writes 0 r -> bytes_requested r = 0.
Proof.
  intros [H | (hr & n & fl & body & -> & _ & _ & H)].
  - apply bytes_requested_quiet, H.
  - change (bytes_requested (EvGetBuffer hr n fl :: body))
      with (bytes_requested body).
    rewrite byteCount_of_zero in H. destruct (silent fl).
    + destruct H as (chunks & _ & Hall & -> & Hle & _).
      assert (0 <= chunk_total chunks).
      { apply chunk_total_nonneg. eapply Forall_impl; [|exact Hall].
        cbn. intros ? []. assumption. }
      lia.
    + destruct H as (data & ret' & _ & ->). reflexivity.
Qed.

Lemma rounds_zero rounds :
  Forall (round_writes 0) rounds -> bytes_requested (List.concat rounds) = 0.
Proof.
  induction 1 as [|r rounds Hr _ IH]; [reflexivity|].
  cbn [List.concat]. rewrite bytes_requested_app, IH, (round_writes_zero r Hr).
  reflexivity.
Qed.

(** X10. When the frame size is 0 (no channel, or samples of fewer than
    eight bits) no sample ever reaches the data channel: whatever the
    buffers hold, the stream is the header and nothing else. *)
Theorem no_frame_no_samples w fuel :
  setup_ok w = true ->
  frameSize w = 0 ->
  bytes_written (fst (wmain w fuel)) = header_bytes (stream_header w).
Proof.
  intros Hok Hfs.
  pose proof (capture_loop_inv w
                (fun _ m => in_rounds (frameSize w) (started w) m)
                (frameSize w)
                (fun ph m _ => loop_step_in_rounds w (frameSize w)
                                 (started w) ph m)
                fuel Running (started w)) as Hinv.
  unfold wp in Hinv. rewrite loop_end_eq in Hinv.
  destruct Hinv as (rounds & Et & Hall).
  { exists []. split; [symmetry; apply app_nil_r | constructor]. }
  rewrite Hfs in Hall.
  assert (Hb : bytes_written (trace (fst (loop_end w fuel)))
               = header_bytes (stream_header w)).
  { rewrite Et, bytes_written_app, (setup_stream w Hok),
      (bytes_requested_zero _ (rounds_zero rounds Hall)).
    apply app_nil_r. }
  rewrite wmain_unfold, Hok.
  destruct (snd (loop_end w fuel)); cbn [fst]; try exact Hb.
  rewrite bytes_written_app, Hb. apply app_nil_r.
Qed.

Lemma no_frame_no_samples_witness :
  bytes_written (fst (wmain world_adpcm 5))
  = header_bytes (stream_header world_adpcm).
Proof.
  apply (no_frame_no_samples world_adpcm 5); reflexivity.
Defined.

(** ** The shutdown flag along a run *)

Lemma flag_run_app t : forall c u,
  flag_run c (t ++ u)
  = match flag_run c t with Some c' => flag_run c' u | None => None end.
Proof.
  induction t as [|e t IH]; intros c u; [reflexivity|].
  destruct e; cbn [app flag_run]; auto.
  - destruct v; [destruct c|]; auto.
  - destruct v; auto.
Qed.

Lemma setup_flag w : flag_run false (trace (started w)) = Some false.
Proof. unfold started. setup_exec; reflexivity. Qed.

Lemma capture_loop_flag w fs fuel m :
  flag_run false (trace m) = Some (negb (g_running m)) ->
  wp (capture_loop w fuel fs Running)
     (fun ph' m' => flag_run false (trace m') = Some (negb (g_running m'))
                    /\ (ph' = Stopped -> g_running m' = false)) m.
Proof.
  intros Hm.
  apply (capture_loop_keeps w
           (fun m => flag_run false (trace m) = Some (negb (g_running m)))).
  - intros m0 H0. unfold load_running.
    cbn [fst emit tick_load set_running g_running trace].
    rewrite flag_run_app, H0. cbn [flag_run].
    destruct (g_running m0); cbn [andb negb]; [|reflexivity].
    destruct (ctrl_c w (loads m0)); reflexivity.
  - intros buf m0 H0. unfold store_running, _write.
    cbn [fst emit tick_write set_running g_running trace].
    destruct (_ <=? 0); rewrite !flag_run_app, H0; reflexivity.
  - intros m0 H0. unfold WaitForSingleObject.
    cbn [fst emit tick_wait g_running trace].
    rewrite flag_run_app, H0. reflexivity.
  - intros m0 H0. unfold GetBuffer.
    cbn [fst emit tick_get g_running trace].
    rewrite flag_run_app, H0. reflexivity.
  - intros n m0 H0. cbn [emit g_running trace].
    rewrite flag_run_app, H0. reflexivity.
  - exact Hm.
  - discriminate.
Qed.

(** X11. Nothing in the program sets [g_running] again: no store of
    [TRUE] is made, and once a read has given [FALSE] or [FALSE] has
    been stored, every later read gives [FALSE]. A run that has
    returned 0 has seen the flag cleared. *)
Theorem flag_stays_cleared w fuel :
  exists c, flag_run false (fst (wmain w fuel)) = Some c
            /\ (snd (wmain w fuel) = Exit 0 -> c = true).
Proof.
  rewrite wmain_unfold. destruct (setup_ok w) eqn:Hok.
  - destruct (setup_ok_run w Hok) as (_ & Hrun & _).
    pose proof (capture_loop_flag w (frameSize w) fuel (started w)) as Hinv.
    rewrite Hrun, setup_flag in Hinv. specialize (Hinv eq_refl).
    unfold wp in Hinv. rewrite loop_end_eq in Hinv.
    destruct Hinv as (Hf & Hs).
    destruct (snd (loop_end w fuel)); cbn [fst snd].
    + eexists. split; [exact Hf | discriminate].
    + eexists. split; [exact Hf | discriminate].
    + exists true. split; [|reflexivity].
      rewrite flag_run_app, Hf, (Hs eq_refl). reflexivity.
  - exists false. cbn [fst snd]. split; [apply setup_flag | discriminate].
Qed.

(** ** The order of the calls in the capture loop *)

Lemma in_turn_app t : forall p u,
  in_turn p (t ++ u) = in_turn p t && in_turn (last_event p t) u.
Proof.
  induction t as [|e t IH]; intros p u; [reflexivity|].
  cbn [app in_turn last_event]. rewrite IH, andb_assoc. reflexivity.
Qed.

Lemma last_event_app t : forall p u,
  last_event p (t ++ u) = last_event (last_event p t) u.
Proof.
  induction t as [|e t IH]; intros p u; [reflexivity|]. apply IH.
Qed.

Lemma io_event_free t : forallb io_event t = true -> forallb free_event t = true.
Proof.
  rewrite !forallb_forall. intros H e He. specialize (H e He).
  destruct e; try discriminate H; reflexivity.
Qed.

(** Calls other than the wait and [GetBuffer] may follow one another. *)
Lemma in_turn_free t : forall e,
  free_event e = true -> forallb free_event t = true ->
  in_turn (Some e) t = true.
Proof.
  induction t as [|e' t IH]; intros e He Ht; [reflexivity|].
  cbn [forallb] in Ht. apply andb_true_iff in Ht. destruct Ht as [He' Ht].
  cbn [in_turn]. rewrite (IH e' He' Ht), andb_true_r.
  destruct e; try discriminate He; destruct e'; try discriminate He'; reflexivity.
Qed.

Lemma in_turn_after_getbuffer hr n fl t :
  forallb free_event t = true ->
  in_turn (Some (EvGetBuffer hr n fl)) t = true.
Proof.
  destruct t as [|e t]; [reflexivity|]. cbn [forallb in_turn].
  intros H. apply andb_true_iff in H. destruct H as [He Ht].
  rewrite (in_turn_free t e He Ht), andb_true_r.
  destruct e; try discriminate He; reflexivity.
Qed.

Lemma drain_round_in_turn w fs b k p body again b' hr n fl :
  DrainRound w fs b k p body again b' ->
  n = pk_numFrames p ->
  in_turn (Some (EvGetBuffer hr n fl)) body = true
  /\ head_ok (if again then Draining else Running)
       (last_event (Some (EvGetBuffer hr n fl)) body) = true.
Proof.
  intros [Ha -> -> _ | Ha Hz -> -> _
          | chunks tail Ha Hn Hs -> _ _ Hend ->
          | r Ha Hn Hs _ -> -> _] ->.
  - split; reflexivity.
  - split; reflexivity.
  - split.
    + apply in_turn_after_getbuffer.
      rewrite !forallb_app, (io_event_free _ (chunk_events_io chunks)),
        (io_event_free _ (silence_end_io _ _ _ _ _ _ Hend)). reflexivity.
    + rewrite !last_event_app. cbn. apply Z.eqb_neq in Hn. rewrite Hn. reflexivity.
  - split.
    + apply in_turn_after_getbuffer. destruct (r <=? 0); reflexivity.
    + apply Z.eqb_neq in Hn. destruct (r <=? 0); cbn; rewrite Hn; reflexivity.
Qed.

Lemma loop_step_in_turn w fs ph m :
  in_turn None (trace m) = true ->
  head_ok ph (last_event None (trace m)) = true ->
  wp (loop_step w fs ph)
     (fun ph' m' => in_turn None (trace m') = true
                    /\ head_ok ph' (last_event None (trace m')) = true) m.
Proof.
  intros Ht Hh. destruct ph; cbn [loop_step].
  - unfold wp, bind, load_running, WaitForSingleObject.
    assert (Hl : forall v, may_follow (last_event None (trace m))
                             (EvLoadRunning v) = true).
    { intros v. destruct (last_event None (trace m)) as [[]|]; try reflexivity.
      cbn [head_ok] in Hh. apply negb_true_iff in Hh.
      unfold may_follow. rewrite Hh. reflexivity. }
    destruct (g_running m && negb (ctrl_c w (loads m)));
      cbn [fst snd emit tick_load tick_wait set_running trace waits].
    + destruct (wait_ret w (waits m) =? WAIT_OBJECT_0) eqn:Er;
        unfold ret; cbn [trace emit tick_wait tick_load set_running];
        rewrite <- app_assoc, in_turn_app, last_event_app, Ht;
        cbn [app in_turn last_event andb head_ok]; rewrite Hl, Er; auto.
    + unfold ret. cbn [trace emit tick_wait tick_load set_running].
      rewrite in_turn_app, last_event_app, Ht.
      cbn [app in_turn last_event andb head_ok]. rewrite Hl. auto.
  - destruct (drain_body_shape w fs m)
      as (m' & again & body & E & Et & _ & _ & Hr).
    destruct (drain_round_in_turn _ _ _ _ _ _ _ _
                (pk_hr (packet w (gets m))) _ (pk_flags (packet w (gets m)))
                Hr eq_refl) as (Hb & Hl).
    unfold wp, bind. rewrite E.
    assert (Hg : may_follow (last_event None (trace m))
                   (EvGetBuffer (pk_hr (packet w (gets m)))
                      (pk_numFrames (packet w (gets m)))
                      (pk_flags (packet w (gets m)))) = true).
    { destruct (last_event None (trace m)) as [[]|]; try discriminate Hh;
        cbn [head_ok] in Hh; unfold may_follow; rewrite Hh; reflexivity. }
    assert (Hs : in_turn None (trace m') = true
                 /\ head_ok (if again then Draining else Running)
                      (last_event None (trace m')) = true).
    { rewrite Et, in_turn_app, last_event_app, Ht. cbn [in_turn last_event andb].
      rewrite Hg, Hb. auto. }
    destruct again; exact Hs.
  - unfold wp, ret. auto.
Qed.

Lemma setup_in_turn w :
  in_turn None (trace (started w)) = true
  /\ head_ok Running (last_event None (trace (started w))) = true.
Proof. unfold started. setup_exec; split; reflexivity. Qed.

(** X12. In every run the calls of the capture loop come in this order:
    the wait on the capture event only directly after a read of
    [g_running] as set; [GetBuffer] only directly after a signalled
    wait or after the release of a buffer with frames; and after a wait
    that was not signalled, a timeout or a failure, nothing but the next
    read of the flag. *)
Theorem calls_in_turn w fuel : in_turn None (fst (wmain w fuel)) = true.
Proof.
  rewrite wmain_unfold. destruct (setup_ok w) eqn:Hok;
    [|apply setup_in_turn].
  destruct (setup_in_turn w) as (Ht & Hh).
  pose proof (capture_loop_inv w
                (fun ph m => in_turn None (trace m) = true
                             /\ head_ok ph (last_event None (trace m)) = true)
                (frameSize w)
                (fun ph m _ H => loop_step_in_turn w (frameSize w) ph m
                                   (proj1 H) (proj2 H))
                fuel Running (started w) (conj Ht Hh)) as Hinv.
  unfold wp in Hinv. rewrite loop_end_eq in Hinv. destruct Hinv as (Hl & Hp).
  destruct (snd (loop_end w fuel)); cbn [fst]; try exact Hl.
  rewrite in_turn_app, Hl.
  destruct (last_event None (trace (fst (loop_end w fuel)))) as [[]|];
    try discriminate Hp; reflexivity.
Qed.

(** * The completion handler *)

Module HandlerFacts.

Import CompletionHandler.

Lemma s32_small x : - 2 ^ 31 <= x < 2 ^ 31 -> s32 x = x.
Proof. intros H. unfold s32. rewrite Z.mod_small; lia. Qed.

Lemma dtor_with_ref r s : dtor (with_ref r s) = dtor s.
Proof. reflexivity. Qed.

Lemma run_destroyed ops l calls :
  run ops Destroyed = Some (l, calls) -> ops = [] /\ l = Destroyed /\ calls = [].
Proof.
  destruct ops; cbn; [|discriminate]. intros H. injection H as <- <-. auto.
Qed.

(** One call on a live object: the count moves by [delta], and the
    object is destroyed exactly by the [Release] that brings it to 0. *)
Lemma step_count op s l c :
  0 < m_ref s < 2 ^ 31 - 1 ->
  step op s = Some (l, c) ->
  match l with
  | Alive s' => m_ref s' = m_ref s + delta op /\ 0 < m_ref s'
  | Destroyed => op = OpRelease /\ m_ref s = 1 /\ c = dtor s
  end.
Proof.
  intros Hr. destruct op as [| | riid ftmHr ftmPtr | hr pUnk | hq cl];
    cbn [step delta].
  - intros H. injection H as <- <-. cbn. unfold InterlockedIncrement.
    rewrite s32_small; lia.
  - unfold Release, InterlockedDecrement. rewrite s32_small by lia.
    destruct (Z.eqb_spec (m_ref s - 1) 0) as [E | E];
      intros H; injection H as <- <-; cbn.
    + repeat split. lia.
    + lia.
  - unfold QueryInterface. destruct (own riid).
    + intros H. injection H as <- <-. cbn. unfold InterlockedIncrement.
      rewrite s32_small; lia.
    + destruct (m_ftm s); intros H; injection H as <- <-; cbn; lia.
  - intros H. injection H as <- <-. cbn. lia.
  - destruct (Wait hq cl false s) as [[[s' r] calls]|] eqn:Ew;
      [|discriminate].
    intros H. injection H as <- <-. cbn [fst].
    unfold Wait in Ew.
    destruct (m_event s) as [[]|];
      try discriminate Ew;
      destruct (FAILED (m_hrActivate s) || negb (m_pActivated s));
      injection Ew as <- _ _; cbn; lia.
Qed.

End HandlerFacts.

(** X13. Reference counting of the completion handler, for any sequence
    of calls on an object with a positive count that stays in range:
    [AddRef] and a [QueryInterface] for [IUnknown] or the handler
    interface add one reference, [Release] takes one, nothing else
    changes the count. The object lives as long as the count is
    positive; it is destroyed by the [Release] that brings the count to
    zero, and the destructor then gives back the marshaler, the
    activated object and the event, each if it is there. *)
Theorem reference_count ops : forall s l calls,
  0 < CompletionHandler.m_ref s ->
  CompletionHandler.m_ref s + Z.of_nat (List.length ops) < 2 ^ 31 ->
  CompletionHandler.run ops (CompletionHandler.Alive s) = Some (l, calls) ->
  match l with
  | CompletionHandler.Alive s' =>
      CompletionHandler.m_ref s'
      = CompletionHandler.m_ref s + CompletionHandler.total ops
      /\ 0 < CompletionHandler.m_ref s'
  | CompletionHandler.Destroyed =>
      exists pre s' calls0,
        ops = pre ++ [CompletionHandler.OpRelease]
        /\ CompletionHandler.run pre (CompletionHandler.Alive s)
           = Some (CompletionHandler.Alive s', calls0)
        /\ CompletionHandler.m_ref s' = 1
        /\ calls = calls0 ++ CompletionHandler.dtor s'
  end.
Proof.
  induction ops as [|op ops IH]; intros s l calls Hpos Hfit.
  - cbn. intros H. injection H as <- <-. cbn. lia.
  - cbn [List.length] in Hfit. cbn [CompletionHandler.run].
    destruct (CompletionHandler.step op s) as [[l1 c1]|] eqn:Es; [|discriminate].
    pose proof (HandlerFacts.step_count op s l1 c1 ltac:(lia) Es) as Hs.
    destruct (CompletionHandler.run ops l1) as [[l2 c2]|] eqn:Er; [|discriminate].
    intros H. injection H as <- <-.
    destruct l1 as [s1|].
    + destruct Hs as (E1 & Hpos1).
      assert (Hd : CompletionHandler.delta op <= 1) by
        (destruct op as [| | riid ? ? | |]; cbn; try lia;
         destruct (CompletionHandler.own riid); lia).
      specialize (IH s1 l2 c2 Hpos1 ltac:(lia) Er).
      destruct l2 as [s2|].
      * cbn [CompletionHandler.total fold_right].
        fold (CompletionHandler.total ops). lia.
      * destruct IH as (pre & s' & calls0 & -> & Ep & E' & ->).
        exists (op :: pre), s', (c1 ++ calls0).
        split; [reflexivity|]. split.
        -- cbn [CompletionHandler.run]. rewrite Es, Ep. reflexivity.
        -- split; [exact E' | apply app_assoc].
    + destruct Hs as (-> & E1 & ->).
      apply HandlerFacts.run_destroyed in Er. destruct Er as (-> & -> & ->).
      exists [], s, []. cbn. rewrite app_nil_r. auto.
Qed.

Lemma reference_count_witness :
  exists pre s' calls0,
    [CompletionHandler.OpAddRef; CompletionHandler.OpRelease;
     CompletionHandler.OpRelease]
    = pre ++ [CompletionHandler.OpRelease]
    /\ CompletionHandler.run pre
         (CompletionHandler.Alive (fst (CompletionHandler.ctor true true)))
       = Some (CompletionHandler.Alive s', calls0)
    /\ CompletionHandler.m_ref s' = 1
    /\ [CompletionHandler.DoFtmRelease; CompletionHandler.DoCloseHandle]
       = calls0 ++ CompletionHandler.dtor s'.
Proof.
  apply (reference_count
           [CompletionHandler.OpAddRef; CompletionHandler.OpRelease;
            CompletionHandler.OpRelease]
           (fst (CompletionHandler.ctor true true))
           CompletionHandler.Destroyed).
  - reflexivity.
  - reflexivity.
  - reflexivity.
Defined.

(** X14. [Wait] and [ActivateCompleted] meet at the event. [Wait] does
    not return exactly when the event exists and is not signalled.
    After [ActivateCompleted] on an object with an event, [Wait]
    returns, with the status and the client that [wmain] goes on with;
    it asks the activated object for the audio client exactly when the
    activation succeeded with an object; it leaves the count alone and
    resets the event, so that a second [Wait] does not return. *)
Theorem wait_meets_completion w m s hrQI' client' pp :
  CompletionHandler.m_event s <> None ->
  (CompletionHandler.Wait hrQI' client' pp s = None
   <-> CompletionHandler.m_event s = Some false)
  /\ exists s2 r calls,
       CompletionHandler.Wait (hrQI w) (qiClient w) false
         (fst (fst (CompletionHandler.ActivateCompleted
                      (m_hrActivate w) (m_pActivated w) s)))
       = Some (s2, r, calls)
       /\ snd (CompletionHandler_Wait w m) = Next r
       /\ (In CompletionHandler.DoActivatedQueryInterface calls
           <-> FAILED (m_hrActivate w) = false /\ m_pActivated w = true)
       /\ CompletionHandler.m_ref s2 = CompletionHandler.m_ref s
       /\ CompletionHandler.Wait (hrQI w) (qiClient w) false s2 = None.
Proof.
  intros Hev. split.
  - unfold CompletionHandler.Wait.
    destruct (CompletionHandler.m_event s) as [[]|]; [| |contradiction];
      destruct (FAILED (CompletionHandler.m_hrActivate s)
                || negb (CompletionHandler.m_pActivated s));
      split; congruence.
  - unfold CompletionHandler.Wait, CompletionHandler.ActivateCompleted,
      CompletionHandler_Wait, bind, call, fprintf, ret.
    cbn [fst snd CompletionHandler.m_event CompletionHandler.m_hrActivate
         CompletionHandler.m_pActivated CompletionHandler.m_ref
         CompletionHandler.with_event].
    destruct (CompletionHandler.m_event s) as [b|]; [|contradiction].
    destruct (FAILED (m_hrActivate w)) eqn:Ef;
      [|destruct (m_pActivated w) eqn:Ep]; cbn [orb negb];
      do 3 eexists; (split; [reflexivity|]); cbn [snd fst];
      (split; [reflexivity|]); (split; [|split; reflexivity]);
      cbn [In app]; split.
    all: try (intros (H1 & H2); discriminate).
    all: try (intros [H | [H | []]]; discriminate H).
    all: try (intros _; auto).
    all: try (intros H; right; right; left; reflexivity).
Qed.

Lemma wait_meets_completion_witness :
  exists s2 r calls,
    CompletionHandler.Wait (hrQI world_stream) (qiClient world_stream) false
      (fst (fst (CompletionHandler.ActivateCompleted
                   (m_hrActivate world_stream) (m_pActivated world_stream)
                   (fst (CompletionHandler.ctor true true)))))
    = Some (s2, r, calls)
    /\ snd (CompletionHandler_Wait world_stream boot) = Next r
    /\ (In CompletionHandler.DoActivatedQueryInterface calls
        <-> FAILED (m_hrActivate world_stream) = false
            /\ m_pActivated world_stream = true)
    /\ CompletionHandler.m_ref s2
       = CompletionHandler.m_ref (fst (CompletionHandler.ctor true true))
    /\ CompletionHandler.Wait (hrQI world_stream) (qiClient world_stream)
         false s2 = None.
Proof.
  apply (wait_meets_completion world_stream boot
           (fst (CompletionHandler.ctor true true)) S_OK true false).
  discriminate.
Defined.

(** * The header read back *)

(** X15. The twelve bytes of the header determine the descriptor: read
    back as little-endian fields they give the sample rate, channels,
    bits per sample and format tag of the format, for every format
    whose fields are in the ranges of their C types; so two formats
    with the same header bytes have the same descriptor. *)
Theorem header_round_trip fmt :
  well_typed fmt ->
  parse_header (header_bytes (describe fmt)) = Some (describe fmt)
  /\ forall fmt', well_typed fmt' ->
       header_bytes (describe fmt') = header_bytes (describe fmt) ->
       describe fmt' = describe fmt.
Proof.
  assert (Hrt : forall f, well_typed f ->
            parse_header (header_bytes (describe f)) = Some (describe f)).
  { intros f (Hc & Hb & Hv & _ & Hs & Ht & Hd).
    rewrite parse_header_bytes. unfold describe.
    destruct (wFormatTag (Format f) =? WAVE_FORMAT_EXTENSIBLE);
      cbn [sampleRate channels bitsPerSample formatTag]; unfold u32, u16;
      rewrite !Z.mod_small by lia; reflexivity. }
  intros Hf. split; [apply Hrt, Hf|].
  intros fmt' Hf' E.
  pose proof (Hrt fmt' Hf') as H'. rewrite E, (Hrt fmt Hf) in H'.
  congruence.
Qed.

Lemma header_round_trip_witness :
  parse_header (header_bytes (describe pcm24in32)) = Some (describe pcm24in32).
Proof.
  refine (proj1 (header_round_trip pcm24in32 _)).
  unfold well_typed, pcm24in32, WAVE_FORMAT_EXTENSIBLE.
  cbn [Format nChannels wBitsPerSample wValidBitsPerSample nBlockAlign
       nSamplesPerSec wFormatTag SubFormat Data1].
  lia.
Defined.

(** * Failure reports *)

Lemma reports_app t u : reports (t ++ u) = (reports t + reports u)%nat.
Proof. unfold reports. rewrite filter_app, length_app. reflexivity. Qed.

Lemma reports_late evs : forallb late_event evs = true -> reports evs = 0%nat.
Proof.
  unfold reports. induction evs as [|e evs IH]; [reflexivity|]. cbn [forallb].
  intros H. apply andb_true_iff in H. destruct H as [He H].
  destruct e as [[] | | | | | | | | | | | | | | | | | | | | | | | | | | |];
    try discriminate He; cbn; auto.
Qed.

Lemma setup_reports w :
  reports (trace (started w)) = if setup_ok w then 0%nat else 1%nat.
Proof.
  unfold started, setup_ok, activation_ok.
  setup_exec; rewrite ?header_length in *; change (Z.of_nat 12) with 12 in *;
    repeat match goal with
           | E : negb _ = _ |- _ =>
               first [apply negb_true_iff in E | apply negb_false_iff in E]
           end;
    repeat match goal with E : ?c = _ |- context [?c] => rewrite E end;
    cbn [negb andb]; rewrite ?andb_false_r; reflexivity.
Qed.

(** X16. Every run that returns 1 has written exactly one failure
    report to the diagnostic channel, and no other run has written
    any: no setup step fails silently, and a failure of the mix-format
    query or in the capture loop is not reported as one. *)
Theorem failures_are_reported w fuel :
  reports (fst (wmain w fuel))
  = match snd (wmain w fuel) with Exit 1 => 1%nat | _ => 0%nat end.
Proof.
  destruct (wmain_prefix w fuel) as (evs & Et & Fl & Hfail).
  rewrite Et, reports_app, setup_reports, (reports_late evs Fl).
  rewrite wmain_unfold. destruct (setup_ok w); [|reflexivity].
  destruct (snd (loop_end w fuel)); reflexivity.
Qed.

(** * The mode of the data channel *)

Lemma binary_first_app t : forall s u,
  binary_first s (t ++ u)
  = binary_first s t && binary_first (s || existsb is_setmode t) u.
Proof.
  induction t as [|e t IH]; intros s u.
  - cbn. rewrite orb_false_r. reflexivity.
  - destruct e; cbn [app binary_first existsb is_setmode]; rewrite ?IH, ?orb_false_l;
      try reflexivity.
    + rewrite !orb_true_r. destruct (existsb is_setmode t);
        rewrite ?orb_true_r, ?orb_false_r; reflexivity.
    + rewrite andb_assoc. reflexivity.
Qed.

Lemma binary_first_set t : binary_first true t = true.
Proof. induction t as [|e t IH]; [reflexivity|]. destruct e; exact IH. Qed.

Lemma setup_binary_first w :
  binary_first false (trace (started w)) = true
  /\ (setup_ok w = true -> existsb is_setmode (trace (started w)) = true).
Proof.
  unfold started, setup_ok, activation_ok.
  setup_exec; (split; [reflexivity|]); intros H; decide_in H;
    first [discriminate | reflexivity].
Qed.

(** X17. The data channel is switched to binary mode before anything is
    written to it: in every run [_setmode] comes before the first
    write, the header included. *)
Theorem binary_mode_before_writes w fuel :
  binary_first false (fst (wmain w fuel)) = true.
Proof.
  destruct (wmain_prefix w fuel) as (evs & Et & _ & Hfail).
  destruct (setup_binary_first w) as (Hs & Hm).
  rewrite Et, binary_first_app, Hs. cbn [andb orb].
  destruct (setup_ok w).
  - rewrite (Hm eq_refl). apply binary_first_set.
  - rewrite (Hfail eq_refl). destruct (existsb is_setmode _); reflexivity.
Qed.
